(** * CSV-to-JSON service: a shallow embedding of [server.js]

    The development follows the source file from top to bottom:

    - buffers and their decoding as UTF-8 ([buffer.toString]);
    - [Fs]       the uploads directory and the [fs] calls made on it
                 ([readdirSync], which lists the names in order,
                 [unlinkSync], [unlink], the write of the upload
                 middleware) and the chunks [createReadStream] hands
                 over;
    - [cleanupUploads]  the purge run at start-up and from the process
                 level handlers (server.js, lines 19-33);
    - [Js]       plain JavaScript objects as the decoder builds them
                 (property order matters for the records of the response);
    - [CsvParser] the stream transformer the handler pipes the file into,
                 with the options the handler passes, written to chunk
                 by chunk;
    - [Server]   the upload middleware ([storage], [fileFilter]), the
                 [/convert] handler with its three listeners, the error
                 middleware, the [uncaughtException] handler and
                 [gracefulShutdown].  A response is sent once; a
                 listener that answers again raises.

    The properties come after the definitions: the decoder on one
    buffer ([CsvParserFacts], [QuotedCells]), the decoder across the
    chunks of a file ([ChunkFacts], [PipeFacts]), objects, the
    directory and the handler ([JsFacts], [FsFacts], [ServerFacts]),
    and then the statements about the service.

    Console output is not modelled. *)

From Stdlib Require Import List String Ascii Strings.Byte ZArith NArith Lia Bool Arith.
From Stdlib Require Import DecimalString DecimalZ DecimalNat DecimalPos.
From Stdlib Require Import Permutation Sorted.
Import ListNotations.
Set Warnings "-register-all".
Local Open Scope string_scope.
Local Open Scope list_scope.

(** ** Buffers and strings *)

(** A Node [Buffer] is a sequence of bytes. *)
Definition buffer := list byte.

Definition nl : byte := "010"%byte.
Definition cr : byte := "013"%byte.
Definition comma : byte := ","%byte.
Definition quote : byte := "034"%byte.

(** [buffer[i]]: [None] stands for [undefined] (index out of range). *)
Definition byteAt (b : buffer) (i : nat) : option byte := nth_error b i.

(** [buffer[i - 1]], which is [undefined] when [i] is 0. *)
Definition byteBefore (b : buffer) (i : nat) : option byte :=
  match i with
  | O => None
  | S j => nth_error b j
  end.

Definition is_byte (o : option byte) (c : byte) : bool :=
  match o with
  | Some x => Byte.eqb x c
  | None => false
  end.

(** [buffer.slice(start, end)] for [start <= end]. *)
Definition slice (b : buffer) (start end_ : nat) : buffer :=
  firstn (end_ - start) (skipn start b).

(** *** Decoding UTF-8

    A string is kept as the bytes of its UTF-8 encoding.  Decoding a
    buffer leaves every well-formed sequence as it is and puts U+FFFD
    (bytes EF BF BD) in the place of every maximal ill-formed one: a
    byte that cannot start a sequence, or the start of a sequence that
    the next byte does not continue. *)

Definition replacement : buffer := ["239"; "191"; "189"]%byte.

Definition between (lower upper : N) (x : byte) : bool :=
  (lower <=? Byte.to_N x)%N && (Byte.to_N x <=? upper)%N.

(** The decoder between two bytes: no sequence is open, or [seen] are
    the bytes of the open sequence, [needed] the number of bytes it
    still lacks and [lower]..[upper] the range of its next byte. *)
Inductive utf8 :=
| Ready
| Pending (seen : buffer) (needed : nat) (lower upper : N).

(** A byte read while no sequence is open: what is decoded, and the
    decoder after the byte.  C0, C1 and F5..FF start no sequence; the
    ranges after E0, ED, F0 and F4 exclude overlong forms, surrogates
    and code points above U+10FFFF. *)
Definition utf8_lead (x : byte) : buffer * utf8 :=
  if between 0 127 x then ([x], Ready)
  else if between 194 223 x then ([], Pending [x] 1 128 191)
  else if between 224 239 x then
    ([], Pending [x] 2
           (if Byte.eqb x "224"%byte then 160%N else 128%N)
           (if Byte.eqb x "237"%byte then 159%N else 191%N))
  else if between 240 244 x then
    ([], Pending [x] 3
           (if Byte.eqb x "240"%byte then 144%N else 128%N)
           (if Byte.eqb x "244"%byte then 143%N else 191%N))
  else (replacement, Ready).

Fixpoint utf8_decode (st : utf8) (b : buffer) : buffer :=
  match b with
  | [] =>
      match st with
      | Ready => []
      | Pending _ _ _ _ => replacement
      end
  | x :: b' =>
      match st with
      | Ready =>
          let '(decoded, st') := utf8_lead x in
          decoded ++ utf8_decode st' b'
      | Pending seen needed lower upper =>
          if between lower upper x then
            match needed with
            | S (S k) =>
                utf8_decode (Pending (seen ++ [x]) (S k) 128 191) b'
            | _ => seen ++ x :: utf8_decode Ready b'
            end
          else
            (* the open sequence is ill-formed; [x] is read again *)
            let '(decoded, st') := utf8_lead x in
            replacement ++ decoded ++ utf8_decode st' b'
      end
  end.

(** [buffer.toString('utf-8')] *)
Definition toString (b : buffer) : string :=
  string_of_list_byte (utf8_decode Ready b).

Definition Buffer_from (s : string) : buffer := list_byte_of_string s.

(** [`${n}`] for an integral number value. *)
Definition string_of_Z (z : Z) : string := NilZero.string_of_int (Z.to_int z).

Definition string_of_nat (n : nat) : string := string_of_Z (Z.of_nat n).

(** [s.endsWith(suffix)] *)
Definition endsWith (s suffix : string) : bool :=
  let n := String.length s in
  let k := String.length suffix in
  (k <=? n)%nat && String.eqb (substring (n - k) k s) suffix.

(** ** The uploads directory *)

Module Fs.

(** An entry of the uploads directory.  The server only ever creates
    regular files there; [readdirSync] lists whatever is present. *)
Inductive entry :=
| RegularFile (content : buffer)
| Directory.

(** The directory, as the list [readdirSync] enumerates.  The listing
    is in the order of the names (bytewise); [writeFile] below puts a
    new entry at its place in that order. *)
Definition store := list (string * entry).

Definition readdirSync (st : store) : list string := map fst st.

Definition is_regular (e : entry) : bool :=
  match e with
  | RegularFile _ => true
  | Directory => false
  end.

(** [unlink(2)] on the entry called [name]: [None] is the failure
    (no such entry, or the entry is a directory), [Some st'] the
    directory without the file. *)
Fixpoint unlink (name : string) (st : store) : option store :=
  match st with
  | [] => None
  | (n, e) :: rest =>
      if String.eqb n name then
        if is_regular e then Some rest else None
      else
        match unlink name rest with
        | Some rest' => Some ((n, e) :: rest')
        | None => None
        end
  end.

Fixpoint lookup (name : string) (st : store) : option entry :=
  match st with
  | [] => None
  | (n, e) :: rest => if String.eqb n name then Some e else lookup name rest
  end.

(** The entry called [name] gets the value [e]. *)
Fixpoint overwrite (name : string) (e : entry) (st : store) : store :=
  match st with
  | [] => []
  | (n, e') :: rest =>
      if String.eqb n name then (n, e) :: rest
      else (n, e') :: overwrite name e rest
  end.

(** A new entry, listed before the first name that is greater. *)
Fixpoint insert (name : string) (e : entry) (st : store) : store :=
  match st with
  | [] => [(name, e)]
  | (n, e') :: rest =>
      if String.ltb name n then (name, e) :: (n, e') :: rest
      else (n, e') :: insert name e rest
  end.

(** Writing a whole file (flag [w]): an existing regular file of that
    name is replaced, a directory of that name makes the write fail,
    and a new file is created otherwise. *)
Definition writeFile (name : string) (content : buffer) (st : store)
  : option store :=
  match lookup name st with
  | Some Directory => None
  | Some (RegularFile _) => Some (overwrite name (RegularFile content) st)
  | None => Some (insert name (RegularFile content) st)
  end.

(** [fs.createReadStream(path)] hands the file over in chunks of
    [highWaterMark] bytes (64 KiB), the last one holding what is left;
    an empty file ends the stream without a chunk. *)
Definition highWaterMark : nat := N.to_nat 65536.

Fixpoint chunks (fuel : nat) (content : buffer) : list buffer :=
  match fuel with
  | O => []
  | S fuel' =>
      match content with
      | [] => []
      | _ :: _ =>
          firstn highWaterMark content
          :: chunks fuel' (skipn highWaterMark content)
      end
  end.

Definition createReadStream (content : buffer) : list buffer :=
  chunks (List.length content) content.

(** What the server did to the directory, in order. *)
Inductive op :=
| OpWrite (name : string)
| OpRead (name : string)
| OpUnlink (name : string) (ok : bool).

Definition is_removal_of (name : string) (o : op) : bool :=
  match o with
  | OpUnlink n true => String.eqb n name
  | _ => false
  end.

(** The successful removal of an entry. *)
Definition removed (p : string * entry) : op := OpUnlink (fst p) true.

(** Number of successful removals of [name] in a log. *)
Definition removals (name : string) (log : list op) : nat :=
  List.length (filter (is_removal_of name) log).

End Fs.

(** ** [cleanupUploads] (server.js, lines 19-30)

    [files.forEach] calls [unlinkSync] on each listed name in turn.
    [unlinkSync] throws when the removal fails; the only [try]/[catch]
    encloses the whole [forEach], so the first throw leaves the loop and
    the entries listed after it are not visited. *)

Inductive completion (A : Type) :=
| Normal (a : A)
| Throw (a : A).
Arguments Normal {A} a.
Arguments Throw {A} a.

Definition unlinkSync (name : string) (st : Fs.store) : completion Fs.store :=
  match Fs.unlink name st with
  | Some st' => Normal st'
  | None => Throw st
  end.

Fixpoint forEach_unlinkSync (files : list string) (st : Fs.store)
  (done : list Fs.op) : completion (Fs.store * list Fs.op) :=
  match files with
  | [] => Normal (st, done)
  | file :: files' =>
      match unlinkSync file st with
      | Normal st' =>
          forEach_unlinkSync files' st' (done ++ [Fs.OpUnlink file true])
      | Throw st' => Throw (st', done ++ [Fs.OpUnlink file false])
      end
  end.

(** The directory after the purge, and the removals the purge tried. *)
Definition cleanupUploads (st : Fs.store) : Fs.store * list Fs.op :=
  match forEach_unlinkSync (Fs.readdirSync st) st [] with
  | Normal r => r
  | Throw r => r              (* catch (err) { console.error(...) } *)
  end.

(** ** Plain JavaScript objects and JSON values *)

Module Js.

(** An object whose properties hold strings: the own properties in the
    order they were created. *)
Definition object := list (string * string).

(** An array index is the canonical decimal spelling of an integer
    below 2^32 - 1. *)
Definition arrayIndex (k : string) : option N :=
  match NilEmpty.uint_of_string k with
  | Some u =>
      let n := N.of_uint u in
      if String.eqb (string_of_Z (Z.of_N n)) k && (n <? 4294967295)%N
      then Some n else None
  | None => None
  end.

Fixpoint assign (o : object) (k v : string) : object :=
  match o with
  | [] => [(k, v)]
  | (k', v') :: rest =>
      if String.eqb k' k then (k', v) :: rest
      else (k', v') :: assign rest k v
  end.

(** [o[k] = v] on an object created by [{}].  The key [__proto__]
    reaches the accessor inherited from [Object.prototype], which
    ignores a value that is neither an object nor [null]; no own
    property is created. *)
Definition set (o : object) (k v : string) : object :=
  if String.eqb k "__proto__" then o else assign o k v.

Fixpoint insertIndex (n : N) (kv : string * string)
  (l : list (N * (string * string))) : list (N * (string * string)) :=
  match l with
  | [] => [(n, kv)]
  | (m, kv') :: rest =>
      if (n <? m)%N then (n, kv) :: l
      else (m, kv') :: insertIndex n kv rest
  end.

Fixpoint indexProps (o : object) : list (N * (string * string)) :=
  match o with
  | [] => []
  | (k, v) :: rest =>
      match arrayIndex k with
      | Some n => insertIndex n (k, v) (indexProps rest)
      | None => indexProps rest
      end
  end.

Definition namedProps (o : object) : object :=
  filter (fun kv => match arrayIndex (fst kv) with
                    | Some _ => false
                    | None => true
                    end) o.

(** [Object.entries(o)]: array indices in ascending numeric order
    first, then the other keys in creation order.  [JSON.stringify]
    and [Object.keys] enumerate in this order. *)
Definition entries (o : object) : list (string * string) :=
  map snd (indexProps o) ++ namedProps o.

Definition keys (o : object) : list string := map fst (entries o).

(** [o[k]] for an own property of [o]; [None] when [o] has no own
    property called [k]. *)
Fixpoint get (o : object) (k : string) : option string :=
  match o with
  | [] => None
  | (k', v) :: rest => if String.eqb k' k then Some v else get rest k
  end.

Inductive json :=
| JNum (z : Z)
| JStr (s : string)
| JArr (items : list json)
| JObj (fields : list (string * json)).

Definition json_of_object (o : object) : json :=
  JObj (map (fun kv => (fst kv, JStr (snd kv))) (entries o)).

End Js.

(** ** The CSV decoder

    The handler pipes the stored file into [csvParser({ skipLines: 0,
    strict: true, maxRows: MAX_ROWS })], the stream transformer of the
    [csv-parser] package.  The package is a dependency of the repository;
    what follows is its algorithm with every option the handler does not
    pass at its default ([separator] and [quote] as below, [escape] equal
    to [quote], [newline] the line feed and not customised, no [headers],
    identity [mapHeaders] and [mapValues], no [skipComments], [raw] off).
    The file stream writes the file to [_transform] chunk by chunk; the
    transformer keeps the unfinished line of a chunk in [_prev] and
    resumes it with the next chunk.  The per-row byte limit
    ([maxRowBytes], 2^53 - 1 by default) is never reached and is left
    out. *)

Module CsvParser.

(** The options object of the call.  The package reads [skipLines] and
    [strict]; it defines no option called [maxRows] (its only size
    limit is [maxRowBytes]), so that field is carried and never read. *)
Record options := {
  skipLines : nat;
  strict : bool;
  maxRows : Z
}.

Inductive event :=
| Data (row : Js.object)
| Error (message : string)
| End.

Record state := {
  escaped : bool;
  first : bool;
  lineNumber : nat;
  previousEnd : nat;
  quoted : bool;
  newline : byte;
  headers : list string
}.

Definition initial : state :=
  {| escaped := false; first := true; lineNumber := 0; previousEnd := 0;
     quoted := false; newline := nl; headers := [] |}.

(** [parseCell(buffer, start, end)].  The source compacts the cell in
    place ([buffer[y] = buffer[i]] with [y <= i]) and decodes
    [buffer[start..y)]; the loop only reads at indices it has not yet
    written, so collecting the copied bytes is the same thing. *)
Fixpoint parseCell_loop (fuel : nat) (b : buffer) (i end_ : nat)
  (out : buffer) : buffer :=
  match fuel with
  | O => out
  | S fuel' =>
      if (i <? end_)%nat then
        let i' :=
          if is_byte (byteAt b i) quote && (i + 1 <? end_)%nat
             && is_byte (byteAt b (i + 1)) quote
          then i + 1 else i in
        parseCell_loop fuel' b (i' + 1) end_ (out ++ [nth i' b "000"%byte])
      else out
  end.

Definition parseCell (b : buffer) (start end_ : nat) : string :=
  let stripped :=
    is_byte (byteAt b start) quote && is_byte (byteBefore b end_) quote in
  let start' := if stripped then start + 1 else start in
  let end' := if stripped then end_ - 1 else end_ in
  toString (parseCell_loop (end' - start') b start' end' []).

(** The cell-splitting loop of [parseLine]. *)
Fixpoint parseLine_loop (fuel : nat) (b : buffer) (i end_ : nat)
  (isQuoted : bool) (offset : nat) (cells : list string)
  : nat * list string :=
  match fuel with
  | O => (offset, cells)
  | S fuel' =>
      if (i <? end_)%nat then
        let isStartingQuote := negb isQuoted && is_byte (byteAt b i) quote in
        let isEndingQuote :=
          isQuoted && is_byte (byteAt b i) quote && (i + 1 <=? end_)%nat
          && is_byte (byteAt b (i + 1)) comma in
        let isEscape :=
          isQuoted && is_byte (byteAt b i) quote && (i + 1 <? end_)%nat
          && is_byte (byteAt b (i + 1)) quote in
        if isStartingQuote || isEndingQuote then
          parseLine_loop fuel' b (i + 1) end_ (negb isQuoted) offset cells
        else if isEscape then
          parseLine_loop fuel' b (i + 2) end_ isQuoted offset cells
        else if is_byte (byteAt b i) comma && negb isQuoted then
          parseLine_loop fuel' b (i + 1) end_ isQuoted (i + 1)
            (cells ++ [parseCell b offset i])
        else
          parseLine_loop fuel' b (i + 1) end_ isQuoted offset cells
      else (offset, cells)
  end.

(** What [parseLine] does after its loop: the cell after the last
    separator, and an empty cell when the line ends on a separator. *)
Definition lastCells (b : buffer) (end_ : nat) (p : nat * list string)
  : list string :=
  let '(offset, cells) := p in
  let cells1 :=
    if (offset <? end_)%nat then cells ++ [parseCell b offset end_]
    else cells in
  if is_byte (byteBefore b end_) comma then cells1 ++ [""] else cells1.

(** The cells of the line [buffer[start..end)], [end] being one past
    the line terminator. *)
Definition lineCells (b : buffer) (start end_ : nat) : list string :=
  let end1 := end_ - 1 in                             (* trim newline *)
  let end2 :=
    if negb (List.length b =? 0)%nat && is_byte (byteBefore b end1) cr
    then end1 - 1 else end1 in
  lastCells b end2 (parseLine_loop (end2 - start) b start end2 false start []).

(** The header names whose column is left out of the rows: a row is
    an object created by [{}], and releases of the package that guard
    it against prototype pollution skip these columns (older releases
    assign them like any other, where [__proto__] creates no own
    property). *)
Definition reserved (header : string) : bool :=
  String.eqb header "__proto__" || String.eqb header "constructor"
  || String.eqb header "prototype".

(** [writeRow(cells)]: one property per cell, named by the header of
    the same index, or [_index] where the header row is shorter. *)
Fixpoint writeRow_from (index : nat) (hs cells : list string)
  (o : Js.object) : Js.object :=
  match cells with
  | [] => o
  | cell :: cells' =>
      match hs with
      | header :: hs' =>
          writeRow_from (S index) hs' cells'
            (if reserved header then o else Js.set o header cell)
      | [] =>
          writeRow_from (S index) [] cells'
            (Js.set o ("_" ++ string_of_nat index) cell)
      end
  end.

Definition writeRow (hs cells : list string) : Js.object :=
  writeRow_from 0 hs cells [].

Definition rowLengthError : string := "Row length does not match headers".

(** [parseLine(buffer, start, end)]: the new state and what is emitted. *)
Definition parseLine (opts : options) (st : state) (b : buffer)
  (start end_ : nat) : state * list event :=
  let cells := lineCells b start end_ in
  let skip :=
    negb (skipLines opts =? 0)%nat && (lineNumber st <? skipLines opts)%nat in
  let st1 :=
    {| escaped := escaped st; first := first st;
       lineNumber := S (lineNumber st); previousEnd := previousEnd st;
       quoted := quoted st; newline := newline st;
       headers := headers st |} in
  if first st && negb skip then
    ({| escaped := escaped st1; first := false;
        lineNumber := lineNumber st1; previousEnd := previousEnd st1;
        quoted := quoted st1; newline := newline st1;
        headers := cells |}, [])
  else if negb skip && strict opts
          && negb (List.length cells =? List.length (headers st))%nat then
    (st1, [Error rowLengthError])
  else if negb skip then (st1, [Data (writeRow (headers st) cells)])
  else (st1, []).

Definition with_scan (st : state) (e q : bool) : state :=
  {| escaped := e; first := first st; lineNumber := lineNumber st;
     previousEnd := previousEnd st; quoted := q; newline := newline st;
     headers := headers st |}.

Definition with_newline (st : state) (c : byte) : state :=
  {| escaped := escaped st; first := first st; lineNumber := lineNumber st;
     previousEnd := previousEnd st; quoted := quoted st; newline := c;
     headers := headers st |}.

Definition with_previousEnd (st : state) (p : nat) : state :=
  {| escaped := escaped st; first := first st; lineNumber := lineNumber st;
     previousEnd := p; quoted := quoted st; newline := newline st;
     headers := headers st |}.

(** The byte loop of [_transform] over the buffer, from index [i];
    [start] is the index of the first byte of the chunk in the buffer
    (what precedes it is [_prev]). *)
Fixpoint transform_loop (opts : options) (start fuel : nat) (b : buffer)
  (i : nat) (st : state) (out : list event) : state * list event :=
  match fuel with
  | O => (st, out)
  | S fuel' =>
      let chr := byteAt b i in
      let nextChr := byteAt b (i + 1) in
      if negb (escaped st) && is_byte chr quote && is_byte nextChr quote
         && negb (i =? start)%nat then
        transform_loop opts start fuel' b (i + 1)
          (with_scan st true (quoted st)) out
      else if is_byte chr quote then
        let st' :=
          if escaped st then with_scan st false (quoted st)
          else with_scan st (escaped st) (negb (quoted st)) in
        transform_loop opts start fuel' b (i + 1) st' out
      else if negb (quoted st) then
        let st1 :=
          if first st then
            if is_byte chr nl then with_newline st nl
            else if is_byte chr cr then
              if negb (is_byte nextChr nl) then with_newline st cr else st
            else st
          else st in
        if is_byte chr (newline st1) then
          let '(st2, evs) := parseLine opts st1 b (previousEnd st1) (i + 1) in
          transform_loop opts start fuel' b (i + 1)
            (with_previousEnd st2 (i + 1)) (out ++ evs)
        else transform_loop opts start fuel' b (i + 1) st1 out
      else transform_loop opts start fuel' b (i + 1) st out
  end.

(** The transformer: [this.state] and [this._prev], the buffer that
    holds the unfinished line ([None] for [null]). *)
Record parser := {
  this_state : state;
  _prev : option buffer
}.

Definition created : parser := {| this_state := initial; _prev := None |}.

(** [_transform(data, enc, cb)]: the chunk is appended to [_prev] and
    scanned; afterwards [_prev] is unset when the buffer ended on a line
    terminator, it is the chunk when the unfinished line started in the
    chunk, and the whole buffer otherwise. *)
Definition _transform (opts : options) (p : parser) (data : buffer)
  : parser * list event :=
  let start :=
    match _prev p with
    | Some prev => List.length prev
    | None => 0
    end in
  let buf :=
    match _prev p with
    | Some prev => prev ++ data
    | None => data
    end in
  let bufferLength := List.length buf in
  let '(st, evs) :=
    transform_loop opts start (List.length data) buf start (this_state p)
      [] in
  if (previousEnd st =? bufferLength)%nat then
    ({| this_state := with_previousEnd st 0; _prev := None |}, evs)
  else if (bufferLength - previousEnd st <? List.length data)%nat then
    ({| this_state :=
          with_previousEnd st
            (previousEnd st - (bufferLength - List.length data));
        _prev := Some data |}, evs)
  else ({| this_state := st; _prev := Some buf |}, evs).

(** [_flush(cb)]: the bytes after the last line terminator, if any,
    are the last line. *)
Definition _flush (opts : options) (p : parser) : list event :=
  match _prev p with
  | None => []
  | Some prev =>
      if escaped (this_state p) then []
      else snd (parseLine opts (this_state p) prev
                  (previousEnd (this_state p)) (List.length prev + 1))
  end.

Definition is_error (e : event) : bool :=
  match e with
  | Error _ => true
  | _ => false
  end.

Definition is_data (e : event) : bool :=
  match e with
  | Data _ => true
  | _ => false
  end.

(** How many times [error] is emitted. *)
Definition errors (evs : list event) : nat :=
  List.length (filter is_error evs).

(** The rows among the events, in the order they are emitted. *)
Fixpoint rows (evs : list event) : list Js.object :=
  match evs with
  | [] => []
  | Data row :: evs' => row :: rows evs'
  | _ :: evs' => rows evs'
  end.

(** How many times [end] or [error] is emitted. *)
Definition answers (evs : list event) : nat :=
  List.length (filter (fun ev => negb (is_data ev)) evs).

(** The chunks of the source are written one after the other.  When
    the transformer emits [error] while a chunk is being written, the
    listener [pipe] has put on the destination unpipes the source: the
    chunk is scanned to its end and nothing more is written ([None]
    for a transformer that is left like this). *)
Fixpoint write (opts : options) (p : parser) (chunks : list buffer)
  (out : list event) : option parser * list event :=
  match chunks with
  | [] => (Some p, out)
  | data :: chunks' =>
      let '(p', evs) := _transform opts p data in
      if existsb is_error evs then (None, out ++ evs)
      else write opts p' chunks' (out ++ evs)
  end.

(** What a new transformer emits when a source of the given chunks is
    piped into it: when the source ends, the transformer is ended,
    flushes and emits [end]; an unpiped transformer is never ended. *)
Definition piped (opts : options) (chunks : list buffer) : list event :=
  match write opts created chunks [] with
  | (Some p, evs) => evs ++ _flush opts p ++ [End]
  | (None, evs) => evs
  end.

(** [fs.createReadStream(path).pipe(csvParser(opts))]: the events the
    transformer emits for a file that is read without fault. *)
Definition pipe (opts : options) (content : buffer) : list event :=
  piped opts (Fs.createReadStream content).

End CsvParser.

(** ** The server *)

Module Server.

Import Js.

(** *** What a request is made of *)

(** The multipart part of field [csvFile] as the upload middleware
    hands it on: [originalname] is the file name the client gave (its
    base name), [mimetype] the declared media type. *)
Record file := {
  originalname : string;
  mimetype : string;
  content : buffer
}.

(** What the run reads from its surroundings. *)
Record env := {
  uploadsDir : string;        (* path.join(__dirname, 'uploads') *)
  Date_now : Z;               (* Date.now() when the file is named *)
  startTime : Z;              (* new Date() before the stream is opened *)
  endTime : Z;                (* new Date() in the 'end' listener *)
  production : bool;          (* process.env.NODE_ENV === 'production' *)
  readFault : bool            (* the file stream emits 'error' *)
}.

Record response := {
  status : Z;
  body : json
}.

(** The uploads directory, the operations of the request (and of a
    purge it sets off) on it, the response the client received (if any)
    and the exit code once [process.exit] has been scheduled. *)
Record world := {
  uploads : Fs.store;
  log : list Fs.op;
  res : option response;
  exitCode : option Z
}.

(** [res.status(code).json(value)].  A response is sent once: on a
    response that was already sent the call throws
    ([ERR_HTTP_HEADERS_SENT]) and nothing more reaches the client. *)
Definition send (w : world) (code : Z) (value : json) : completion world :=
  match res w with
  | Some _ => Throw w
  | None =>
      Normal {| uploads := uploads w; log := log w;
                res := Some {| status := code; body := value |};
                exitCode := exitCode w |}
  end.

(** A middleware or route handler that ends by sending: what it throws
    is caught by the router, whose last handler finds the response
    already sent and only closes the connection. *)
Definition routed (c : completion world) : world :=
  match c with
  | Normal w => w
  | Throw w => w
  end.

(** [fs.unlink(path, (err) => { if (err) console.error(...) })] *)
Definition fs_unlink (w : world) (name : string) : world :=
  match Fs.unlink name (uploads w) with
  | Some st' =>
      {| uploads := st'; log := log w ++ [Fs.OpUnlink name true];
         res := res w; exitCode := exitCode w |}
  | None =>
      {| uploads := uploads w; log := log w ++ [Fs.OpUnlink name false];
         res := res w; exitCode := exitCode w |}
  end.

Definition logged (w : world) (o : Fs.op) : world :=
  {| uploads := uploads w; log := log w ++ [o];
     res := res w; exitCode := exitCode w |}.

(** *** The upload middleware (server.js, lines 36-56) *)

(** [storage.filename] *)
Definition filename (e : env) (f : file) : string :=
  string_of_Z (Date_now e) ++ "-" ++ originalname f.

Definition fileSize : Z := 10 * 1024 * 1024.

Definition fileFilter (f : file) : bool :=
  String.eqb (mimetype f) "text/csv" || endsWith (originalname f) ".csv".

(** *** The error middleware (server.js, lines 109-115) *)
Definition errorMiddleware (e : env) (w : world) (message : string) : world :=
  routed
    (send w 500
       (JObj [("error", JStr "Server encountered an unexpected error");
              ("message",
               JStr (if production e then "Please try again later"
                     else message))])).

(** *** The [uncaughtException] handler (server.js, lines 118-125) *)
Definition uncaughtException (w : world) : world :=
  {| uploads := fst (cleanupUploads (uploads w));
     log := log w ++ snd (cleanupUploads (uploads w));
     res := res w; exitCode := Some 1%Z |}.

(** *** The [/convert] handler (server.js, lines 59-106) *)

Definition MAX_ROWS : Z := 100000.

Definition parserOptions : CsvParser.options :=
  {| CsvParser.skipLines := 0;
     CsvParser.strict := true;
     CsvParser.maxRows := MAX_ROWS |}.

(** The variables the three listeners close over. *)
Record locals := {
  results : list object;
  rowCount : nat;
  out : world
}.

Definition on_data (data : object) (l : locals) : locals :=
  {| results := results l ++ [data];
     rowCount := S (rowCount l);
     out := out l |}.

Definition successBody (e : env) (results : list object) : json :=
  let processingTime := (endTime e - startTime e)%Z in
  JObj [("data", JArr (map json_of_object results));
        ("rowCount", JNum (Z.of_nat (List.length results)));
        ("processingTime", JStr (string_of_Z processingTime ++ "ms"))].

(** A listener that ends by sending: what [res.json] throws leaves the
    listener. *)
Definition answering (l : locals) (c : completion world)
  : completion locals :=
  match c with
  | Normal w =>
      Normal {| results := results l; rowCount := rowCount l; out := w |}
  | Throw w =>
      Throw {| results := results l; rowCount := rowCount l; out := w |}
  end.

Definition on_end (e : env) (name : string) (l : locals)
  : completion locals :=
  let w1 := fs_unlink (out l) name in
  answering l (send w1 200 (successBody e (results l))).

Definition failureBody : json :=
  JObj [("error", JStr "Failed to convert file")].

Definition on_error (name : string) (l : locals) : completion locals :=
  let w1 := fs_unlink (out l) name in
  answering l (send w1 500 failureBody).

Definition listener (e : env) (name : string) (l : locals)
  (ev : CsvParser.event) : completion locals :=
  match ev with
  | CsvParser.Data data => Normal (on_data data l)
  | CsvParser.End => on_end e name l
  | CsvParser.Error _ => on_error name l
  end.

(** The transformer emits [ev] and the listener of the handler runs.
    Nothing catches what the listener throws: it is an uncaught
    exception, and the handler of the process runs. *)
Definition emit (e : env) (name : string) (l : locals)
  (ev : CsvParser.event) : locals :=
  match listener e name l ev with
  | Normal l' => l'
  | Throw l' =>
      {| results := results l'; rowCount := rowCount l';
         out := uncaughtException (out l') |}
  end.

(** The listeners run on the events in the order they are emitted. *)
Definition listen (e : env) (name : string) (evs : list CsvParser.event)
  (w : world) : locals :=
  fold_left (emit e name) evs
    {| results := []; rowCount := 0; out := w |}.

(** The events that reach the listeners of the handler.  The first
    [end] or [error] is answered; at the next one [res.json] throws, and
    the exception leaves [emit] and the code of the transformer that
    called it ([_transform] in the middle of its chunk, or the tick
    that emits [end]), so that nothing is emitted after it.  [sent]
    says that the response has been sent. *)
Fixpoint delivered (sent : bool) (evs : list CsvParser.event)
  : list CsvParser.event :=
  match evs with
  | [] => []
  | CsvParser.Data row :: evs' => CsvParser.Data row :: delivered sent evs'
  | ev :: evs' => if sent then [ev] else ev :: delivered true evs'
  end.

Definition sent (w : world) : bool :=
  match res w with
  | Some _ => true
  | None => false
  end.

(** The stream part of the route handler (lines 64-105), [name] being
    the stored file of [req.file.path].  The [error] listener is
    registered on the stream [pipe] returns, which is the parser: a
    fault of the file stream itself has no listener and surfaces as an
    uncaught exception. *)
Definition decode (e : env) (name : string) (w : world) : world :=
  let w1 := logged w (Fs.OpRead name) in
  match (if readFault e then None else Fs.lookup name (uploads w1)) with
  | Some (Fs.RegularFile stored) =>
      out (listen e name
             (delivered (sent w1) (CsvParser.pipe parserOptions stored))
             w1)
  | _ => uncaughtException w1
  end.

Definition noFileBody : json := JObj [("error", JStr "No file uploaded")].

(** The route handler: [reqFile] is [req.file], [None] when it is
    undefined. *)
Definition handler (e : env) (reqFile : option string) (w : world) : world :=
  match reqFile with
  | None => routed (send w 400 noFileBody)
  | Some name => decode e name w
  end.

(** [POST /convert]: [upload.single('csvFile')], then the handler; an
    error of the upload middleware goes to the error middleware.
    [req] is [None] for a request without a file part and [Some f] for
    a request whose file part is the field [csvFile].  The upload
    middleware skips a part without a file name, and [req.file] stays
    undefined.  The filter is asked before anything is stored.  A part
    that outgrows [limits.fileSize] is cut off and what was stored of
    it is removed by the upload middleware before it reports the
    error. *)
Definition convert (e : env) (req : option file) (disk : Fs.store) : world :=
  let w := {| uploads := disk; log := []; res := None; exitCode := None |} in
  match req with
  | None => handler e None w
  | Some f =>
      if String.eqb (originalname f) "" then handler e None w
      else if fileFilter f then
        let name := filename e f in
        match Fs.writeFile name (content f) disk with
        | None =>
            errorMiddleware e w
              ("EISDIR: illegal operation on a directory, open '"
               ++ uploadsDir e ++ "/" ++ name ++ "'")
        | Some disk1 =>
            let w1 :=
              {| uploads := disk1; log := [Fs.OpWrite name];
                 res := None; exitCode := None |} in
            if (fileSize <? Z.of_nat (List.length (content f)))%Z then
              errorMiddleware e (fs_unlink w1 name) "File too large"
            else handler e (Some name) w1
        end
      else errorMiddleware e w "Only CSV files are allowed"
  end.

(** Start-up (server.js, line 33): the purge runs while the module is
    loaded, before [app.listen]. *)
Definition startup (disk : Fs.store) : Fs.store :=
  fst (cleanupUploads disk).

(** *** Termination signals (server.js, lines 134-150)

    [gracefulShutdown] purges the uploads and closes the server; the
    callback of [server.close] exits with code 0, the 10 s timer with
    code 1.  [closed] says that the server closed before the timer
    ran. *)
Definition gracefulShutdown (closed : bool) (w : world) : world :=
  {| uploads := fst (cleanupUploads (uploads w));
     log := log w ++ snd (cleanupUploads (uploads w));
     res := res w;
     exitCode := Some (if closed then 0 else 1)%Z |}.

(** Requests handled one after the other, each with its own
    surroundings: the uploads directory they leave. *)
Definition serve (disk : Fs.store) (reqs : list (env * option file))
  : Fs.store :=
  fold_left (fun d r => uploads (convert (fst r) (snd r) d)) reqs disk.

End Server.

(** ** The files and strings the statements speak about *)

Module Csv.

(** A cell written without quoting: no separator, no quote, no line
    break. *)
Definition plain (c : byte) : bool :=
  negb (Byte.eqb c comma || Byte.eqb c quote
        || Byte.eqb c nl || Byte.eqb c cr).

Definition row := list buffer.

Fixpoint joinCells (r : row) : buffer :=
  match r with
  | [] => []
  | c :: cs =>
      match cs with
      | [] => c
      | _ :: _ => c ++ comma :: joinCells cs
      end
  end.

(** The line terminator: a line feed, or a carriage return and a line
    feed. *)
Definition eol (crlf : bool) : buffer := if crlf then [cr; nl] else [nl].

Definition line (crlf : bool) (r : row) : buffer := joinCells r ++ eol crlf.

Definition lines (crlf : bool) (rows : list row) : buffer :=
  List.concat (map (line crlf) rows).

(** A header row and data rows, one line each, every line with its
    terminator. *)
Definition file (crlf : bool) (header : row) (rows : list row) : buffer :=
  lines crlf (header :: rows).

(** The same file without the terminator of its last line. *)
Definition unterminated (crlf : bool) (header : row) (rows : list row)
  : buffer :=
  lines crlf (removelast (header :: rows))
  ++ joinCells (last (header :: rows) []).

(** The bytes [c] are the table of [header] and [rows] written as a
    CSV file: one line per row, lines ended by line feeds or by carriage
    return and line feed, the last line with or without its
    terminator. *)
Definition encodes (c : buffer) (header : row) (rows : list row) : Prop :=
  exists crlf,
    c = file crlf header rows
    \/ (header <> [] /\ c = unterminated crlf header rows).

(** A byte that neither quotes nor breaks a line. *)
Definition inert (x : byte) : Prop :=
  Byte.eqb x quote = false /\ Byte.eqb x nl = false
  /\ Byte.eqb x cr = false.

Definition plainCells (r : row) : Prop :=
  Forall (fun c => forallb plain c = true) r.

(** A row of plain cells that is not a blank line: a blank line has no
    cell, so a lone empty cell cannot be written. *)
Definition wellFormed (r : row) : Prop :=
  plainCells r /\ r <> [[]].

Definition names (r : row) : list string := map toString r.

(** The object the decoder emits for a data row. *)
Definition rowObject (hs : list string) (r : row) : Js.object :=
  CsvParser.writeRow hs (names r).

Definition rowEvent (hs : list string) (r : row) : CsvParser.event :=
  CsvParser.Data (rowObject hs r).

(** An event that, when it is a row, is the object built on the header
    [hs] from as many cells as [hs] has names. *)
Definition builtOn (hs : list string) (ev : CsvParser.event) : Prop :=
  match ev with
  | CsvParser.Data row =>
      exists cells,
        List.length cells = List.length hs
        /\ row = CsvParser.writeRow hs cells
  | _ => True
  end.

(** What the events emitted so far have in common: no row is emitted
    before the header line is read, and every row emitted after it is
    built on the header. *)
Definition uniform (st : CsvParser.state) (evs : list CsvParser.event)
  : Prop :=
  if CsvParser.first st
  then Forall (fun ev => CsvParser.is_data ev = false) evs
  else Forall (builtOn (CsvParser.headers st)) evs.

(** The position of a line start: what precedes is nothing or ends a
    line (it is neither a carriage return nor a separator). *)
Definition lineStart (pre : buffer) : Prop :=
  is_byte (byteBefore pre (List.length pre)) cr = false
  /\ is_byte (byteBefore pre (List.length pre)) comma = false.

(** The decoder state between two lines of a file whose lines end in
    line feeds (with or without a carriage return) and hold no quote. *)
Definition lineState (f : bool) (ln pe : nat) (hs : list string)
  : CsvParser.state :=
  {| CsvParser.escaped := false; CsvParser.first := f;
     CsvParser.lineNumber := ln; CsvParser.previousEnd := pe;
     CsvParser.quoted := false; CsvParser.newline := nl;
     CsvParser.headers := hs |}.

(** The buffer [b] holds bytes of the file [c], from index [k] of the
    file on: the two agree on the first [n] indices of [b]. *)
Definition agree (c b : buffer) (k n : nat) : Prop :=
  forall j, j < n -> byteAt c (k + j) = byteAt b j.

(** What precedes index [p] of [c] is nothing or ends a line. *)
Definition edge (c : buffer) (p : nat) : Prop :=
  is_byte (byteBefore c p) cr = false
  /\ is_byte (byteBefore c p) comma = false.

(** Two runs of the byte loop past the header line, both about to read
    the same byte of the file: [st] is the state of the run over the
    whole file [c], at index [k + i], and [st'] the state of a run
    over a buffer [b] that holds the file from index [k] on, at index
    [i].  The two agree on everything but the offset of the line
    start; of [escaped] and [quoted] only the parity of the quotes
    read so far is shared, because the runs may pair the quotes of a
    chunk boundary differently. *)
Definition resumes (c b : buffer) (k i : nat) (st st' : CsvParser.state)
  : Prop :=
  CsvParser.first st = false /\ CsvParser.first st' = false
  /\ CsvParser.newline st = nl /\ CsvParser.newline st' = nl
  /\ CsvParser.headers st' = CsvParser.headers st
  /\ CsvParser.lineNumber st' = CsvParser.lineNumber st
  /\ CsvParser.previousEnd st = k + CsvParser.previousEnd st'
  /\ CsvParser.previousEnd st' <= i
  /\ edge c (CsvParser.previousEnd st)
  /\ xorb (CsvParser.escaped st) (CsvParser.quoted st)
     = xorb (CsvParser.escaped st') (CsvParser.quoted st')
  /\ (CsvParser.escaped st = true ->
      is_byte (byteAt c (k + i)) quote = true)
  /\ (CsvParser.escaped st' = true -> is_byte (byteAt b i) quote = true).

(** Between two chunks: the transformer [p] has read the first [n]
    bytes of the file [c] chunk by chunk, [st] is the state of the run
    that reads them in one go, and [_prev] holds the bytes of the file
    from the start of the unfinished line, or from before it. *)
Definition held (c : buffer) (n : nat) (st : CsvParser.state)
  (p : CsvParser.parser) : Prop :=
  exists (k : nat) (u : buffer),
    n = k + List.length u
    /\ agree c u k (List.length u)
    /\ resumes c u k (List.length u) st (CsvParser.this_state p)
    /\ ((CsvParser._prev p = None /\ u = [])
        \/ (CsvParser._prev p = Some u
            /\ CsvParser.previousEnd (CsvParser.this_state p)
               < List.length u)).

(** A cell as a file spells it: bare, or between quotes. *)
Inductive cell :=
| Bare (c : buffer)
| Quoted (c : buffer).

(** Inside quotes a quote is written twice. *)
Fixpoint escapeQuotes (c : buffer) : buffer :=
  match c with
  | [] => []
  | y :: c' =>
      if Byte.eqb y quote then quote :: quote :: escapeQuotes c'
      else y :: escapeQuotes c'
  end.

Definition spelling (x : cell) : buffer :=
  match x with
  | Bare c => c
  | Quoted c => quote :: escapeQuotes c ++ [quote]
  end.

(** What the cell holds. *)
Definition value (x : cell) : buffer :=
  match x with
  | Bare c => c
  | Quoted c => c
  end.

(** A bare cell holds no separator, quote or line break; a quoted
    cell holds any bytes. *)
Definition cellOk (x : cell) : bool :=
  match x with
  | Bare c => forallb plain c
  | Quoted _ => true
  end.

(** A row of such cells that is not a blank line. *)
Definition rowOk (r : list cell) : Prop :=
  forallb cellOk r = true /\ r <> [Bare []].

Definition spellings (r : list cell) : row := map spelling r.

Definition values (r : list cell) : list string :=
  map (fun x => toString (value x)) r.


(** The file is handed over in one chunk, or at least its header line,
    with its terminator, lies within the first chunk. *)
Definition firstRead (c : buffer) (header : row) : Prop :=
  List.length c <= Fs.highWaterMark
  \/ List.length (joinCells header) + 2 <= Fs.highWaterMark.

End Csv.

Module Upload.

(** An upload that gets to the decoder: the part has a file name, the
    filter accepts it, it is within the size limit, its storage name is
    not that of a directory, and the stored file is read without
    fault. *)
Definition decoded (e : Server.env) (f : Server.file) (disk : Fs.store)
  : Prop :=
  Server.originalname f <> ""
  /\ Server.fileFilter f = true
  /\ (Z.of_nat (List.length (Server.content f)) <= Server.fileSize)%Z
  /\ Fs.lookup (Server.filename e f) disk <> Some Fs.Directory
  /\ Server.readFault e = false.

(** The world in which the listeners start: the file is stored and the
    stream is open. *)
Definition listening (name : string) (disk1 : Fs.store) : Server.world :=
  {| Server.uploads := disk1;
     Server.log := [Fs.OpWrite name; Fs.OpRead name];
     Server.res := None;
     Server.exitCode := None |}.

(** The success response for the given row objects. *)
Definition ok (e : Server.env) (rs : list Js.object) : Server.response :=
  {| Server.status := 200; Server.body := Server.successBody e rs |}.

End Upload.

Definition is_digit (c : ascii) : bool :=
  let n := nat_of_ascii c in (48 <=? n)%nat && (n <=? 57)%nat.

Fixpoint all_digits (s : string) : bool :=
  match s with
  | EmptyString => true
  | String c s' => is_digit c && all_digits s'
  end.

(** A decimal integer: an optional minus sign and at least one digit. *)
Definition is_decimal_integer (s : string) : bool :=
  match s with
  | EmptyString => false
  | String c s' =>
      if Ascii.eqb c "-" then negb (String.eqb s' "") && all_digits s'
      else all_digits s
  end.

(** The canonical decimal spelling of a number: the key an array index
    is stored under. *)
Definition spelled (n : N) : string := string_of_Z (Z.of_N n).

Definition isIndex (k : string) : bool :=
  match Js.arrayIndex k with
  | Some _ => true
  | None => false
  end.

(** Header names that make distinct, insertion-ordered properties. *)
Definition ordinaryName (k : string) : Prop :=
  Js.arrayIndex k = None /\ CsvParser.reserved k = false.

(** ** Concrete requests *)

Module Sample.

Definition LF : string := String "010" EmptyString.

Definition env0 : Server.env :=
  {| Server.uploadsDir := "/srv/app/uploads";
     Server.Date_now := 1700000000000;
     Server.startTime := 1700000000005;
     Server.endTime := 1700000000017;
     Server.production := false;
     Server.readFault := false |}.

(** The same surroundings, but the file stream fails. *)
Definition faulty : Server.env :=
  {| Server.uploadsDir := "/srv/app/uploads";
     Server.Date_now := 1700000000000;
     Server.startTime := 1700000000005;
     Server.endTime := 1700000000017;
     Server.production := false;
     Server.readFault := true |}.

Definition upload (name type : string) (bytes : buffer) : Server.file :=
  {| Server.originalname := name;
     Server.mimetype := type;
     Server.content := bytes |}.

(** ["a,b\n1,2\n3,4\n"] *)
Definition table : buffer :=
  Buffer_from ("a,b" ++ LF ++ "1,2" ++ LF ++ "3,4" ++ LF).


(** ["a,b\n1,2\n3\n"]: the second data row is one cell short. *)
Definition shortRow : buffer :=
  Buffer_from ("a,b" ++ LF ++ "1,2" ++ LF ++ "3" ++ LF).

(** A header line ["a"] and 100,001 data lines ["1"]. *)
Definition manyRows : list Csv.row :=
  repeat [Buffer_from "1"] (N.to_nat 100001).

Definition tooLong : buffer := Csv.file false [Buffer_from "a"] manyRows.

Definition DQ : string := String "034" EmptyString.

(** [name,note] and one data line whose cells are written between
    quotes: the first holds a separator, the second two quotes (each
    written twice) and a line feed. *)
Definition quotedTable : buffer :=
  Buffer_from ("name,note" ++ LF
               ++ DQ ++ "Doe, Jane" ++ DQ ++ ","
               ++ DQ ++ "say " ++ DQ ++ DQ ++ "hi" ++ DQ ++ DQ ++ LF
               ++ "line 2" ++ DQ ++ LF).

(** 10 MiB and one byte. *)
Definition oversize : buffer := repeat "a"%byte (N.to_nat 10485761).

(** A column name of 65,535 bytes: with it as the only header, the
    carriage return that ends the header line is the last byte of the
    first chunk of the file. *)
Definition wideName : buffer := repeat "a"%byte (N.to_nat 65535).

(** The header line alone, ended by carriage return and line feed
    (65,537 bytes). *)
Definition wideHeader : buffer := Csv.file true [wideName] [].

(** The same header and the data lines ["1"] and ["2"] (65,543
    bytes). *)
Definition wideTable : buffer :=
  Csv.file true [wideName] [[Buffer_from "1"]; [Buffer_from "2"]].

(** An uploads directory holding a sub-directory and a file left
    behind by an earlier run. *)
Definition leftovers : Fs.store :=
  [("0000-archive", Fs.Directory);
   ("1690000000000-old.csv", Fs.RegularFile table)].

End Sample.

(** * Properties *)

(** ** Buffers *)

Lemma is_byte_Some (x c : byte) : is_byte (Some x) c = Byte.eqb x c.
Proof. reflexivity. Qed.

Lemma eqb_refl_byte (c : byte) : Byte.eqb c c = true.
Proof. now apply Byte.byte_dec_lb. Qed.

Lemma byteAt_app (pre suf : buffer) :
  byteAt (pre ++ suf) (List.length pre) = hd_error suf.
Proof.
  unfold byteAt. rewrite nth_error_app2 by lia.
  rewrite Nat.sub_diag. now destruct suf.
Qed.

Lemma byteAt_app_cons (pre : buffer) (c : byte) (suf : buffer) :
  byteAt (pre ++ c :: suf) (List.length pre) = Some c.
Proof. now rewrite byteAt_app. Qed.

Lemma byteBefore_snoc (pre : buffer) (c : byte) (suf : buffer) :
  byteBefore ((pre ++ [c]) ++ suf) (List.length (pre ++ [c])) = Some c.
Proof.
  rewrite length_app. simpl. rewrite Nat.add_1_r. simpl.
  rewrite <- app_assoc. simpl. rewrite nth_error_app2 by lia.
  now rewrite Nat.sub_diag.
Qed.

Lemma byteBefore_app (pre suf : buffer) :
  byteBefore (pre ++ suf) (List.length pre) = byteBefore pre (List.length pre).
Proof.
  destruct (List.length pre) as [|n] eqn:E; [reflexivity|].
  simpl. now rewrite nth_error_app1 by lia.
Qed.

Lemma plain_inv (c : byte) :
  Csv.plain c = true ->
  Byte.eqb c comma = false /\ Byte.eqb c quote = false
  /\ Byte.eqb c nl = false /\ Byte.eqb c cr = false.
Proof.
  unfold Csv.plain. rewrite negb_true_iff, !orb_false_iff. tauto.
Qed.

(** ** The decoder on plain lines *)

Module CsvParserFacts.

Import CsvParser.
Import Csv.

Lemma parseCell_loop_plain (c : buffer) :
  forall (pre rest out : buffer) (fuel : nat),
    forallb Csv.plain c = true ->
    List.length c <= fuel ->
    parseCell_loop fuel (pre ++ c ++ rest) (List.length pre)
      (List.length pre + List.length c) out = out ++ c.
Proof.
  induction c as [|x c IH]; intros pre rest out fuel Hp Hf.
  - rewrite app_nil_r. destruct fuel; simpl; [reflexivity|].
    replace (List.length pre + 0) with (List.length pre) by lia.
    now rewrite Nat.ltb_irrefl.
  - simpl in Hp. apply andb_true_iff in Hp as [Hx Hc].
    apply plain_inv in Hx as (_ & Hq & _ & _).
    destruct fuel as [|fuel]; [simpl in Hf; lia|].
    simpl in Hf. cbn [parseCell_loop].
    replace (List.length pre <? List.length pre + List.length (x :: c))%nat
      with true by (symmetry; apply Nat.ltb_lt; simpl; lia).
    change ((x :: c) ++ rest) with (x :: c ++ rest).
    rewrite byteAt_app_cons, is_byte_Some, Hq. cbn [andb].
    rewrite nth_middle.
    replace (pre ++ x :: c ++ rest) with ((pre ++ [x]) ++ c ++ rest)
      by (now rewrite <- app_assoc).
    replace (List.length pre + 1) with (List.length (pre ++ [x]))
      by (rewrite length_app; simpl; lia).
    replace (List.length pre + List.length (x :: c))
      with (List.length (pre ++ [x]) + List.length c)
      by (rewrite length_app; simpl; lia).
    rewrite IH by (assumption || lia).
    now rewrite <- app_assoc.
Qed.

(** A plain cell is decoded to itself, provided the byte at its start
    is not a quote (the cell may be empty, and then that byte is what
    follows it). *)
Lemma parseCell_plain (c pre rest : buffer) :
  forallb Csv.plain c = true ->
  is_byte (hd_error (c ++ rest)) quote = false ->
  parseCell (pre ++ c ++ rest) (List.length pre)
    (List.length pre + List.length c) = toString c.
Proof.
  intros Hp Hq. unfold parseCell.
  rewrite byteAt_app, Hq. cbn [andb].
  replace (List.length pre + List.length c - List.length pre)
    with (List.length c) by lia.
  now rewrite parseCell_loop_plain.
Qed.

Lemma parseLine_loop_at_end (fuel : nat) (b : buffer) (end_ : nat)
  (q : bool) (offset : nat) (cells : list string) :
  parseLine_loop fuel b end_ end_ q offset cells = (offset, cells).
Proof. destruct fuel; simpl; [|rewrite Nat.ltb_irrefl]; reflexivity. Qed.

(** Inside a plain cell the loop only advances. *)
Lemma parseLine_loop_scan (todo : buffer) :
  forall (b pre rest : buffer) (fuel end_ offset : nat)
         (acc : list string),
    b = pre ++ todo ++ rest ->
    forallb Csv.plain todo = true ->
    List.length todo <= fuel ->
    List.length pre + List.length todo <= end_ ->
    parseLine_loop fuel b (List.length pre) end_ false offset acc
    = parseLine_loop (fuel - List.length todo) b
        (List.length pre + List.length todo) end_ false offset acc.
Proof.
  induction todo as [|x todo IH]; intros b pre rest fuel end_ offset acc
    Hb Hp Hf He.
  - simpl. now rewrite Nat.sub_0_r, Nat.add_0_r.
  - simpl in Hp. apply andb_true_iff in Hp as [Hx Hp].
    apply plain_inv in Hx as (Hc & Hq & _ & _).
    destruct fuel as [|fuel]; [simpl in Hf; lia|].
    simpl in Hf, He. cbn [parseLine_loop].
    replace (List.length pre <? end_)%nat with true
      by (symmetry; apply Nat.ltb_lt; lia).
    assert (Hat : byteAt b (List.length pre) = Some x)
      by (subst b; apply byteAt_app_cons).
    rewrite Hat, !is_byte_Some, Hq, Hc. cbn [negb andb orb].
    assert (Hb' : b = (pre ++ [x]) ++ todo ++ rest)
      by (subst b; now rewrite <- app_assoc).
    replace (List.length pre + 1) with (List.length (pre ++ [x]))
      by (rewrite length_app; simpl; lia).
    rewrite (IH b (pre ++ [x]) rest fuel end_ offset acc Hb' Hp)
      by (try rewrite length_app; simpl; lia).
    simpl. f_equal. rewrite length_app. simpl. lia.
Qed.

Lemma hd_plain_not_quote (c rest : buffer) (x : byte) :
  forallb Csv.plain c = true ->
  Byte.eqb x quote = false ->
  is_byte (hd_error (c ++ x :: rest)) quote = false.
Proof.
  intros Hp Hx. destruct c as [|y c]; simpl; [assumption|].
  simpl in Hp. apply andb_true_iff in Hp as [Hy _].
  now apply plain_inv in Hy as (_ & Hq & _ & _).
Qed.

Lemma byteBefore_end (c pre rest : buffer) :
  c <> [] ->
  byteBefore (pre ++ c ++ rest) (List.length pre + List.length c)
  = Some (last c "000"%byte).
Proof.
  intros Hc.
  rewrite (app_removelast_last "000"%byte Hc) at 1 2.
  rewrite app_assoc, <- length_app. rewrite app_assoc.
  apply byteBefore_snoc.
Qed.

Lemma last_plain (c : buffer) :
  c <> [] -> forallb Csv.plain c = true ->
  Csv.plain (last c "000"%byte) = true.
Proof.
  intros Hc Hp. rewrite forallb_forall in Hp. apply Hp.
  rewrite (app_removelast_last "000"%byte Hc) at 2.
  apply in_or_app. right. now left.
Qed.

(** The loop and its epilogue on the cells of a plain row, from the
    start of cell [c]. *)
Lemma lastCells_cells (cs : Csv.row) :
  forall (c : buffer) (b pre rest : buffer) (fuel : nat)
         (acc : list string),
    b = pre ++ Csv.joinCells (c :: cs) ++ rest ->
    Forall (fun c => forallb Csv.plain c = true) (c :: cs) ->
    List.length (Csv.joinCells (c :: cs)) <= fuel ->
    (cs = [] -> c = [] ->
     byteBefore b (List.length pre) = Some comma) ->
    lastCells b (List.length pre + List.length (Csv.joinCells (c :: cs)))
      (parseLine_loop fuel b (List.length pre)
         (List.length pre + List.length (Csv.joinCells (c :: cs)))
         false (List.length pre) acc)
    = acc ++ map toString (c :: cs).
Proof.
  induction cs as [|c2 cs IH]; intros c b pre rest fuel acc Hb Hall Hf Hlast.
  - cbn [Csv.joinCells] in *. pose proof (Forall_inv Hall) as Hc.
    rewrite (parseLine_loop_scan c b pre rest fuel _ _ acc Hb Hc Hf)
      by lia.
    rewrite parseLine_loop_at_end. unfold lastCells.
    destruct c as [|x c'] eqn:Ec.
    + rewrite Nat.add_0_r, Nat.ltb_irrefl.
      rewrite (Hlast eq_refl eq_refl), is_byte_Some, eqb_refl_byte.
      reflexivity.
    + rewrite <- Ec in *.
      assert (Hne : c <> []) by (rewrite Ec; discriminate).
      replace (List.length pre <? List.length pre + List.length c)%nat
        with true
        by (symmetry; apply Nat.ltb_lt; rewrite Ec; simpl; lia).
      assert (Hbb : byteBefore b (List.length pre + List.length c)
                    = Some (last c "000"%byte))
        by (rewrite Hb; now apply byteBefore_end).
      rewrite Hbb, is_byte_Some.
      pose proof (last_plain c Hne Hc) as Hl.
      apply plain_inv in Hl as (Hl & _). rewrite Hl.
      assert (Hcell : parseCell b (List.length pre)
                        (List.length pre + List.length c) = toString c).
      { rewrite Hb. apply parseCell_plain; [assumption|].
        rewrite Ec. simpl. rewrite Ec in Hc. simpl in Hc.
        apply andb_true_iff in Hc as [Hx _].
        now apply plain_inv in Hx as (_ & Hq & _ & _). }
      now rewrite Hcell.
  - pose proof (Forall_inv Hall) as Hc.
    pose proof (Forall_inv_tail Hall) as Hrest.
    change (Csv.joinCells (c :: c2 :: cs))
      with (c ++ comma :: Csv.joinCells (c2 :: cs)) in *.
    set (J := Csv.joinCells (c2 :: cs)) in *.
    rewrite length_app in *. cbn [List.length] in *.
    assert (Hb1 : b = pre ++ c ++ (comma :: J) ++ rest)
      by (rewrite Hb; now rewrite <- !app_assoc).
    rewrite (parseLine_loop_scan c b pre _ fuel _ _ acc Hb1 Hc)
      by lia.
    destruct (fuel - List.length c) as [|fuel'] eqn:Ef; [lia|].
    cbn [parseLine_loop].
    replace (List.length pre + List.length c
             <? List.length pre + (List.length c + S (List.length J)))%nat
      with true by (symmetry; apply Nat.ltb_lt; lia).
    assert (Hb2 : b = (pre ++ c) ++ comma :: J ++ rest)
      by (rewrite Hb1; now rewrite <- !app_assoc).
    assert (Hat : byteAt b (List.length pre + List.length c) = Some comma)
      by (rewrite <- length_app, Hb2; apply byteAt_app_cons).
    rewrite Hat, !is_byte_Some.
    change (Byte.eqb comma quote) with false.
    change (Byte.eqb comma comma) with true.
    cbn [negb andb orb].
    assert (Hcell : parseCell b (List.length pre)
                      (List.length pre + List.length c) = toString c).
    { rewrite Hb1. apply parseCell_plain; [assumption|].
      now apply hd_plain_not_quote. }
    rewrite Hcell.
    assert (Hb3 : b = (pre ++ c ++ [comma]) ++ J ++ rest)
      by (rewrite Hb1; now rewrite <- !app_assoc).
    assert (Hlen : List.length (pre ++ c ++ [comma])
                   = List.length pre + List.length c + 1)
      by (rewrite !length_app; simpl; lia).
    replace (List.length pre + (List.length c + S (List.length J)))
      with (List.length (pre ++ c ++ [comma]) + List.length J) by lia.
    rewrite <- Hlen.
    unfold J. rewrite (IH c2 b (pre ++ c ++ [comma]) rest fuel'
                         (acc ++ [toString c]) Hb3 Hrest).
    + now rewrite <- app_assoc.
    + fold J. lia.
    + intros _ _. rewrite Hb3.
      replace (pre ++ c ++ [comma]) with ((pre ++ c) ++ [comma])
        by (now rewrite <- app_assoc).
      apply byteBefore_snoc.
Qed.

(** The bytes of a joined plain row are plain bytes and separators. *)
Lemma joinCells_bytes (r : Csv.row) :
  plainCells r ->
  forall x, In x (Csv.joinCells r) ->
    Byte.eqb x quote = false /\ Byte.eqb x nl = false
    /\ Byte.eqb x cr = false.
Proof.
  induction r as [|c cs IH]; intros Hall x Hin; [destruct Hin|].
  pose proof (Forall_inv Hall) as Hc.
  pose proof (Forall_inv_tail Hall) as Hcs.
  assert (Hplain : forall y, In y c ->
            Byte.eqb y quote = false /\ Byte.eqb y nl = false
            /\ Byte.eqb y cr = false).
  { intros y Hy. rewrite forallb_forall in Hc.
    apply Hc in Hy. apply plain_inv in Hy. tauto. }
  destruct cs as [|c2 cs]; [now apply Hplain|].
  change (Csv.joinCells (c :: c2 :: cs))
    with (c ++ comma :: Csv.joinCells (c2 :: cs)) in Hin.
  apply in_app_or in Hin as [Hin|[Hin|Hin]].
  - now apply Hplain.
  - subst x. repeat split; reflexivity.
  - now apply IH.
Qed.

Lemma lineStart_nil : lineStart [].
Proof. split; reflexivity. Qed.

Lemma lineStart_line (crlf : bool) (pre : buffer) (r : Csv.row) :
  lineStart (pre ++ Csv.line crlf r).
Proof.
  assert (H : exists pre', pre ++ Csv.line crlf r = pre' ++ [nl]).
  { unfold Csv.line, Csv.eol. destruct crlf.
    - exists (pre ++ Csv.joinCells r ++ [cr]). now rewrite <- !app_assoc.
    - exists (pre ++ Csv.joinCells r). now rewrite <- !app_assoc. }
  destruct H as [pre' ->]. unfold lineStart.
  pose proof (byteBefore_snoc pre' nl []) as H.
  rewrite app_nil_r in H. rewrite H. split; reflexivity.
Qed.

Lemma lineStart_lines (crlf : bool) (rows : list Csv.row) :
  forall pre, lineStart pre -> lineStart (pre ++ Csv.lines crlf rows).
Proof.
  unfold Csv.lines.
  induction rows as [|r rows IH]; intros pre Hpre; simpl.
  - now rewrite app_nil_r.
  - rewrite app_assoc. apply IH, lineStart_line.
Qed.

(** The loop and its epilogue on a plain line, once the end of the
    line is known. *)
Lemma lastCells_line (r : Csv.row) (b pre rest : buffer) :
  b = pre ++ Csv.joinCells r ++ rest ->
  Csv.wellFormed r ->
  lineStart pre ->
  lastCells b (List.length pre + List.length (Csv.joinCells r))
    (parseLine_loop (List.length (Csv.joinCells r)) b (List.length pre)
       (List.length pre + List.length (Csv.joinCells r)) false
       (List.length pre) [])
  = Csv.names r.
Proof.
  intros Hb [Hall Hne] [Hcr Hcomma].
  destruct r as [|c cs].
  - simpl. rewrite Nat.add_0_r, Nat.ltb_irrefl.
    rewrite Hb. simpl. now rewrite byteBefore_app, Hcomma.
  - apply (lastCells_cells cs c b pre rest); try assumption.
    + lia.
    + intros -> ->. now contradiction Hne.
Qed.

(** [lineCells] on a line of plain cells that a line feed, or the end
    of the file, follows. *)
Lemma lineCells_plain (r : Csv.row) (b pre rest : buffer) :
  b = pre ++ Csv.joinCells r ++ rest ->
  Csv.wellFormed r ->
  lineStart pre ->
  lineCells b (List.length pre)
    (List.length pre + List.length (Csv.joinCells r) + 1)
  = Csv.names r.
Proof.
  intros Hb Hwf Hstart. unfold lineCells.
  replace (List.length pre + List.length (Csv.joinCells r) + 1 - 1)
    with (List.length pre + List.length (Csv.joinCells r)) by lia.
  assert (Hnocr : is_byte (byteBefore b (List.length pre
                                         + List.length (Csv.joinCells r)))
                    cr = false).
  { destruct Hwf as [Hall _]. destruct Hstart as [Hcr _].
    set (J := Csv.joinCells r) in *.
    destruct J as [|x J'] eqn:EJ.
    - simpl. rewrite Nat.add_0_r, Hb. simpl.
      now rewrite byteBefore_app.
    - rewrite <- EJ in *.
      assert (HJ : J <> []) by (rewrite EJ; discriminate).
      rewrite Hb, byteBefore_end, is_byte_Some by assumption.
      apply (joinCells_bytes r Hall). fold J.
      rewrite (app_removelast_last "000"%byte HJ) at 2.
      apply in_or_app. right. now left. }
  rewrite Hnocr, andb_false_r.
  replace (List.length pre + List.length (Csv.joinCells r) - List.length pre)
    with (List.length (Csv.joinCells r)) by lia.
  now apply (lastCells_line r b pre rest).
Qed.

(** The same when a carriage return and a line feed end the line: the
    carriage return is trimmed. *)
Lemma lineCells_plain_cr (r : Csv.row) (b pre rest : buffer) :
  b = pre ++ Csv.joinCells r ++ cr :: rest ->
  Csv.wellFormed r ->
  lineStart pre ->
  lineCells b (List.length pre)
    (List.length pre + List.length (Csv.joinCells r) + 2)
  = Csv.names r.
Proof.
  intros Hb Hwf Hstart. unfold lineCells.
  replace (List.length pre + List.length (Csv.joinCells r) + 2 - 1)
    with (List.length ((pre ++ Csv.joinCells r) ++ [cr]))
    by (rewrite !length_app; simpl; lia).
  assert (Hb' : b = ((pre ++ Csv.joinCells r) ++ [cr]) ++ rest)
    by (rewrite Hb; now rewrite <- !app_assoc).
  assert (Hcr : byteBefore b (List.length ((pre ++ Csv.joinCells r) ++ [cr]))
                = Some cr)
    by (rewrite Hb'; apply byteBefore_snoc).
  rewrite Hcr, is_byte_Some.
  change (Byte.eqb cr cr) with true.
  replace (List.length b =? 0)%nat with false
    by (symmetry; apply Nat.eqb_neq; rewrite Hb, !length_app; simpl; lia).
  cbn [negb andb].
  replace (List.length ((pre ++ Csv.joinCells r) ++ [cr]) - 1)
    with (List.length pre + List.length (Csv.joinCells r))
    by (rewrite !length_app; simpl; lia).
  replace (List.length pre + List.length (Csv.joinCells r) - List.length pre)
    with (List.length (Csv.joinCells r)) by lia.
  now apply (lastCells_line r b pre (cr :: rest)).
Qed.

Lemma length_line (crlf : bool) (r : Csv.row) :
  List.length (Csv.line crlf r)
  = List.length (Csv.joinCells r) + (if crlf then 2 else 1).
Proof. unfold Csv.line. rewrite length_app. now destruct crlf. Qed.

(** [lineCells] on a whole line of a file. *)
Lemma lineCells_line (crlf : bool) (r : Csv.row) (b pre rest : buffer) :
  b = pre ++ Csv.line crlf r ++ rest ->
  Csv.wellFormed r ->
  lineStart pre ->
  lineCells b (List.length pre)
    (List.length pre + List.length (Csv.line crlf r))
  = Csv.names r.
Proof.
  intros Hb Hwf Hstart. rewrite length_line, Nat.add_assoc.
  unfold Csv.line, Csv.eol in Hb. destruct crlf.
  - apply (lineCells_plain_cr r b pre (nl :: rest)); try assumption.
    rewrite Hb. now rewrite <- !app_assoc.
  - apply (lineCells_plain r b pre (nl :: rest)); try assumption.
    rewrite Hb. now rewrite <- !app_assoc.
Qed.

(** *** The byte loop of [_transform] *)

Lemma transform_loop_scan (opts : options) (start : nat) (todo : buffer) :
  forall (b pre rest : buffer) (fuel : nat) (f : bool) (ln pe : nat)
         (hs : list string) (out : list event),
    b = pre ++ todo ++ rest ->
    (forall x, In x todo ->
       Byte.eqb x quote = false /\ Byte.eqb x nl = false
       /\ Byte.eqb x cr = false) ->
    List.length todo <= fuel ->
    transform_loop opts start fuel b (List.length pre) (lineState f ln pe hs) out
    = transform_loop opts start (fuel - List.length todo) b
        (List.length pre + List.length todo) (lineState f ln pe hs) out.
Proof.
  induction todo as [|x todo IH]; intros b pre rest fuel f ln pe hs out
    Hb Hbytes Hf.
  - simpl. now rewrite Nat.sub_0_r, Nat.add_0_r.
  - destruct (Hbytes x (or_introl eq_refl)) as (Hq & Hn & Hc).
    destruct fuel as [|fuel]; [simpl in Hf; lia|].
    simpl in Hf. cbn [transform_loop].
    assert (Hat : byteAt b (List.length pre) = Some x)
      by (subst b; apply byteAt_app_cons).
    rewrite Hat, !is_byte_Some, Hq.
    cbn [lineState escaped quoted first negb andb].
    rewrite Hn, Hc.
    assert (Hst : (if f then lineState f ln pe hs else lineState f ln pe hs)
                  = lineState f ln pe hs) by (now destruct f).
    rewrite Hst. cbn [lineState newline]. rewrite Hn.
    assert (Hb' : b = (pre ++ [x]) ++ todo ++ rest)
      by (subst b; now rewrite <- app_assoc).
    replace (List.length pre + 1) with (List.length (pre ++ [x]))
      by (rewrite length_app; simpl; lia).
    rewrite (IH b (pre ++ [x]) rest fuel f ln pe hs out Hb')
      by (try (intros; apply Hbytes; now right); lia).
    simpl. f_equal. rewrite length_app. simpl. lia.
Qed.

(** The loop reaches a line feed and calls [parseLine] on the line
    that started at [pe]. *)
Lemma transform_loop_to_nl (opts : options) (start : nat) (J : buffer)
  (b pre rest : buffer) (fuel : nat) (f : bool) (ln pe : nat)
  (hs : list string) (out : list event) :
  b = pre ++ J ++ nl :: rest ->
  (forall x, In x J -> inert x) ->
  List.length J + 1 <= fuel ->
  transform_loop opts start fuel b (List.length pre) (lineState f ln pe hs) out
  = transform_loop opts start (fuel - (List.length J + 1)) b
      (List.length pre + List.length J + 1)
      (with_previousEnd
         (fst (parseLine opts (lineState f ln pe hs) b pe
                 (List.length pre + List.length J + 1)))
         (List.length pre + List.length J + 1))
      (out ++ snd (parseLine opts (lineState f ln pe hs) b pe
                     (List.length pre + List.length J + 1))).
Proof.
  intros Hb Hall Hf.
  rewrite (transform_loop_scan opts start J b pre _ fuel f ln _ hs out Hb Hall)
    by lia.
  destruct (fuel - List.length J) as [|fuel'] eqn:Ef; [lia|].
  cbn [transform_loop].
  assert (Hat : byteAt b (List.length pre + List.length J) = Some nl).
  { rewrite <- length_app.
    replace b with ((pre ++ J) ++ nl :: rest)
      by (rewrite Hb; now rewrite <- !app_assoc).
    apply byteAt_app_cons. }
  rewrite Hat, !is_byte_Some.
  change (Byte.eqb nl quote) with false.
  change (Byte.eqb nl nl) with true.
  cbn [lineState escaped quoted first negb andb].
  assert (Hst : (if f
                 then with_newline (lineState f ln pe hs) nl
                 else lineState f ln pe hs)
                = lineState f ln pe hs) by (now destruct f).
  rewrite Hst. cbn [lineState newline previousEnd].
  change (Byte.eqb nl nl) with true. cbv iota.
  destruct (parseLine opts (lineState f ln pe hs) b pe
              (List.length pre + List.length J + 1))
    as [st2 evs] eqn:Ep.
  cbn [fst snd].
  now replace (fuel - (List.length J + 1)) with fuel' by lia.
Qed.

(** A carriage return right before a line feed is passed over: on the
    first line it does not change the line terminator. *)
Lemma transform_loop_cr (opts : options) (start : nat) (b pre rest : buffer)
  (fuel : nat) (f : bool) (ln pe : nat) (hs : list string)
  (out : list event) :
  b = pre ++ cr :: nl :: rest ->
  transform_loop opts start (S fuel) b (List.length pre) (lineState f ln pe hs) out
  = transform_loop opts start fuel b (List.length pre + 1)
      (lineState f ln pe hs) out.
Proof.
  intros Hb. cbn [transform_loop].
  assert (Hat : byteAt b (List.length pre) = Some cr)
    by (rewrite Hb; apply byteAt_app_cons).
  assert (Hnext : byteAt b (List.length pre + 1) = Some nl).
  { replace (List.length pre + 1) with (List.length (pre ++ [cr]))
      by (rewrite length_app; simpl; lia).
    replace b with ((pre ++ [cr]) ++ nl :: rest)
      by (rewrite Hb; now rewrite <- app_assoc).
    apply byteAt_app_cons. }
  rewrite Hat, Hnext, !is_byte_Some.
  change (Byte.eqb cr quote) with false.
  change (Byte.eqb cr nl) with false.
  change (Byte.eqb cr cr) with true.
  change (Byte.eqb nl nl) with true.
  cbn [lineState escaped quoted first negb andb].
  assert (Hst : (if f then lineState f ln pe hs else lineState f ln pe hs)
                = lineState f ln pe hs) by (now destruct f).
  rewrite Hst. cbn [lineState newline].
  change (Byte.eqb cr nl) with false. reflexivity.
Qed.

(** One whole line of a file. *)
Lemma transform_loop_line (opts : options) (start : nat) (crlf : bool) (r : Csv.row)
  (b pre rest : buffer) (fuel : nat) (f : bool) (ln : nat)
  (hs : list string) (out : list event) :
  b = pre ++ Csv.line crlf r ++ rest ->
  plainCells r ->
  List.length (Csv.line crlf r) <= fuel ->
  transform_loop opts start fuel b (List.length pre)
    (lineState f ln (List.length pre) hs) out
  = transform_loop opts start (fuel - List.length (Csv.line crlf r)) b
      (List.length pre + List.length (Csv.line crlf r))
      (with_previousEnd
         (fst (parseLine opts (lineState f ln (List.length pre) hs) b
                 (List.length pre)
                 (List.length pre + List.length (Csv.line crlf r))))
         (List.length pre + List.length (Csv.line crlf r)))
      (out ++ snd (parseLine opts (lineState f ln (List.length pre) hs) b
                     (List.length pre)
                     (List.length pre + List.length (Csv.line crlf r)))).
Proof.
  intros Hb Hall Hf. rewrite length_line in *.
  unfold Csv.line, Csv.eol in Hb.
  set (J := Csv.joinCells r) in *.
  pose proof (joinCells_bytes r Hall) as HJ. fold J in HJ.
  destruct crlf.
  - assert (Hb1 : b = pre ++ J ++ (cr :: nl :: rest))
      by (rewrite Hb; now rewrite <- !app_assoc).
    rewrite (transform_loop_scan opts start J b pre _ fuel f ln _ hs out Hb1 HJ)
      by lia.
    destruct (fuel - List.length J) as [|fuel1] eqn:Ef; [lia|].
    rewrite <- length_app.
    rewrite (transform_loop_cr opts start b (pre ++ J) rest)
      by (rewrite Hb1; now rewrite <- !app_assoc).
    replace (List.length (pre ++ J) + 1)
      with (List.length (pre ++ J ++ [cr]))
      by (rewrite !length_app; simpl; lia).
    rewrite (transform_loop_to_nl opts start [] b (pre ++ J ++ [cr]) rest);
      [ | rewrite Hb1; now rewrite <- !app_assoc | intros x [] | simpl; lia ].
    cbn [List.length].
    replace (List.length (pre ++ J ++ [cr]) + 0 + 1)
      with (List.length pre + (List.length J + 2))
      by (rewrite !length_app; simpl; lia).
    f_equal. lia.
  - rewrite (transform_loop_to_nl opts start J b pre rest);
      [ | rewrite Hb; now rewrite <- !app_assoc | assumption | lia ].
    now rewrite <- !Nat.add_assoc.
Qed.

Lemma joinCells_nonempty (r : Csv.row) :
  r <> [] -> r <> [[]] -> Csv.joinCells r <> [].
Proof.
  destruct r as [|c [|c2 cs]]; intros H1 H2; [congruence| |].
  - simpl. intros ->. now apply H2.
  - change (Csv.joinCells (c :: c2 :: cs))
      with (c ++ comma :: Csv.joinCells (c2 :: cs)).
    now destruct c.
Qed.

Section Strict.

(** The options of the handler, whatever [maxRows] holds. *)
Variable opts : options.
Hypothesis no_skip : skipLines opts = 0.
Hypothesis is_strict : strict opts = true.

Lemma parseLine_header (b : buffer) (ln pe start end_ : nat)
  (hs : list string) :
  parseLine opts (lineState true ln pe hs) b start end_
  = (lineState false (S ln) pe (lineCells b start end_), []).
Proof.
  unfold parseLine. rewrite no_skip. reflexivity.
Qed.

Lemma parseLine_row (b : buffer) (ln pe start end_ : nat)
  (hs : list string) :
  parseLine opts (lineState false ln pe hs) b start end_
  = (lineState false (S ln) pe hs,
     [if (List.length (lineCells b start end_) =? List.length hs)%nat
      then Data (writeRow hs (lineCells b start end_))
      else Error rowLengthError]).
Proof.
  unfold parseLine. rewrite no_skip, is_strict. cbn.
  now destruct (List.length (lineCells b start end_)
                =? List.length hs)%nat.
Qed.

Lemma transform_loop_header (start : nat) (crlf : bool) (r : Csv.row)
  (b pre rest : buffer) (fuel ln : nat) (hs : list string)
  (out : list event) :
  b = pre ++ Csv.line crlf r ++ rest ->
  Csv.wellFormed r ->
  lineStart pre ->
  List.length (Csv.line crlf r) <= fuel ->
  transform_loop opts start fuel b (List.length pre)
    (lineState true ln (List.length pre) hs) out
  = transform_loop opts start (fuel - List.length (Csv.line crlf r)) b
      (List.length (pre ++ Csv.line crlf r))
      (lineState false (S ln) (List.length (pre ++ Csv.line crlf r))
         (Csv.names r)) out.
Proof.
  intros Hb Hwf Hstart Hf.
  rewrite (transform_loop_line opts start crlf r b pre rest)
    by (tauto || apply Hwf).
  rewrite parseLine_header. cbn [fst snd].
  rewrite (lineCells_line crlf r b pre rest) by assumption.
  rewrite app_nil_r, length_app. reflexivity.
Qed.

Lemma transform_loop_row (start : nat) (crlf : bool) (r : Csv.row)
  (b pre rest : buffer) (fuel ln : nat) (hs : list string)
  (out : list event) :
  b = pre ++ Csv.line crlf r ++ rest ->
  Csv.wellFormed r ->
  lineStart pre ->
  List.length (Csv.line crlf r) <= fuel ->
  transform_loop opts start fuel b (List.length pre)
    (lineState false ln (List.length pre) hs) out
  = transform_loop opts start (fuel - List.length (Csv.line crlf r)) b
      (List.length (pre ++ Csv.line crlf r))
      (lineState false (S ln) (List.length (pre ++ Csv.line crlf r)) hs)
      (out ++ [if (List.length r =? List.length hs)%nat
               then Data (writeRow hs (Csv.names r))
               else Error rowLengthError]).
Proof.
  intros Hb Hwf Hstart Hf.
  rewrite (transform_loop_line opts start crlf r b pre rest)
    by (tauto || apply Hwf).
  rewrite parseLine_row. cbn [fst snd].
  rewrite (lineCells_line crlf r b pre rest) by assumption.
  rewrite length_app. unfold Csv.names at 1. now rewrite length_map.
Qed.

(** Data rows that all have the header's length. *)
Lemma transform_loop_rows (start : nat) (crlf : bool) (rows : list Csv.row) :
  forall (b pre rest : buffer) (fuel ln : nat) (hs : list string)
         (out : list event),
    b = pre ++ Csv.lines crlf rows ++ rest ->
    Forall Csv.wellFormed rows ->
    Forall (fun r => List.length r = List.length hs) rows ->
    lineStart pre ->
    List.length (Csv.lines crlf rows) <= fuel ->
    transform_loop opts start fuel b (List.length pre)
      (lineState false ln (List.length pre) hs) out
    = transform_loop opts start (fuel - List.length (Csv.lines crlf rows)) b
        (List.length (pre ++ Csv.lines crlf rows))
        (lineState false (ln + List.length rows)
           (List.length (pre ++ Csv.lines crlf rows)) hs)
        (out ++ map (rowEvent hs) rows).
Proof.
  unfold Csv.lines.
  induction rows as [|r rows IH]; intros b pre rest fuel ln hs out
    Hb Hwf Hlen Hstart Hf.
  - simpl. now rewrite Nat.sub_0_r, !app_nil_r, Nat.add_0_r.
  - cbn [map List.concat] in *. rewrite length_app in Hf.
    pose proof (Forall_inv Hwf) as Hr.
    pose proof (Forall_inv_tail Hwf) as Hrows.
    pose proof (Forall_inv Hlen) as Hlr.
    pose proof (Forall_inv_tail Hlen) as Hlrows.
    rewrite (transform_loop_row start crlf r b pre
               (List.concat (map (Csv.line crlf) rows) ++ rest))
      by (try assumption; try lia; rewrite Hb; now rewrite <- !app_assoc).
    rewrite Hlr, Nat.eqb_refl.
    rewrite (IH b (pre ++ Csv.line crlf r) rest); try assumption.
    + rewrite <- !app_assoc, length_app. cbn [List.length map].
      replace (S ln + List.length rows) with (ln + S (List.length rows))
        by lia.
      f_equal. rewrite length_app. lia.
    + rewrite Hb. now rewrite <- !app_assoc.
    + apply lineStart_line.
    + lia.
Qed.

Lemma no_error_rows (hs : list string) (rows : list Csv.row) :
  existsb is_error (map (rowEvent hs) rows) = false.
Proof. induction rows; simpl; auto. Qed.

Lemma file_nonempty (crlf : bool) (header : Csv.row) (rows : list Csv.row) :
  Csv.file crlf header rows <> [].
Proof.
  unfold Csv.file, Csv.lines, Csv.line, Csv.eol. simpl. intros E.
  apply (f_equal (@List.length byte)) in E.
  rewrite !length_app in E. destruct crlf; simpl in E; lia.
Qed.

(** What [parseLine] emits does not depend on where the line is said
    to have started. *)
Lemma parseLine_previousEnd (st : state) (p : nat) (b : buffer)
  (start end_ : nat) :
  snd (parseLine opts (with_previousEnd st p) b start end_)
  = snd (parseLine opts st b start end_).
Proof.
  unfold parseLine. cbn [with_previousEnd first lineNumber headers].
  repeat match goal with
         | |- context [if ?c then _ else _] => destruct c
         end; reflexivity.
Qed.

(** A file that is handed over as one chunk: the loop runs over the
    file, and what follows the last line terminator is flushed. *)
Lemma piped_single (c : buffer) :
  piped opts [c]
  = let '(st, evs) :=
      transform_loop opts 0 (List.length c) c 0 initial [] in
    if existsb is_error evs then evs
    else evs
         ++ snd (if escaped st || (previousEnd st =? List.length c)%nat
                 then (st, [])
                 else parseLine opts st c (previousEnd st)
                        (List.length c + 1))
         ++ [End].
Proof.
  unfold piped, write, _transform, created. cbn [_prev this_state].
  destruct (transform_loop opts 0 (List.length c) c 0 initial [])
    as [st evs].
  destruct (previousEnd st =? List.length c)%nat eqn:Epe.
  - destruct (existsb is_error evs); [reflexivity|].
    cbn [app]. unfold _flush. cbn [_prev]. now rewrite orb_true_r.
  - rewrite orb_false_r.
    destruct (List.length c - previousEnd st <? List.length c)%nat;
      (destruct (existsb is_error evs); [reflexivity|]);
      cbn [app]; unfold _flush; cbn [_prev this_state with_previousEnd escaped];
      destruct (escaped st); try reflexivity.
    cbn [previousEnd]. rewrite Nat.sub_diag, Nat.sub_0_r.
    now rewrite parseLine_previousEnd.
Qed.

(** The events of a well-formed file: one [data] per row, then
    [end]. *)
Lemma piped_file (crlf : bool) (header : Csv.row) (rows : list Csv.row) :
  Forall Csv.wellFormed (header :: rows) ->
  Forall (fun r => List.length r = List.length header) rows ->
  piped opts [Csv.file crlf header rows]
  = map (rowEvent (Csv.names header)) rows ++ [End].
Proof.
  intros Hwf Hlen. rewrite piped_single.
  change initial with (lineState true 0 (List.length (@nil byte)) []).
  set (b := Csv.file crlf header rows).
  assert (Hb : b = [] ++ Csv.line crlf header ++ Csv.lines crlf rows ++ [])
    by (unfold b, Csv.file, Csv.lines; simpl; now rewrite app_nil_r).
  assert (Hlb : List.length b
                = List.length (Csv.line crlf header)
                  + List.length (Csv.lines crlf rows))
    by (rewrite Hb; simpl; now rewrite !length_app, Nat.add_0_r).
  change (transform_loop opts 0 (List.length b) b 0)
    with (transform_loop opts 0 (List.length b) b (List.length (@nil byte))).
  rewrite (transform_loop_header 0 crlf header b [] _ _ 0 [] [] Hb
             (Forall_inv Hwf) lineStart_nil) by lia.
  cbn [app].
  rewrite (transform_loop_rows 0 crlf rows b (Csv.line crlf header) []);
    try (apply (Forall_inv_tail Hwf));
    try apply lineStart_line with (pre := []);
    try lia.
  - replace (List.length b - List.length (Csv.line crlf header)
             - List.length (Csv.lines crlf rows)) with 0 by lia.
    cbn [transform_loop app].
    rewrite no_error_rows.
    cbn [lineState escaped previousEnd orb snd].
    replace (List.length (Csv.line crlf header ++ Csv.lines crlf rows)
             =? List.length b)%nat with true
      by (symmetry; apply Nat.eqb_eq; rewrite length_app; lia).
    reflexivity.
  - rewrite Hb. reflexivity.
  - unfold Csv.names. rewrite length_map. assumption.
Qed.

(** An empty file, and a file that is one line without a quote. *)
Lemma piped_empty : piped opts [] = [End].
Proof. reflexivity. Qed.

Lemma piped_header_nl (h : buffer) :
  (forall x, In x h -> inert x) -> piped opts [h ++ [nl]] = [End].
Proof.
  intros Hh. rewrite piped_single.
  change initial with (lineState true 0 0 []).
  rewrite (transform_loop_to_nl opts 0 h (h ++ [nl]) [] []);
    [|reflexivity|assumption|rewrite length_app; simpl; lia].
  rewrite parseLine_header. cbn [fst snd app List.length].
  replace (List.length (h ++ [nl]) - (List.length h + 1)) with 0
    by (rewrite length_app; simpl; lia).
  cbn [transform_loop existsb].
  cbn [with_previousEnd lineState escaped previousEnd orb].
  replace (0 + List.length h + 1 =? List.length (h ++ [nl]))%nat
    with true
    by (symmetry; apply Nat.eqb_eq; rewrite length_app; simpl; lia).
  reflexivity.
Qed.

Lemma piped_header_crlf (h : buffer) :
  (forall x, In x h -> inert x) -> piped opts [h ++ [cr; nl]] = [End].
Proof.
  intros Hh. rewrite piped_single.
  assert (Hlen : List.length (h ++ [cr; nl]) = S (S (List.length h)))
    by (rewrite length_app; simpl; lia).
  rewrite Hlen.
  change initial with (lineState true 0 0 []).
  rewrite (transform_loop_scan opts 0 h (h ++ [cr; nl]) [] [cr; nl]);
    [|reflexivity|assumption|lia].
  replace (S (S (List.length h)) - List.length h) with 2 by lia.
  cbn [List.length Nat.add].
  rewrite (transform_loop_cr opts 0 (h ++ [cr; nl]) h []) by reflexivity.
  replace (List.length h + 1) with (List.length (h ++ [cr]))
    by (rewrite length_app; simpl; lia).
  rewrite (transform_loop_to_nl opts 0 [] (h ++ [cr; nl]) (h ++ [cr]) []);
    [ | now rewrite <- app_assoc | intros x [] | simpl; lia ].
  rewrite parseLine_header. cbn [fst snd app List.length].
  change (1 - (0 + 1)) with 0.
  cbn [transform_loop existsb].
  cbn [with_previousEnd lineState escaped previousEnd orb].
  replace (List.length (h ++ [cr]) + 0 + 1 =? S (S (List.length h)))%nat
    with true
    by (symmetry; apply Nat.eqb_eq; rewrite !length_app; simpl; lia).
  reflexivity.
Qed.

Lemma piped_header_flush (h : buffer) :
  h <> [] -> (forall x, In x h -> inert x) -> piped opts [h] = [End].
Proof.
  intros Hne Hh. rewrite piped_single.
  change initial with (lineState true 0 0 []).
  change (transform_loop opts 0 (List.length h) h 0)
    with (transform_loop opts 0 (List.length h) h (List.length (@nil byte))).
  rewrite (transform_loop_scan opts 0 h h [] [] (List.length h) true 0 0
             [] []); [|now rewrite app_nil_r|assumption|lia].
  rewrite Nat.sub_diag. cbn [transform_loop existsb].
  cbn [lineState escaped previousEnd orb].
  replace (0 =? List.length h)%nat with false
    by (symmetry; apply Nat.eqb_neq; destruct h; simpl; congruence).
  now rewrite parseLine_header.
Qed.

(** The events of a well-formed file whose last line has no
    terminator: the last line is parsed when the stream is flushed. *)
Lemma piped_unterminated (crlf : bool) (header : Csv.row)
  (rows : list Csv.row) :
  Forall Csv.wellFormed (header :: rows) ->
  Forall (fun r => List.length r = List.length header) rows ->
  header <> [] ->
  piped opts [Csv.unterminated crlf header rows]
  = map (rowEvent (Csv.names header)) rows ++ [End].
Proof.
  intros Hwf Hlen Hne.
  pose proof (Forall_inv Hwf) as Hh.
  pose proof (Forall_inv_tail Hwf) as Hrows.
  assert (Hcase : rows = [] \/ rows <> [])
    by (destruct rows; [now left|right; discriminate]).
  destruct Hcase as [->|Hrs].
  - unfold Csv.unterminated. cbn [removelast last Csv.lines map List.concat
                                   app].
    apply piped_header_flush.
    + apply joinCells_nonempty; [assumption|apply Hh].
    + apply joinCells_bytes, Hh.
  - destruct (exists_last Hrs) as (rows' & lastr & Er). subst rows.
    assert (Hlast : Csv.wellFormed lastr)
      by (apply Forall_app in Hrows as [_ H]; apply (Forall_inv H)).
    assert (Hll : List.length lastr = List.length header)
      by (apply Forall_app in Hlen as [_ H]; apply (Forall_inv H)).
    assert (HJ : Csv.joinCells lastr <> []).
    { apply joinCells_nonempty; [|apply Hlast].
      intros ->. destruct header; [congruence|discriminate Hll]. }
    assert (Hrows' : Forall Csv.wellFormed rows'
                     /\ Forall (fun r => List.length r = List.length header)
                          rows').
    { apply Forall_app in Hrows as [H1 _].
      apply Forall_app in Hlen as [H2 _]. now split. }
    destruct Hrows' as [Hwf' Hlen'].
    set (b := Csv.unterminated crlf header (rows' ++ [lastr])).
    set (P := Csv.line crlf header ++ Csv.lines crlf rows').
    assert (Hb : b = P ++ Csv.joinCells lastr).
    { unfold b, Csv.unterminated, P.
      change (header :: rows' ++ [lastr])
        with ((header :: rows') ++ [lastr]).
      rewrite removelast_last, last_last.
      unfold Csv.lines. simpl. now rewrite <- app_assoc. }
    assert (Hlb : List.length b
                  = List.length (Csv.line crlf header)
                    + List.length (Csv.lines crlf rows')
                    + List.length (Csv.joinCells lastr))
      by (rewrite Hb; unfold P; rewrite !length_app; lia).
    assert (HP : lineStart P)
      by (apply lineStart_lines, lineStart_line with (pre := [])).
    rewrite piped_single. fold b.
    change initial with (lineState true 0 (List.length (@nil byte)) []).
      rewrite (transform_loop_header 0 crlf header b []
               (Csv.lines crlf rows' ++ Csv.joinCells lastr));
      [ | rewrite Hb; unfold P; simpl; now rewrite <- !app_assoc
        | assumption | apply lineStart_nil | lia ].
    cbn [app].
    rewrite (transform_loop_rows 0 crlf rows' b (Csv.line crlf header)
               (Csv.joinCells lastr));
      [ | rewrite Hb; unfold P; now rewrite <- !app_assoc
        | assumption
        | unfold Csv.names; now rewrite length_map
        | apply lineStart_line with (pre := []) | lia ].
    fold P. cbn [app].
    rewrite (transform_loop_scan opts 0 (Csv.joinCells lastr) b P []);
      [ | rewrite Hb; now rewrite app_nil_r
        | apply joinCells_bytes, Hlast | lia ].
    replace (List.length b - List.length (Csv.line crlf header)
             - List.length (Csv.lines crlf rows')
             - List.length (Csv.joinCells lastr)) with 0 by lia.
    cbn [transform_loop]. rewrite no_error_rows.
    cbn [lineState escaped previousEnd orb].
    replace (List.length P =? List.length b)%nat with false
      by (symmetry; apply Nat.eqb_neq; unfold P; rewrite length_app;
          destruct (Csv.joinCells lastr); [congruence|simpl in Hlb; lia]).
    rewrite parseLine_row. cbn [snd].
    replace (List.length b + 1)
      with (List.length P + List.length (Csv.joinCells lastr) + 1)
      by (unfold P; rewrite length_app; lia).
    rewrite (lineCells_plain lastr b P []);
      [ | rewrite Hb; now rewrite app_nil_r | assumption | assumption ].
    assert (Hn : List.length (Csv.names lastr)
                 = List.length (Csv.names header))
      by (unfold Csv.names; now rewrite !length_map).
    rewrite Hn, Nat.eqb_refl, map_app. cbn [map].
    now rewrite <- app_assoc.
Qed.

(** The events emitted so far are never taken back. *)
Lemma transform_loop_extends (start fuel : nat) :
  forall (b : buffer) (i : nat) (st : state) (out : list event),
    exists more, snd (transform_loop opts start fuel b i st out) = out ++ more.
Proof.
  induction fuel as [|fuel IH]; intros b i st out.
  - exists []. simpl. now rewrite app_nil_r.
  - cbn [transform_loop].
    repeat match goal with
           | |- context [if ?c then _ else _] => destruct c
           end; try apply IH.
    all: match goal with
         | |- context [parseLine ?o ?s ?b' ?p ?q] =>
             destruct (parseLine o s b' p q) as [st2 evs]
         end;
      destruct (IH b (i + 1) (with_previousEnd st2 (i + 1)) (out ++ evs))
        as [more Hm];
      exists (evs ++ more); now rewrite Hm, app_assoc.
Qed.

(** A row of another length than the header, after rows of the
    header's length: the row is reported as an error, whatever
    follows it in the file. *)
Lemma piped_mismatch (crlf : bool) (header : Csv.row) (rows : list Csv.row)
  (bad : Csv.row) (rest : buffer) :
  Forall Csv.wellFormed (header :: bad :: rows) ->
  Forall (fun r => List.length r = List.length header) rows ->
  List.length bad <> List.length header ->
  exists more,
    piped opts [Csv.file crlf header rows ++ Csv.line crlf bad ++ rest]
    = map (rowEvent (Csv.names header)) rows
      ++ Error rowLengthError :: more.
Proof.
  intros Hwf Hlen Hbad.
  pose proof (Forall_inv Hwf) as Hh.
  pose proof (Forall_inv (Forall_inv_tail Hwf)) as Hb.
  pose proof (Forall_inv_tail (Forall_inv_tail Hwf)) as Hrows.
  set (b := Csv.file crlf header rows ++ Csv.line crlf bad ++ rest).
  set (R := Csv.lines crlf rows).
  assert (Eb : b = [] ++ Csv.line crlf header ++ R
                   ++ Csv.line crlf bad ++ rest)
    by (unfold b, Csv.file, R, Csv.lines; simpl; now rewrite <- !app_assoc).
  assert (Hl : List.length b
               = List.length (Csv.line crlf header) + List.length R
                 + List.length (Csv.line crlf bad) + List.length rest)
    by (rewrite Eb; simpl; rewrite !length_app; lia).
  assert (Hpos : 0 < List.length (Csv.line crlf bad))
    by (rewrite length_line; destruct crlf; lia).
  assert (Hev : exists more,
             snd (transform_loop opts 0 (List.length b) b 0 initial [])
             = (map (rowEvent (Csv.names header)) rows
                ++ [Error rowLengthError]) ++ more).
  { change initial with (lineState true 0 (List.length (@nil byte)) []).
    change (transform_loop opts 0 (List.length b) b 0)
      with (transform_loop opts 0 (List.length b) b
              (List.length (@nil byte))).
    rewrite (transform_loop_header 0 crlf header b [] _ _ 0 [] [] Eb Hh
               lineStart_nil) by lia.
    cbn [app].
    rewrite (transform_loop_rows 0 crlf rows b (Csv.line crlf header)
               (Csv.line crlf bad ++ rest));
      [ | rewrite Eb; reflexivity | assumption
        | unfold Csv.names; now rewrite length_map
        | apply lineStart_line with (pre := []) | fold R; lia ].
    fold R. cbn [app].
    rewrite (transform_loop_row 0 crlf bad b (Csv.line crlf header ++ R)
               rest);
      [ | rewrite Eb; simpl; now rewrite <- !app_assoc | assumption
        | | lia ].
    - replace (List.length bad
               =? List.length (Csv.names header))%nat with false
        by (symmetry; apply Nat.eqb_neq; unfold Csv.names;
            now rewrite length_map).
      apply transform_loop_extends.
    - apply lineStart_lines, lineStart_line with (pre := []). }
  destruct Hev as [more Hev]. exists more. rewrite piped_single. fold b.
  destruct (transform_loop opts 0 (List.length b) b 0 initial [])
    as [st evs]. cbn [snd] in Hev.
  subst evs. rewrite !existsb_app. cbn [existsb is_error].
  rewrite orb_true_r. cbn [orb].
  now rewrite <- app_assoc.
Qed.

End Strict.

End CsvParserFacts.

(** ** The decoder on quoted cells *)

Module QuotedCells.

Import CsvParser.
Import Csv.
Import CsvParserFacts.

Lemma length_escapeQuotes (c : buffer) :
  List.length c <= List.length (escapeQuotes c).
Proof.
  induction c as [|y c IH]; [reflexivity|].
  cbn [escapeQuotes]. destruct (Byte.eqb y quote); simpl; lia.
Qed.

Lemma nth_next (p : buffer) (y z : byte) (r : buffer) :
  nth (List.length p + 1) (p ++ y :: z :: r) "000"%byte = z.
Proof.
  replace (List.length p + 1) with (List.length (p ++ [y]))
    by (rewrite length_app; simpl; lia).
  replace (p ++ y :: z :: r) with ((p ++ [y]) ++ z :: r)
    by (now rewrite <- app_assoc).
  apply nth_middle.
Qed.

Lemma byteAt_next (p : buffer) (y : byte) (r : buffer) :
  byteAt (p ++ y :: r) (List.length p + 1) = hd_error r.
Proof.
  replace (List.length p + 1) with (List.length (p ++ [y]))
    by (rewrite length_app; simpl; lia).
  replace (p ++ y :: r) with ((p ++ [y]) ++ r)
    by (now rewrite <- app_assoc).
  apply byteAt_app.
Qed.

(** The copying loop of [parseCell] undoes the doubling of quotes. *)
Lemma parseCell_loop_escaped (c : buffer) :
  forall (pre rest out : buffer) (fuel : nat),
    List.length (escapeQuotes c) <= fuel ->
    parseCell_loop fuel (pre ++ escapeQuotes c ++ rest) (List.length pre)
      (List.length pre + List.length (escapeQuotes c)) out = out ++ c.
Proof.
  induction c as [|x c IH]; intros pre rest out fuel Hf.
  - rewrite app_nil_r. destruct fuel; simpl; [reflexivity|].
    replace (List.length pre + 0) with (List.length pre) by lia.
    now rewrite Nat.ltb_irrefl.
  - cbn [escapeQuotes] in *. destruct (Byte.eqb x quote) eqn:Ex.
    + apply Byte.byte_dec_bl in Ex. subst x.
      destruct fuel as [|fuel]; [simpl in Hf; lia|].
      simpl in Hf. cbn [parseCell_loop].
      replace (List.length pre
               <? List.length pre
                  + List.length (quote :: quote :: escapeQuotes c))%nat
        with true by (symmetry; apply Nat.ltb_lt; simpl; lia).
      replace (List.length pre + 1
               <? List.length pre
                  + List.length (quote :: quote :: escapeQuotes c))%nat
        with true by (symmetry; apply Nat.ltb_lt; simpl; lia).
      change ((quote :: quote :: escapeQuotes c) ++ rest)
        with (quote :: quote :: escapeQuotes c ++ rest).
      rewrite byteAt_app_cons, byteAt_next. cbn [hd_error].
      rewrite !is_byte_Some, eqb_refl_byte. cbn [andb].
      rewrite nth_next.
      replace (pre ++ quote :: quote :: escapeQuotes c ++ rest)
        with ((pre ++ [quote; quote]) ++ escapeQuotes c ++ rest)
        by (now rewrite <- app_assoc).
      replace (List.length pre + 1 + 1)
        with (List.length (pre ++ [quote; quote]))
        by (rewrite length_app; simpl; lia).
      replace (List.length pre
               + List.length (quote :: quote :: escapeQuotes c))
        with (List.length (pre ++ [quote; quote])
              + List.length (escapeQuotes c))
        by (rewrite length_app; simpl; lia).
      rewrite IH by lia.
      now rewrite <- app_assoc.
    + destruct fuel as [|fuel]; [simpl in Hf; lia|].
      simpl in Hf. cbn [parseCell_loop].
      replace (List.length pre
               <? List.length pre + List.length (x :: escapeQuotes c))%nat
        with true by (symmetry; apply Nat.ltb_lt; simpl; lia).
      change ((x :: escapeQuotes c) ++ rest)
        with (x :: escapeQuotes c ++ rest).
      rewrite byteAt_app_cons, is_byte_Some, Ex. cbn [andb].
      rewrite nth_middle.
      replace (pre ++ x :: escapeQuotes c ++ rest)
        with ((pre ++ [x]) ++ escapeQuotes c ++ rest)
        by (now rewrite <- app_assoc).
      replace (List.length pre + 1) with (List.length (pre ++ [x]))
        by (rewrite length_app; simpl; lia).
      replace (List.length pre + List.length (x :: escapeQuotes c))
        with (List.length (pre ++ [x]) + List.length (escapeQuotes c))
        by (rewrite length_app; simpl; lia).
      rewrite IH by lia.
      now rewrite <- app_assoc.
Qed.

Lemma length_quoted (c : buffer) :
  List.length (spelling (Quoted c)) = List.length (escapeQuotes c) + 2.
Proof. simpl. rewrite length_app. simpl. lia. Qed.

(** A cell between quotes is decoded to what was written between
    them, every doubled quote being one quote. *)
Lemma parseCell_quoted (c pre rest : buffer) :
  parseCell (pre ++ spelling (Quoted c) ++ rest) (List.length pre)
    (List.length pre + List.length (spelling (Quoted c)))
  = toString c.
Proof.
  unfold parseCell. rewrite length_quoted. cbn [spelling].
  set (E := escapeQuotes c).
  assert (H1 : byteAt (pre ++ (quote :: E ++ [quote]) ++ rest)
                 (List.length pre) = Some quote)
    by apply byteAt_app_cons.
  assert (H2 : byteBefore (pre ++ (quote :: E ++ [quote]) ++ rest)
                 (List.length pre + (List.length E + 2))
               = Some quote).
  { replace (pre ++ (quote :: E ++ [quote]) ++ rest)
      with ((pre ++ quote :: E) ++ quote :: rest)
      by (rewrite <- !app_assoc; simpl; now rewrite <- app_assoc).
    replace (List.length pre + (List.length E + 2))
      with (S (List.length (pre ++ quote :: E)))
      by (rewrite !length_app; simpl; lia).
    cbn [byteBefore]. apply byteAt_app_cons. }
  rewrite H1, H2, !is_byte_Some, eqb_refl_byte. cbn [andb].
  replace (pre ++ (quote :: E ++ [quote]) ++ rest)
    with ((pre ++ [quote]) ++ E ++ quote :: rest)
    by (rewrite <- !app_assoc; simpl; now rewrite <- app_assoc).
  replace (List.length pre + 1) with (List.length (pre ++ [quote]))
    by (rewrite length_app; simpl; lia).
  replace (List.length pre + (List.length E + 2) - 1)
    with (List.length (pre ++ [quote]) + List.length E)
    by (rewrite !length_app; simpl; lia).
  replace (List.length (pre ++ [quote]) + List.length E
           - List.length (pre ++ [quote])) with (List.length E) by lia.
  unfold E. now rewrite parseCell_loop_escaped.
Qed.

(** Between quotes the cell loop only advances: separators are not
    looked at, and a doubled quote is passed over in one step. *)
Lemma parseLine_loop_scan_escaped (c : buffer) :
  forall (b pre rest : buffer) (fuel end_ offset : nat)
         (acc : list string),
    b = pre ++ escapeQuotes c ++ rest ->
    List.length c <= fuel ->
    List.length pre + List.length (escapeQuotes c) < end_ ->
    parseLine_loop fuel b (List.length pre) end_ true offset acc
    = parseLine_loop (fuel - List.length c) b
        (List.length pre + List.length (escapeQuotes c)) end_ true
        offset acc.
Proof.
  induction c as [|x c IH]; intros b pre rest fuel end_ offset acc
    Hb Hf He.
  - simpl. now rewrite Nat.sub_0_r, Nat.add_0_r.
  - cbn [escapeQuotes] in *.
    destruct fuel as [|fuel]; [simpl in Hf; lia|].
    simpl in Hf. cbn [parseLine_loop].
    destruct (Byte.eqb x quote) eqn:Ex.
    + apply Byte.byte_dec_bl in Ex. subst x. simpl in He.
      replace (List.length pre <? end_)%nat with true
        by (symmetry; apply Nat.ltb_lt; lia).
      replace (List.length pre + 1 <? end_)%nat with true
        by (symmetry; apply Nat.ltb_lt; lia).
      assert (Hat : byteAt b (List.length pre) = Some quote)
        by (subst b; apply byteAt_app_cons).
      assert (Hnext : byteAt b (List.length pre + 1) = Some quote)
        by (subst b; apply byteAt_next).
      rewrite Hat, Hnext, !is_byte_Some, !eqb_refl_byte.
      change (Byte.eqb quote comma) with false.
      cbn [negb andb orb]. rewrite andb_false_r. cbn [andb orb].
      assert (Hb' : b = (pre ++ [quote; quote]) ++ escapeQuotes c ++ rest)
        by (subst b; now rewrite <- app_assoc).
      replace (List.length pre + 2)
        with (List.length (pre ++ [quote; quote]))
        by (rewrite length_app; simpl; lia).
      rewrite (IH b (pre ++ [quote; quote]) rest fuel end_ offset acc Hb')
        by (try rewrite length_app; simpl; lia).
      simpl. f_equal. rewrite length_app. simpl. lia.
    + simpl in He.
      replace (List.length pre <? end_)%nat with true
        by (symmetry; apply Nat.ltb_lt; lia).
      assert (Hat : byteAt b (List.length pre) = Some x)
        by (subst b; apply byteAt_app_cons).
      rewrite Hat, !is_byte_Some, Ex. cbn [negb andb orb].
      rewrite andb_false_r. cbn [andb orb].
      assert (Hb' : b = (pre ++ [x]) ++ escapeQuotes c ++ rest)
        by (subst b; now rewrite <- app_assoc).
      replace (List.length pre + 1) with (List.length (pre ++ [x]))
        by (rewrite length_app; simpl; lia).
      rewrite (IH b (pre ++ [x]) rest fuel end_ offset acc Hb')
        by (try rewrite length_app; simpl; lia).
      simpl. f_equal. rewrite length_app. simpl. lia.
Qed.

(** Single steps of the cell loop. *)

Lemma loop_open (b p r : buffer) (fuel end_ off : nat)
  (acc : list string) :
  b = p ++ quote :: r ->
  List.length p < end_ ->
  1 <= fuel ->
  parseLine_loop fuel b (List.length p) end_ false off acc
  = parseLine_loop (fuel - 1) b (List.length (p ++ [quote])) end_ true
      off acc.
Proof.
  intros Hb He Hf. destruct fuel as [|fuel]; [lia|].
  cbn [parseLine_loop].
  replace (List.length p <? end_)%nat with true
    by (symmetry; apply Nat.ltb_lt; lia).
  assert (Hat : byteAt b (List.length p) = Some quote)
    by (subst b; apply byteAt_app_cons).
  rewrite Hat, !is_byte_Some, eqb_refl_byte. cbn [negb andb orb].
  rewrite length_app. simpl. now rewrite Nat.sub_0_r.
Qed.

Lemma loop_close_comma (b p r : buffer) (fuel end_ off : nat)
  (acc : list string) :
  b = p ++ quote :: comma :: r ->
  List.length p < end_ ->
  1 <= fuel ->
  parseLine_loop fuel b (List.length p) end_ true off acc
  = parseLine_loop (fuel - 1) b (List.length (p ++ [quote])) end_ false
      off acc.
Proof.
  intros Hb He Hf. destruct fuel as [|fuel]; [lia|].
  cbn [parseLine_loop].
  replace (List.length p <? end_)%nat with true
    by (symmetry; apply Nat.ltb_lt; lia).
  assert (Hat : byteAt b (List.length p) = Some quote)
    by (subst b; apply byteAt_app_cons).
  assert (Hnext : byteAt b (List.length p + 1) = Some comma)
    by (subst b; apply byteAt_next).
  rewrite Hat, Hnext, !is_byte_Some, !eqb_refl_byte.
  replace (List.length p + 1 <=? end_)%nat with true
    by (symmetry; apply Nat.leb_le; lia).
  cbn [negb andb orb].
  rewrite length_app. simpl. now rewrite Nat.sub_0_r.
Qed.

Lemma loop_close_last (b p r : buffer) (fuel off : nat)
  (acc : list string) :
  b = p ++ quote :: r ->
  is_byte (hd_error r) comma = false ->
  1 <= fuel ->
  parseLine_loop fuel b (List.length p) (List.length p + 1) true off acc
  = (off, acc).
Proof.
  intros Hb Hr Hf. destruct fuel as [|fuel]; [lia|].
  cbn [parseLine_loop].
  replace (List.length p <? List.length p + 1)%nat with true
    by (symmetry; apply Nat.ltb_lt; lia).
  assert (Hat : byteAt b (List.length p) = Some quote)
    by (subst b; apply byteAt_app_cons).
  assert (Hnext : byteAt b (List.length p + 1) = hd_error r)
    by (subst b; apply byteAt_next).
  rewrite Hat, Hnext, Hr, !is_byte_Some, !eqb_refl_byte.
  rewrite Nat.ltb_irrefl.
  change (Byte.eqb quote comma) with false.
  cbn [negb andb orb]. rewrite !andb_false_r. cbn [negb andb orb].
  apply parseLine_loop_at_end.
Qed.

Lemma loop_comma (b p r : buffer) (fuel end_ off : nat)
  (acc : list string) :
  b = p ++ comma :: r ->
  List.length p < end_ ->
  1 <= fuel ->
  parseLine_loop fuel b (List.length p) end_ false off acc
  = parseLine_loop (fuel - 1) b (List.length (p ++ [comma])) end_ false
      (List.length (p ++ [comma]))
      (acc ++ [parseCell b off (List.length p)]).
Proof.
  intros Hb He Hf. destruct fuel as [|fuel]; [lia|].
  cbn [parseLine_loop].
  replace (List.length p <? end_)%nat with true
    by (symmetry; apply Nat.ltb_lt; lia).
  assert (Hat : byteAt b (List.length p) = Some comma)
    by (subst b; apply byteAt_app_cons).
  rewrite Hat, !is_byte_Some.
  change (Byte.eqb comma quote) with false.
  change (Byte.eqb comma comma) with true.
  cbn [negb andb orb].
  rewrite length_app. simpl. now rewrite Nat.sub_0_r.
Qed.


(** The loop and its epilogue on the cells of a row, from the start
    of cell [x]. *)
Lemma lastCells_qcells (xs : list cell) :
  forall (x : cell) (b pre rest : buffer) (fuel : nat)
         (acc : list string),
    b = pre ++ joinCells (spellings (x :: xs)) ++ rest ->
    forallb cellOk (x :: xs) = true ->
    List.length (joinCells (spellings (x :: xs))) <= fuel ->
    (xs = [] -> x = Bare [] ->
     byteBefore b (List.length pre) = Some comma) ->
    is_byte (hd_error rest) comma = false ->
    lastCells b
      (List.length pre + List.length (joinCells (spellings (x :: xs))))
      (parseLine_loop fuel b (List.length pre)
         (List.length pre + List.length (joinCells (spellings (x :: xs))))
         false (List.length pre) acc)
    = acc ++ values (x :: xs).
Proof.
  induction xs as [|x2 xs IH]; intros x b pre rest fuel acc
    Hb Hok Hf Hlast Hrest.
  - change (joinCells (spellings [x])) with (spelling x) in *.
    cbn [forallb] in Hok. rewrite andb_true_r in Hok.
    destruct x as [c|c].
    + cbn [spelling cellOk] in *.
      apply (lastCells_cells [] c b pre rest fuel acc); try assumption.
      * now repeat constructor.
      * intros _ ->. now apply Hlast.
    + clear Hok. rewrite length_quoted in *.
      set (E := escapeQuotes c) in *.
      pose proof (length_escapeQuotes c) as HE. fold E in HE.
      assert (Hb1 : b = pre ++ quote :: E ++ quote :: rest).
      { rewrite Hb. cbn [spelling]. fold E. simpl.
        now rewrite <- app_assoc. }
      rewrite (loop_open b pre (E ++ quote :: rest)) by (assumption || lia).
      assert (Hb2 : b = (pre ++ [quote]) ++ E ++ quote :: rest)
        by (rewrite Hb1; now rewrite <- app_assoc).
      unfold E at 1.
      rewrite (parseLine_loop_scan_escaped c b (pre ++ [quote])
                 (quote :: rest))
        by (try assumption; fold E; rewrite ?length_app; simpl; lia).
      fold E.
      assert (Hb3 : b = (pre ++ quote :: E) ++ quote :: rest)
        by (rewrite Hb1; now rewrite <- app_assoc).
      assert (Hl3 : List.length (pre ++ quote :: E)
                    = List.length pre + List.length E + 1)
        by (rewrite length_app; simpl; lia).
      replace (List.length (pre ++ [quote]) + List.length E)
        with (List.length (pre ++ quote :: E))
        by (rewrite !length_app; simpl; lia).
      replace (List.length pre + (List.length E + 2))
        with (List.length (pre ++ quote :: E) + 1) by lia.
      rewrite (loop_close_last b (pre ++ quote :: E) rest)
        by (assumption || lia).
      unfold lastCells.
      replace (List.length pre <? List.length (pre ++ quote :: E) + 1)%nat
        with true by (symmetry; apply Nat.ltb_lt; lia).
      assert (Hcell : parseCell b (List.length pre)
                        (List.length (pre ++ quote :: E) + 1)
                      = toString c).
      { replace (List.length (pre ++ quote :: E) + 1)
          with (List.length pre + List.length (spelling (Quoted c)))
          by (rewrite length_quoted; fold E; lia).
        rewrite Hb. now apply parseCell_quoted. }
      assert (Hbb : byteBefore b (List.length (pre ++ quote :: E) + 1)
                    = Some quote).
      { replace (List.length (pre ++ quote :: E) + 1)
          with (List.length ((pre ++ quote :: E) ++ [quote]))
          by (rewrite (length_app (pre ++ quote :: E)); simpl; lia).
        replace b with (((pre ++ quote :: E) ++ [quote]) ++ rest)
          by (rewrite Hb3; now rewrite <- app_assoc).
        apply byteBefore_snoc. }
      rewrite Hcell, Hbb, is_byte_Some.
      change (Byte.eqb quote comma) with false. reflexivity.
  - change (joinCells (spellings (x :: x2 :: xs)))
      with (spelling x ++ comma :: joinCells (spellings (x2 :: xs))) in *.
    set (J := joinCells (spellings (x2 :: xs))) in *.
    cbn [forallb] in Hok. apply andb_true_iff in Hok as [Hx Hok].
    rewrite length_app in *. cbn [List.length] in *.
    assert (Hnext : forall p : buffer,
               b = (p ++ [comma]) ++ J ++ rest ->
               List.length (p ++ [comma])
               = List.length pre + (List.length (spelling x) + 1) ->
               forall fuel' acc',
                 List.length J <= fuel' ->
                 lastCells b
                   (List.length pre
                    + (List.length (spelling x) + S (List.length J)))
                   (parseLine_loop fuel' b (List.length (p ++ [comma]))
                      (List.length pre
                       + (List.length (spelling x) + S (List.length J)))
                      false (List.length (p ++ [comma])) acc')
                 = acc' ++ values (x2 :: xs)).
    { intros p Hp Hlp fuel' acc' Hf'.
      replace (List.length pre
               + (List.length (spelling x) + S (List.length J)))
        with (List.length (p ++ [comma]) + List.length J) by lia.
      apply (IH x2 b (p ++ [comma]) rest fuel' acc'); try assumption.
      intros _ _. rewrite Hp. apply byteBefore_snoc. }
    destruct x as [c|c].
    + cbn [spelling cellOk] in *.
      assert (Hb1 : b = pre ++ c ++ (comma :: J) ++ rest)
        by (rewrite Hb; now rewrite <- !app_assoc).
      rewrite (parseLine_loop_scan c b pre _ fuel _ _ acc Hb1 Hx) by lia.
      assert (Hb2 : b = (pre ++ c) ++ comma :: J ++ rest)
        by (rewrite Hb1; now rewrite <- !app_assoc).
      rewrite <- (length_app pre c).
      rewrite (loop_comma b (pre ++ c) (J ++ rest))
        by (try assumption; rewrite ?length_app; lia).
      assert (Hcell : parseCell b (List.length pre) (List.length (pre ++ c))
                      = toString c).
      { rewrite length_app, Hb1. apply parseCell_plain; [assumption|].
        now apply hd_plain_not_quote. }
      rewrite Hcell.
      rewrite Hnext.
      * cbn [values map value]. now rewrite <- app_assoc.
      * rewrite Hb2. now rewrite <- !app_assoc.
      * rewrite !length_app. simpl. lia.
      * lia.
    + clear Hx. rewrite length_quoted in *.
      set (E := escapeQuotes c) in *.
      pose proof (length_escapeQuotes c) as HE. fold E in HE.
      assert (Hb1 : b = pre ++ quote :: E ++ quote :: comma :: J ++ rest).
      { rewrite Hb. cbn [spelling]. fold E. simpl. rewrite <- !app_assoc.
        reflexivity. }
      rewrite (loop_open b pre (E ++ quote :: comma :: J ++ rest))
        by (assumption || lia).
      assert (Hb2 : b = (pre ++ [quote]) ++ E ++ quote :: comma :: J ++ rest)
        by (rewrite Hb1; now rewrite <- app_assoc).
      unfold E at 1.
      rewrite (parseLine_loop_scan_escaped c b (pre ++ [quote])
                 (quote :: comma :: J ++ rest))
        by (try assumption; fold E; rewrite ?length_app; simpl; lia).
      fold E.
      assert (Hb3 : b = (pre ++ quote :: E) ++ quote :: comma :: J ++ rest)
        by (rewrite Hb1; now rewrite <- app_assoc).
      replace (List.length (pre ++ [quote]) + List.length E)
        with (List.length (pre ++ quote :: E))
        by (rewrite !length_app; simpl; lia).
      assert (Hl3 : List.length (pre ++ quote :: E)
                    = List.length pre + List.length E + 1)
        by (rewrite length_app; simpl; lia).
      rewrite (loop_close_comma b (pre ++ quote :: E) (J ++ rest))
        by (assumption || lia).
      assert (Hb4 : b = ((pre ++ quote :: E) ++ [quote])
                        ++ comma :: J ++ rest)
        by (rewrite Hb3;
            now rewrite <- (app_assoc (pre ++ quote :: E) [quote])).
      assert (Hl4 : List.length ((pre ++ quote :: E) ++ [quote])
                    = List.length pre + List.length E + 2)
        by (rewrite (length_app (pre ++ quote :: E)); simpl; lia).
      rewrite (loop_comma b ((pre ++ quote :: E) ++ [quote]) (J ++ rest))
        by (assumption || lia).
      assert (Hcell : parseCell b (List.length pre)
                        (List.length ((pre ++ quote :: E) ++ [quote]))
                      = toString c).
      { replace (List.length ((pre ++ quote :: E) ++ [quote]))
          with (List.length pre + List.length (spelling (Quoted c)))
          by (rewrite length_quoted; fold E; lia).
        replace b with (pre ++ spelling (Quoted c) ++ (comma :: J) ++ rest)
          by (rewrite Hb; now rewrite <- !app_assoc).
        now apply parseCell_quoted. }
      rewrite Hcell.
      rewrite Hnext.
      * cbn [values map value]. now rewrite <- app_assoc.
      * rewrite Hb4. now rewrite <- !app_assoc.
      * rewrite (length_app (_ ++ [quote])). simpl. lia.
      * lia.
Qed.


Lemma last_app_cons (l : buffer) (y : byte) (l' : buffer) (d : byte) :
  last (l ++ y :: l') d = last (y :: l') d.
Proof.
  induction l as [|z l IH]; [reflexivity|].
  rewrite <- IH. cbn [app last].
  destruct (l ++ y :: l') eqn:E; [|reflexivity].
  symmetry in E. now apply app_cons_not_nil in E.
Qed.

(** The last byte of a written row is never a carriage return. *)
Lemma body_last_not_cr (r : list cell) :
  forallb cellOk r = true ->
  joinCells (spellings r) <> [] ->
  Byte.eqb (last (joinCells (spellings r)) "000"%byte) cr = false.
Proof.
  induction r as [|x xs IH]; intros Hok Hne; [now contradiction Hne|].
  cbn [forallb] in Hok. apply andb_true_iff in Hok as [Hx Hok].
  destruct xs as [|x2 xs].
  - change (joinCells (spellings [x])) with (spelling x) in *.
    destruct x as [c|c]; cbn [spelling cellOk] in *.
    + pose proof (last_plain c Hne Hx) as Hl.
      now apply plain_inv in Hl as (_ & _ & _ & Hl).
    + change (quote :: escapeQuotes c ++ [quote])
        with ((quote :: escapeQuotes c) ++ [quote]).
      now rewrite last_last.
  - change (joinCells (spellings (x :: x2 :: xs)))
      with (spelling x ++ comma :: joinCells (spellings (x2 :: xs))) in *.
    rewrite last_app_cons.
    destruct (joinCells (spellings (x2 :: xs))) as [|y J] eqn:EJ;
      [reflexivity|].
    change (last (comma :: y :: J) "000"%byte)
      with (last (y :: J) "000"%byte).
    apply IH; [assumption|discriminate].
Qed.

(** The loop and its epilogue on a written row, once the end of the
    line is known. *)
Lemma lastCells_qline (r : list cell) (b pre rest : buffer) :
  b = pre ++ joinCells (spellings r) ++ rest ->
  rowOk r ->
  lineStart pre ->
  is_byte (hd_error rest) comma = false ->
  lastCells b (List.length pre + List.length (joinCells (spellings r)))
    (parseLine_loop (List.length (joinCells (spellings r))) b
       (List.length pre)
       (List.length pre + List.length (joinCells (spellings r))) false
       (List.length pre) [])
  = values r.
Proof.
  intros Hb [Hall Hne] [Hcr Hcomma] Hrest.
  destruct r as [|x xs].
  - simpl. rewrite Nat.add_0_r, Nat.ltb_irrefl.
    rewrite Hb. simpl. now rewrite byteBefore_app, Hcomma.
  - apply (lastCells_qcells xs x b pre rest); try assumption.
    + lia.
    + intros -> ->. now contradiction Hne.
Qed.

Lemma body_no_cr_before_end (r : list cell) (b pre rest : buffer) :
  b = pre ++ joinCells (spellings r) ++ rest ->
  forallb cellOk r = true ->
  lineStart pre ->
  is_byte (byteBefore b (List.length pre
                         + List.length (joinCells (spellings r)))) cr
  = false.
Proof.
  intros Hb Hall [Hcr _].
  destruct (joinCells (spellings r)) as [|x J'] eqn:EJ.
  - simpl. rewrite Nat.add_0_r, Hb. simpl. now rewrite byteBefore_app.
  - rewrite <- EJ in *.
    assert (HJ : joinCells (spellings r) <> []) by (rewrite EJ; discriminate).
    rewrite Hb, byteBefore_end, is_byte_Some by assumption.
    now apply body_last_not_cr.
Qed.

(** [lineCells] on a written row that a line feed, or the end of the
    file, follows. *)
Lemma lineCells_qrow (r : list cell) (b pre rest : buffer) :
  b = pre ++ joinCells (spellings r) ++ rest ->
  rowOk r ->
  lineStart pre ->
  is_byte (hd_error rest) comma = false ->
  lineCells b (List.length pre)
    (List.length pre + List.length (joinCells (spellings r)) + 1)
  = values r.
Proof.
  intros Hb Hok Hstart Hrest. unfold lineCells.
  replace (List.length pre + List.length (joinCells (spellings r)) + 1 - 1)
    with (List.length pre + List.length (joinCells (spellings r))) by lia.
  rewrite (body_no_cr_before_end r b pre rest Hb (proj1 Hok) Hstart).
  rewrite andb_false_r.
  replace (List.length pre + List.length (joinCells (spellings r))
           - List.length pre)
    with (List.length (joinCells (spellings r))) by lia.
  now apply (lastCells_qline r b pre rest).
Qed.

(** The same when a carriage return and a line feed end the line. *)
Lemma lineCells_qrow_cr (r : list cell) (b pre rest : buffer) :
  b = pre ++ joinCells (spellings r) ++ cr :: rest ->
  rowOk r ->
  lineStart pre ->
  lineCells b (List.length pre)
    (List.length pre + List.length (joinCells (spellings r)) + 2)
  = values r.
Proof.
  intros Hb Hok Hstart. unfold lineCells.
  set (J := joinCells (spellings r)) in *.
  replace (List.length pre + List.length J + 2 - 1)
    with (List.length ((pre ++ J) ++ [cr]))
    by (rewrite !length_app; simpl; lia).
  assert (Hb' : b = ((pre ++ J) ++ [cr]) ++ rest)
    by (rewrite Hb; now rewrite <- !app_assoc).
  assert (Hcr : byteBefore b (List.length ((pre ++ J) ++ [cr])) = Some cr)
    by (rewrite Hb'; apply byteBefore_snoc).
  rewrite Hcr, is_byte_Some.
  change (Byte.eqb cr cr) with true.
  replace (List.length b =? 0)%nat with false
    by (symmetry; apply Nat.eqb_neq; rewrite Hb, !length_app; simpl; lia).
  cbn [negb andb].
  replace (List.length ((pre ++ J) ++ [cr]) - 1)
    with (List.length pre + List.length J)
    by (rewrite !length_app; simpl; lia).
  replace (List.length pre + List.length J - List.length pre)
    with (List.length J) by lia.
  now apply (lastCells_qline r b pre (cr :: rest)).
Qed.

(** [lineCells] on a whole line of a file. *)
Lemma lineCells_qline (crlf : bool) (r : list cell) (b pre rest : buffer) :
  b = pre ++ Csv.line crlf (spellings r) ++ rest ->
  rowOk r ->
  lineStart pre ->
  lineCells b (List.length pre)
    (List.length pre + List.length (Csv.line crlf (spellings r)))
  = values r.
Proof.
  intros Hb Hok Hstart. rewrite length_line, Nat.add_assoc.
  unfold Csv.line, Csv.eol in Hb. destruct crlf.
  - apply (lineCells_qrow_cr r b pre (nl :: rest)); try assumption.
    rewrite Hb. now rewrite <- !app_assoc.
  - apply (lineCells_qrow r b pre (nl :: rest)); try assumption.
    + rewrite Hb. now rewrite <- !app_assoc.
    + reflexivity.
Qed.


(** *** The byte loop of [_transform] on quoted cells

    The file is scanned as one chunk, which starts at index 0. *)

Ltac restate st' :=
  match goal with
  | |- transform_loop _ _ _ _ _ ?st _ = _ => change st with st'
  end.

(** From inside the quotes to the byte after the closing quote: line
    breaks do not end the line, a doubled quote raises and lowers
    [escaped], and the closing quote lowers [quoted]. *)
Lemma transform_loop_closing (opts : options) (c : buffer) :
  forall (b pre rest : buffer) (fuel : nat) (f : bool) (ln pe : nat)
         (hs : list string) (out : list event),
    b = pre ++ escapeQuotes c ++ quote :: rest ->
    pre <> [] ->
    is_byte (hd_error rest) quote = false ->
    List.length (escapeQuotes c) + 1 <= fuel ->
    transform_loop opts 0 fuel b (List.length pre)
      (with_scan (lineState f ln pe hs) false true) out
    = transform_loop opts 0 (fuel - (List.length (escapeQuotes c) + 1)) b
        (List.length pre + (List.length (escapeQuotes c) + 1))
        (lineState f ln pe hs) out.
Proof.
  induction c as [|x c IH]; intros b pre rest fuel f ln pe hs out
    Hb Hpre Hrest Hf.
  - cbn [escapeQuotes app List.length] in *.
    destruct fuel as [|fuel]; [lia|]. cbn [transform_loop].
    assert (Hat : byteAt b (List.length pre) = Some quote)
      by (subst b; apply byteAt_app_cons).
    assert (Hnext : byteAt b (List.length pre + 1) = hd_error rest)
      by (subst b; apply byteAt_next).
    rewrite Hat, Hnext, Hrest, !is_byte_Some, eqb_refl_byte.
    cbn [with_scan lineState escaped quoted first lineNumber previousEnd
         newline headers negb andb].
    replace (S fuel - (0 + 1)) with fuel by lia.
    replace (List.length pre + (0 + 1)) with (List.length pre + 1) by lia.
    reflexivity.
  - cbn [escapeQuotes] in *.
    assert (Hi : (List.length pre =? 0)%nat = false).
    { apply Nat.eqb_neq. destruct pre; [now contradiction Hpre|].
      simpl. lia. }
    destruct (Byte.eqb x quote) eqn:Ex.
    + apply Byte.byte_dec_bl in Ex. subst x.
      destruct fuel as [|fuel]; [simpl in Hf; lia|].
      cbn [transform_loop].
      assert (Hat : byteAt b (List.length pre) = Some quote)
        by (subst b; apply byteAt_app_cons).
      assert (Hnext : byteAt b (List.length pre + 1) = Some quote)
        by (subst b; apply byteAt_next).
      rewrite Hat, Hnext, Hi, !is_byte_Some, !eqb_refl_byte.
      cbn [with_scan lineState escaped quoted first lineNumber previousEnd
           newline headers negb andb].
      destruct fuel as [|fuel]; [simpl in Hf; lia|].
      cbn [transform_loop].
      rewrite Hnext, !is_byte_Some, !eqb_refl_byte.
      cbn [with_scan lineState escaped quoted first lineNumber previousEnd
           newline headers negb andb].
      restate (with_scan (lineState f ln pe hs) false true).
      assert (Hb' : b = (pre ++ [quote; quote])
                        ++ escapeQuotes c ++ quote :: rest)
        by (subst b; now rewrite <- app_assoc).
      replace (List.length pre + 1 + 1)
        with (List.length (pre ++ [quote; quote]))
        by (rewrite length_app; simpl; lia).
      rewrite (IH b (pre ++ [quote; quote]) rest fuel f ln pe hs out Hb');
        [ | now destruct pre | assumption | simpl in Hf; lia ].
      f_equal; rewrite ?length_app; simpl; lia.
    + destruct fuel as [|fuel]; [simpl in Hf; lia|].
      cbn [transform_loop].
      assert (Hat : byteAt b (List.length pre) = Some x)
        by (subst b; apply byteAt_app_cons).
      rewrite Hat, !is_byte_Some, Ex.
      cbn [with_scan lineState escaped quoted first negb andb].
      restate (with_scan (lineState f ln pe hs) false true).
      assert (Hb' : b = (pre ++ [x]) ++ escapeQuotes c ++ quote :: rest)
        by (subst b; now rewrite <- app_assoc).
      replace (List.length pre + 1) with (List.length (pre ++ [x]))
        by (rewrite length_app; simpl; lia).
      rewrite (IH b (pre ++ [x]) rest fuel f ln pe hs out Hb');
        [ | now destruct pre | assumption | simpl in Hf; lia ].
      f_equal; rewrite ?length_app; simpl; lia.
Qed.

(** A cell between quotes leaves the scanner as it found it. *)
Lemma transform_loop_quoted (opts : options) (c : buffer) :
  forall (b pre rest : buffer) (fuel : nat) (f : bool) (ln pe : nat)
         (hs : list string) (out : list event),
    b = pre ++ spelling (Quoted c) ++ rest ->
    is_byte (hd_error rest) quote = false ->
    List.length (spelling (Quoted c)) <= fuel ->
    transform_loop opts 0 fuel b (List.length pre) (lineState f ln pe hs) out
    = transform_loop opts 0 (fuel - List.length (spelling (Quoted c))) b
        (List.length pre + List.length (spelling (Quoted c)))
        (lineState f ln pe hs) out.
Proof.
  induction c as [|x c IH]; intros b pre rest fuel f ln pe hs out
    Hb Hrest Hf; rewrite length_quoted in *.
  - (* two quotes in a row *)
    assert (Hb1 : b = pre ++ quote :: quote :: rest)
      by (rewrite Hb; reflexivity).
    assert (Hat : byteAt b (List.length pre) = Some quote)
      by (rewrite Hb1; apply byteAt_app_cons).
    assert (Hat2 : byteAt b (List.length pre + 1) = Some quote)
      by (rewrite Hb1; apply byteAt_next).
    assert (Hnext2 : byteAt b (List.length pre + 1 + 1) = hd_error rest).
    { replace (List.length pre + 1) with (List.length (pre ++ [quote]))
        by (rewrite length_app; simpl; lia).
      replace b with ((pre ++ [quote]) ++ quote :: rest)
        by (rewrite Hb1; now rewrite <- app_assoc).
      apply byteAt_next. }
    cbn [escapeQuotes List.length] in *.
    destruct fuel as [|fuel]; [lia|].
    cbn [transform_loop].
    rewrite Hat, Hat2, !is_byte_Some, !eqb_refl_byte.
    cbn [lineState escaped quoted first negb andb].
    destruct fuel as [|fuel]; [lia|].
    destruct (List.length pre =? 0)%nat; cbn [negb];
      cbn [transform_loop];
      rewrite Hat2, Hnext2, Hrest, !is_byte_Some, !eqb_refl_byte;
      cbn [with_scan lineState escaped quoted first lineNumber previousEnd
           newline headers negb andb];
      replace (S (S fuel) - (0 + 2)) with fuel by lia;
      replace (List.length pre + (0 + 2)) with (List.length pre + 1 + 1)
        by lia;
      reflexivity.
  - set (E := escapeQuotes (x :: c)) in *.
    assert (Hb1 : b = pre ++ quote :: E ++ quote :: rest).
    { rewrite Hb. cbn [spelling]. fold E. simpl. now rewrite <- app_assoc. }
    assert (Hat : byteAt b (List.length pre) = Some quote)
      by (rewrite Hb1; apply byteAt_app_cons).
    assert (Hnext : byteAt b (List.length pre + 1)
                    = hd_error (E ++ quote :: rest))
      by (rewrite Hb1; apply byteAt_next).
    assert (Hinside :
              forall fuel',
                List.length E + 1 <= fuel' ->
                transform_loop opts 0 fuel' b (List.length pre + 1)
                  (with_scan (lineState f ln pe hs) false true) out
                = transform_loop opts 0 (fuel' - (List.length E + 1)) b
                    (List.length pre + (List.length E + 2))
                    (lineState f ln pe hs) out).
    { intros fuel' Hf'.
      replace (List.length pre + 1) with (List.length (pre ++ [quote]))
        by (rewrite length_app; simpl; lia).
      unfold E.
      rewrite (transform_loop_closing opts (x :: c) b (pre ++ [quote]) rest);
        [ | fold E; rewrite Hb1; now rewrite <- app_assoc
          | now destruct pre | assumption | fold E; lia ].
      fold E. f_equal. rewrite length_app. simpl. lia. }
    destruct fuel as [|fuel]; [lia|].
    destruct (List.length pre =? 0)%nat eqn:Hi.
    + (* the cell opens the chunk *)
      cbn [transform_loop]. rewrite Hat, Hi, !is_byte_Some, eqb_refl_byte.
      cbn [lineState escaped quoted first negb andb].
      rewrite andb_false_r.
      restate (with_scan (lineState f ln pe hs) false true).
      rewrite Hinside by lia. f_equal. lia.
    + unfold E in Hnext. cbn [escapeQuotes] in Hnext.
      destruct (Byte.eqb x quote) eqn:Ex.
      * (* the content starts with a quote *)
        apply Byte.byte_dec_bl in Ex. subst x.
        cbn [app hd_error] in Hnext.
        assert (HE : E = quote :: quote :: escapeQuotes c)
          by (unfold E; cbn [escapeQuotes]; now rewrite eqb_refl_byte).
        assert (HlE : List.length E = List.length (escapeQuotes c) + 2)
          by (rewrite HE; simpl; lia).
        cbn [transform_loop].
        rewrite Hat, Hnext, Hi, !is_byte_Some, !eqb_refl_byte.
        cbn [lineState escaped quoted first negb andb].
        destruct fuel as [|fuel]; [lia|].
        cbn [transform_loop].
        rewrite Hnext, !is_byte_Some, !eqb_refl_byte.
        cbn [with_scan lineState escaped quoted first lineNumber previousEnd
             newline headers negb andb].
        restate (lineState f ln pe hs).
        replace (List.length pre + 1 + 1)
          with (List.length (pre ++ [quote; quote]))
          by (rewrite length_app; simpl; lia).
        rewrite (IH b (pre ++ [quote; quote]) rest fuel f ln pe hs out);
          [ | rewrite Hb1, HE; cbn [spelling]; rewrite <- !app_assoc;
              simpl; now rewrite <- app_assoc
            | assumption
            | lia ].
        f_equal; rewrite ?length_app; simpl; lia.
      * (* the content starts with another byte *)
        cbn [app hd_error] in Hnext.
        cbn [transform_loop].
        rewrite Hat, Hnext, !is_byte_Some, Ex, eqb_refl_byte.
        cbn [lineState escaped quoted first negb andb].
        restate (with_scan (lineState f ln pe hs) false true).
        rewrite Hinside by lia. f_equal. lia.
Qed.

Lemma plain_inert (c : buffer) :
  forallb plain c = true ->
  forall x, In x c ->
    Byte.eqb x quote = false /\ Byte.eqb x nl = false
    /\ Byte.eqb x cr = false.
Proof.
  intros Hc x Hx. rewrite forallb_forall in Hc.
  apply Hc in Hx. apply plain_inv in Hx. tauto.
Qed.

Lemma transform_loop_cell (opts : options) (x : cell)
  (b pre rest : buffer) (fuel : nat) (f : bool) (ln pe : nat)
  (hs : list string) (out : list event) :
  b = pre ++ spelling x ++ rest ->
  cellOk x = true ->
  is_byte (hd_error rest) quote = false ->
  List.length (spelling x) <= fuel ->
  transform_loop opts 0 fuel b (List.length pre) (lineState f ln pe hs) out
  = transform_loop opts 0 (fuel - List.length (spelling x)) b
      (List.length pre + List.length (spelling x))
      (lineState f ln pe hs) out.
Proof.
  intros Hb Hx Hrest Hf. destruct x as [c|c].
  - apply (transform_loop_scan opts 0 c b pre rest); try assumption.
    now apply plain_inert.
  - now apply (transform_loop_quoted opts c b pre rest).
Qed.

Lemma transform_loop_qcells (opts : options) (xs : list cell) :
  forall (x : cell) (b pre rest : buffer) (fuel : nat) (f : bool)
         (ln pe : nat) (hs : list string) (out : list event),
    b = pre ++ joinCells (spellings (x :: xs)) ++ rest ->
    forallb cellOk (x :: xs) = true ->
    is_byte (hd_error rest) quote = false ->
    List.length (joinCells (spellings (x :: xs))) <= fuel ->
    transform_loop opts 0 fuel b (List.length pre) (lineState f ln pe hs) out
    = transform_loop opts 0
        (fuel - List.length (joinCells (spellings (x :: xs)))) b
        (List.length pre + List.length (joinCells (spellings (x :: xs))))
        (lineState f ln pe hs) out.
Proof.
  induction xs as [|x2 xs IH]; intros x b pre rest fuel f ln pe hs out
    Hb Hok Hrest Hf;
    cbn [forallb] in Hok; apply andb_true_iff in Hok as [Hx Hok].
  - change (joinCells (spellings [x])) with (spelling x) in *.
    now apply (transform_loop_cell opts x b pre rest).
  - change (joinCells (spellings (x :: x2 :: xs)))
      with (spelling x ++ comma :: joinCells (spellings (x2 :: xs))) in *.
    set (J := joinCells (spellings (x2 :: xs))) in *.
    rewrite length_app in *. cbn [List.length] in *.
    rewrite (transform_loop_cell opts x b pre (comma :: J ++ rest));
      [ | rewrite Hb; now rewrite <- !app_assoc | assumption
        | reflexivity | lia ].
    rewrite <- length_app.
    rewrite (transform_loop_scan opts 0 [comma] b (pre ++ spelling x)
               (J ++ rest));
      [ | rewrite Hb; now rewrite <- !app_assoc
        | intros y [<-|[]]; repeat split; reflexivity
        | simpl; lia ].
    replace (List.length (pre ++ spelling x) + List.length [comma])
      with (List.length (pre ++ spelling x ++ [comma]))
      by (rewrite !length_app; simpl; lia).
    unfold J.
    rewrite (IH x2 b (pre ++ spelling x ++ [comma]) rest);
      [ | rewrite Hb; now rewrite <- !app_assoc | assumption | assumption
        | fold J; simpl; lia ].
    fold J. f_equal.
    + simpl. lia.
    + rewrite !length_app. simpl. lia.
Qed.

Lemma transform_loop_qrow (opts : options) (r : list cell)
  (b pre rest : buffer) (fuel : nat) (f : bool) (ln pe : nat)
  (hs : list string) (out : list event) :
  b = pre ++ joinCells (spellings r) ++ rest ->
  forallb cellOk r = true ->
  is_byte (hd_error rest) quote = false ->
  List.length (joinCells (spellings r)) <= fuel ->
  transform_loop opts 0 fuel b (List.length pre) (lineState f ln pe hs) out
  = transform_loop opts 0 (fuel - List.length (joinCells (spellings r))) b
      (List.length pre + List.length (joinCells (spellings r)))
      (lineState f ln pe hs) out.
Proof.
  intros Hb Hok Hrest Hf. destruct r as [|x xs].
  - simpl. now rewrite Nat.sub_0_r, Nat.add_0_r.
  - now apply (transform_loop_qcells opts xs x b pre rest).
Qed.

(** One whole line of a file. *)
Lemma transform_loop_qline (opts : options) (crlf : bool) (r : list cell)
  (b pre rest : buffer) (fuel : nat) (f : bool) (ln : nat)
  (hs : list string) (out : list event) :
  b = pre ++ Csv.line crlf (spellings r) ++ rest ->
  forallb cellOk r = true ->
  List.length (Csv.line crlf (spellings r)) <= fuel ->
  transform_loop opts 0 fuel b (List.length pre)
    (lineState f ln (List.length pre) hs) out
  = transform_loop opts 0
      (fuel - List.length (Csv.line crlf (spellings r))) b
      (List.length pre + List.length (Csv.line crlf (spellings r)))
      (with_previousEnd
         (fst (parseLine opts (lineState f ln (List.length pre) hs) b
                 (List.length pre)
                 (List.length pre
                  + List.length (Csv.line crlf (spellings r)))))
         (List.length pre + List.length (Csv.line crlf (spellings r))))
      (out ++ snd (parseLine opts (lineState f ln (List.length pre) hs) b
                     (List.length pre)
                     (List.length pre
                      + List.length (Csv.line crlf (spellings r))))).
Proof.
  intros Hb Hall Hf. rewrite length_line in *.
  unfold Csv.line, Csv.eol in Hb.
  set (J := joinCells (spellings r)) in *.
  destruct crlf.
  - assert (Hb1 : b = pre ++ J ++ (cr :: nl :: rest))
      by (rewrite Hb; now rewrite <- !app_assoc).
    rewrite (transform_loop_qrow opts r b pre (cr :: nl :: rest) fuel f ln
               _ hs out Hb1 Hall eq_refl) by (fold J; lia).
    fold J.
    destruct (fuel - List.length J) as [|fuel1] eqn:Ef; [lia|].
    rewrite <- length_app.
    rewrite (transform_loop_cr opts 0 b (pre ++ J) rest)
      by (rewrite Hb1; now rewrite <- !app_assoc).
    replace (List.length (pre ++ J) + 1)
      with (List.length (pre ++ J ++ [cr]))
      by (rewrite !length_app; simpl; lia).
    rewrite (transform_loop_to_nl opts 0 [] b (pre ++ J ++ [cr]) rest);
      [ | rewrite Hb1; now rewrite <- !app_assoc | intros x [] | simpl; lia ].
    cbn [List.length].
    replace (List.length (pre ++ J ++ [cr]) + 0 + 1)
      with (List.length pre + (List.length J + 2))
      by (rewrite !length_app; simpl; lia).
    f_equal. lia.
  - assert (Hb1 : b = pre ++ J ++ (nl :: rest))
      by (rewrite Hb; now rewrite <- !app_assoc).
    rewrite (transform_loop_qrow opts r b pre (nl :: rest) fuel f ln
               _ hs out Hb1 Hall eq_refl) by (fold J; lia).
    fold J.
    rewrite <- length_app.
    rewrite (transform_loop_to_nl opts 0 [] b (pre ++ J) rest);
      [ | rewrite Hb1; now rewrite <- !app_assoc | intros x [] | simpl; lia ].
    cbn [List.length].
    replace (List.length (pre ++ J) + 0 + 1)
      with (List.length pre + (List.length J + 1))
      by (rewrite !length_app; simpl; lia).
    f_equal. lia.
Qed.

(** *** Files of written rows, with the options of the handler *)

Lemma transform_loop_qheader (crlf : bool) (r : list cell)
  (b pre rest : buffer) (fuel ln : nat) (hs : list string)
  (out : list event) :
  b = pre ++ Csv.line crlf (spellings r) ++ rest ->
  rowOk r ->
  lineStart pre ->
  List.length (Csv.line crlf (spellings r)) <= fuel ->
  transform_loop Server.parserOptions 0 fuel b (List.length pre)
    (lineState true ln (List.length pre) hs) out
  = transform_loop Server.parserOptions 0
      (fuel - List.length (Csv.line crlf (spellings r))) b
      (List.length (pre ++ Csv.line crlf (spellings r)))
      (lineState false (S ln)
         (List.length (pre ++ Csv.line crlf (spellings r))) (values r))
      out.
Proof.
  intros Hb Hok Hstart Hf.
  rewrite (transform_loop_qline Server.parserOptions crlf r b pre rest)
    by (tauto || apply Hok).
  rewrite (parseLine_header Server.parserOptions eq_refl). cbn [fst snd].
  rewrite (lineCells_qline crlf r b pre rest) by assumption.
  rewrite app_nil_r, length_app. reflexivity.
Qed.

Lemma transform_loop_qdata (crlf : bool) (r : list cell)
  (b pre rest : buffer) (fuel ln : nat) (hs : list string)
  (out : list event) :
  b = pre ++ Csv.line crlf (spellings r) ++ rest ->
  rowOk r ->
  lineStart pre ->
  List.length (Csv.line crlf (spellings r)) <= fuel ->
  transform_loop Server.parserOptions 0 fuel b (List.length pre)
    (lineState false ln (List.length pre) hs) out
  = transform_loop Server.parserOptions 0
      (fuel - List.length (Csv.line crlf (spellings r))) b
      (List.length (pre ++ Csv.line crlf (spellings r)))
      (lineState false (S ln)
         (List.length (pre ++ Csv.line crlf (spellings r))) hs)
      (out ++ [if (List.length r =? List.length hs)%nat
               then Data (writeRow hs (values r))
               else Error rowLengthError]).
Proof.
  intros Hb Hok Hstart Hf.
  rewrite (transform_loop_qline Server.parserOptions crlf r b pre rest)
    by (tauto || apply Hok).
  rewrite (parseLine_row Server.parserOptions eq_refl eq_refl). cbn [fst snd].
  rewrite (lineCells_qline crlf r b pre rest) by assumption.
  rewrite length_app. unfold values at 1. now rewrite length_map.
Qed.

Lemma transform_loop_qrows (crlf : bool) (rows : list (list cell)) :
  forall (b pre rest : buffer) (fuel ln : nat) (hs : list string)
         (out : list event),
    b = pre ++ Csv.lines crlf (map spellings rows) ++ rest ->
    Forall rowOk rows ->
    Forall (fun r => List.length r = List.length hs) rows ->
    lineStart pre ->
    List.length (Csv.lines crlf (map spellings rows)) <= fuel ->
    transform_loop Server.parserOptions 0 fuel b (List.length pre)
      (lineState false ln (List.length pre) hs) out
    = transform_loop Server.parserOptions 0
        (fuel - List.length (Csv.lines crlf (map spellings rows))) b
        (List.length (pre ++ Csv.lines crlf (map spellings rows)))
        (lineState false (ln + List.length rows)
           (List.length (pre ++ Csv.lines crlf (map spellings rows))) hs)
        (out ++ map (fun r => Data (writeRow hs (values r))) rows).
Proof.
  unfold Csv.lines.
  induction rows as [|r rows IH]; intros b pre rest fuel ln hs out
    Hb Hwf Hlen Hstart Hf.
  - simpl. now rewrite Nat.sub_0_r, !app_nil_r, Nat.add_0_r.
  - cbn [map List.concat] in *. rewrite length_app in Hf.
    pose proof (Forall_inv Hwf) as Hr.
    pose proof (Forall_inv_tail Hwf) as Hrows.
    pose proof (Forall_inv Hlen) as Hlr.
    pose proof (Forall_inv_tail Hlen) as Hlrows.
    rewrite (transform_loop_qdata crlf r b pre
               (List.concat (map (Csv.line crlf) (map spellings rows))
                ++ rest))
      by (try assumption; try lia; rewrite Hb; now rewrite <- !app_assoc).
    rewrite Hlr, Nat.eqb_refl.
    rewrite (IH b (pre ++ Csv.line crlf (spellings r)) rest);
      try assumption.
    + rewrite <- !app_assoc, length_app. cbn [List.length map].
      replace (S ln + List.length rows) with (ln + S (List.length rows))
        by lia.
      f_equal. rewrite length_app. lia.
    + rewrite Hb. now rewrite <- !app_assoc.
    + apply lineStart_line.
    + lia.
Qed.

(** The events of a file of written rows: one [data] per row, holding
    what the cells hold, then [end]. *)
Lemma piped_qfile (crlf : bool) (header : list cell)
  (rows : list (list cell)) :
  Forall rowOk (header :: rows) ->
  Forall (fun r => List.length r = List.length header) rows ->
  piped Server.parserOptions [Csv.lines crlf (map spellings (header :: rows))]
  = map (fun r => Data (writeRow (values header) (values r))) rows
    ++ [End].
Proof.
  intros Hwf Hlen. rewrite piped_single.
  change initial with (lineState true 0 (List.length (@nil byte)) []).
  set (b := Csv.lines crlf (map spellings (header :: rows))).
  assert (Hb : b = [] ++ Csv.line crlf (spellings header)
                   ++ Csv.lines crlf (map spellings rows) ++ [])
    by (unfold b, Csv.lines; simpl; now rewrite app_nil_r).
  assert (Hlb : List.length b
                = List.length (Csv.line crlf (spellings header))
                  + List.length (Csv.lines crlf (map spellings rows)))
    by (rewrite Hb; simpl; now rewrite !length_app, Nat.add_0_r).
  change (transform_loop Server.parserOptions 0 (List.length b) b 0)
    with (transform_loop Server.parserOptions 0 (List.length b) b
            (List.length (@nil byte))).
  rewrite (transform_loop_qheader crlf header b [] _ _ 0 [] [] Hb
             (Forall_inv Hwf) lineStart_nil) by lia.
  cbn [app].
  rewrite (transform_loop_qrows crlf rows b
             (Csv.line crlf (spellings header)) []);
    try (apply (Forall_inv_tail Hwf));
    try apply lineStart_line with (pre := []);
    try lia.
  - replace (List.length b - List.length (Csv.line crlf (spellings header))
             - List.length (Csv.lines crlf (map spellings rows)))
      with 0 by lia.
    cbn [transform_loop app].
    assert (Hne : existsb is_error
                    (map (fun r => Data (writeRow (values header) (values r)))
                       rows) = false)
      by (clear; induction rows; simpl; auto).
    rewrite Hne.
    cbn [lineState escaped previousEnd orb snd].
    replace (List.length (Csv.line crlf (spellings header)
                          ++ Csv.lines crlf (map spellings rows))
             =? List.length b)%nat with true
      by (symmetry; apply Nat.eqb_eq; rewrite length_app; lia).
    reflexivity.
  - rewrite Hb. reflexivity.
  - unfold values. rewrite length_map. assumption.
Qed.

Lemma spellings_nonempty (r : list cell) :
  r <> [] -> r <> [Bare []] -> joinCells (spellings r) <> [].
Proof.
  intros H1 H2. apply joinCells_nonempty.
  - destruct r; [congruence|discriminate].
  - destruct r as [|[c|c] [|x2 xs]]; try discriminate.
    cbn. intros E. injection E as ->. now apply H2.
Qed.

(** The same file without the terminator of its last line: the last
    line is parsed when the stream is flushed. *)
Lemma piped_qunterminated (crlf : bool) (header : list cell)
  (rows : list (list cell)) :
  Forall rowOk (header :: rows) ->
  Forall (fun r => List.length r = List.length header) rows ->
  header <> [] ->
  piped Server.parserOptions
    [Csv.unterminated crlf (spellings header) (map spellings rows)]
  = map (fun r => Data (writeRow (values header) (values r))) rows
    ++ [End].
Proof.
  intros Hwf Hlen Hne.
  pose proof (Forall_inv Hwf) as Hh.
  pose proof (Forall_inv_tail Hwf) as Hrows.
  assert (Hcase : rows = [] \/ rows <> [])
    by (destruct rows; [now left|right; discriminate]).
  destruct Hcase as [->|Hrs].
  - unfold Csv.unterminated. cbn [map removelast last Csv.lines List.concat
                                   app].
    set (h := joinCells (spellings header)).
    assert (Hhne : h <> [])
      by (unfold h; apply spellings_nonempty; [assumption|apply Hh]).
    rewrite piped_single.
    change initial with (lineState true 0 0 []).
    change (transform_loop Server.parserOptions 0 (List.length h) h 0)
      with (transform_loop Server.parserOptions 0 (List.length h) h
              (List.length (@nil byte))).
    rewrite (transform_loop_qrow Server.parserOptions header h [] []
               (List.length h) true 0 0 [] []);
      [ | now rewrite app_nil_r | apply Hh | reflexivity | unfold h; lia ].
    fold h. rewrite Nat.sub_diag. cbn [transform_loop existsb].
    cbn [lineState escaped previousEnd orb].
    replace (0 =? List.length h)%nat with false
      by (symmetry; apply Nat.eqb_neq; destruct h; simpl; congruence).
    now rewrite (parseLine_header Server.parserOptions eq_refl).
  - destruct (exists_last Hrs) as (rows' & lastr & Er). subst rows.
    assert (Hlast : rowOk lastr)
      by (apply Forall_app in Hrows as [_ H]; apply (Forall_inv H)).
    assert (Hll : List.length lastr = List.length header)
      by (apply Forall_app in Hlen as [_ H]; apply (Forall_inv H)).
    assert (HJ : joinCells (spellings lastr) <> []).
    { apply spellings_nonempty; [|apply Hlast].
      intros ->. destruct header; [congruence|discriminate Hll]. }
    assert (Hrows' : Forall rowOk rows'
                     /\ Forall (fun r => List.length r = List.length header)
                          rows').
    { apply Forall_app in Hrows as [H1 _].
      apply Forall_app in Hlen as [H2 _]. now split. }
    destruct Hrows' as [Hwf' Hlen'].
    set (b := Csv.unterminated crlf (spellings header)
                (map spellings (rows' ++ [lastr]))).
    set (P := Csv.line crlf (spellings header)
              ++ Csv.lines crlf (map spellings rows')).
    set (L := joinCells (spellings lastr)) in *.
    assert (Hb : b = P ++ L).
    { unfold b, Csv.unterminated, P, L. rewrite map_app. cbn [map].
      change (spellings header :: map spellings rows' ++ [spellings lastr])
        with ((spellings header :: map spellings rows')
              ++ [spellings lastr]).
      rewrite removelast_last, last_last.
      unfold Csv.lines. simpl. now rewrite <- app_assoc. }
    assert (Hlb : List.length b
                  = List.length (Csv.line crlf (spellings header))
                    + List.length (Csv.lines crlf (map spellings rows'))
                    + List.length L)
      by (rewrite Hb; unfold P; rewrite !length_app; lia).
    assert (HP : lineStart P)
      by (apply lineStart_lines, lineStart_line with (pre := [])).
    rewrite piped_single. fold b.
    change initial with (lineState true 0 (List.length (@nil byte)) []).
    change (transform_loop Server.parserOptions 0 (List.length b) b 0)
      with (transform_loop Server.parserOptions 0 (List.length b) b
              (List.length (@nil byte))).
    rewrite (transform_loop_qheader crlf header b []
               (Csv.lines crlf (map spellings rows') ++ L));
      [ | rewrite Hb; unfold P; simpl; now rewrite <- !app_assoc
        | assumption | apply lineStart_nil | lia ].
    cbn [app].
    rewrite (transform_loop_qrows crlf rows' b
               (Csv.line crlf (spellings header)) L);
      [ | rewrite Hb; unfold P; now rewrite <- !app_assoc
        | assumption
        | unfold values; now rewrite length_map
        | apply lineStart_line with (pre := []) | lia ].
    fold P. cbn [app].
    rewrite (transform_loop_qrow Server.parserOptions lastr b P []);
      [ | rewrite Hb; now rewrite app_nil_r
        | apply Hlast | reflexivity | fold L; lia ].
    fold L.
    replace (List.length b - List.length (Csv.line crlf (spellings header))
             - List.length (Csv.lines crlf (map spellings rows'))
             - List.length L) with 0 by lia.
    cbn [transform_loop].
    assert (Hnoerr : forall rs : list (list cell),
               existsb is_error
                 (map (fun r => Data (writeRow (values header) (values r)))
                    rs) = false)
      by (induction rs; simpl; auto).
    rewrite Hnoerr.
    cbn [lineState escaped previousEnd orb].
    replace (List.length P =? List.length b)%nat with false
      by (symmetry; apply Nat.eqb_neq; unfold P; rewrite length_app;
          destruct L; [congruence|simpl in Hlb; lia]).
    rewrite (parseLine_row Server.parserOptions eq_refl eq_refl). cbn [snd].
    replace (List.length b + 1)
      with (List.length P + List.length (joinCells (spellings lastr)) + 1)
      by (fold L; unfold P; rewrite length_app; lia).
    rewrite (lineCells_qrow lastr b P []);
      [ | rewrite Hb; now rewrite app_nil_r | assumption | assumption
        | reflexivity ].
    assert (Hn : List.length (values lastr) = List.length (values header))
      by (unfold values; now rewrite !length_map).
    rewrite Hn, Nat.eqb_refl, map_app. cbn [map].
    now rewrite <- app_assoc.
Qed.

(** A row of another length than the header, after rows of the
    header's length: the row is reported as an error, whatever follows
    it in the file. *)
Lemma piped_qmismatch (crlf : bool) (header : list cell)
  (rows : list (list cell)) (bad : list cell) (rest : buffer) :
  Forall rowOk (header :: bad :: rows) ->
  Forall (fun r => List.length r = List.length header) rows ->
  List.length bad <> List.length header ->
  exists more,
    piped Server.parserOptions
      [Csv.lines crlf (map spellings (header :: rows))
       ++ Csv.line crlf (spellings bad) ++ rest]
    = map (fun r => Data (writeRow (values header) (values r))) rows
      ++ Error rowLengthError :: more.
Proof.
  intros Hwf Hlen Hbad.
  pose proof (Forall_inv Hwf) as Hh.
  pose proof (Forall_inv (Forall_inv_tail Hwf)) as Hb.
  pose proof (Forall_inv_tail (Forall_inv_tail Hwf)) as Hrows.
  set (b := Csv.lines crlf (map spellings (header :: rows))
            ++ Csv.line crlf (spellings bad) ++ rest).
  set (R := Csv.lines crlf (map spellings rows)).
  set (H := Csv.line crlf (spellings header)).
  set (B := Csv.line crlf (spellings bad)).
  assert (Eb : b = [] ++ H ++ R ++ B ++ rest)
    by (unfold b, R, H, B, Csv.lines; simpl; now rewrite <- !app_assoc).
  assert (Hl : List.length b
               = List.length H + List.length R + List.length B
                 + List.length rest)
    by (rewrite Eb; simpl; rewrite !length_app; lia).
  assert (Hpos : 0 < List.length B)
    by (unfold B; rewrite length_line; destruct crlf; lia).
  assert (Hev : exists more,
             snd (transform_loop Server.parserOptions 0 (List.length b) b 0
                    initial [])
             = (map (fun r => Data (writeRow (values header) (values r)))
                  rows
                ++ [Error rowLengthError]) ++ more).
  { change initial with (lineState true 0 (List.length (@nil byte)) []).
    change (transform_loop Server.parserOptions 0 (List.length b) b 0)
      with (transform_loop Server.parserOptions 0 (List.length b) b
              (List.length (@nil byte))).
    rewrite (transform_loop_qheader crlf header b [] _ _ 0 [] [] Eb Hh
               lineStart_nil) by (fold H; lia).
    cbn [app]. fold H.
    rewrite (transform_loop_qrows crlf rows b H (B ++ rest));
      [ | rewrite Eb; reflexivity | assumption
        | unfold values; now rewrite length_map
        | apply lineStart_line with (pre := []) | fold R; lia ].
    fold R. cbn [app].
    rewrite (transform_loop_qdata crlf bad b (H ++ R) rest);
      [ | rewrite Eb; simpl; now rewrite <- !app_assoc | assumption
        | | fold B; lia ].
    - replace (List.length bad
               =? List.length (values header))%nat with false
        by (symmetry; apply Nat.eqb_neq; unfold values;
            now rewrite length_map).
      apply (transform_loop_extends Server.parserOptions).
    - apply lineStart_lines, lineStart_line with (pre := []). }
  destruct Hev as [more Hev]. exists more. rewrite piped_single. fold b.
  destruct (transform_loop Server.parserOptions 0 (List.length b) b 0
              initial [])
    as [st evs]. cbn [snd] in Hev.
  subst evs. rewrite !existsb_app. cbn [existsb is_error].
  rewrite orb_true_r. cbn [orb].
  now rewrite <- app_assoc.
Qed.

End QuotedCells.

(** ** The decoder across chunks *)

Module ChunkFacts.

Import CsvParser.
Import Csv.
Import CsvParserFacts.

(** *** Buffers that hold a part of the file *)

Lemma agree_le (c b : buffer) (k n m : nat) :
  agree c b k n -> m <= n -> agree c b k m.
Proof. intros H Hm j Hj. apply H. lia. Qed.

Lemma agree_refl (c : buffer) (n : nat) : agree c c 0 n.
Proof. intros j _. reflexivity. Qed.

(** The buffer is the end of the file. *)
Lemma agree_suffix (x b : buffer) (n : nat) :
  agree (x ++ b) b (List.length x) n.
Proof.
  intros j _. unfold byteAt. rewrite nth_error_app2 by lia.
  f_equal. lia.
Qed.

Lemma agree_middle (x b y : buffer) :
  agree (x ++ b ++ y) b (List.length x) (List.length b).
Proof.
  intros j Hj. unfold byteAt. rewrite nth_error_app2 by lia.
  replace (List.length x + j - List.length x) with j by lia.
  now rewrite nth_error_app1.
Qed.

Lemma agree_before (c b : buffer) (k n e : nat) :
  agree c b k n -> 0 < e -> e <= n ->
  byteBefore c (k + e) = byteBefore b e.
Proof.
  intros H He Hn. destruct e as [|e]; [lia|].
  replace (k + S e) with (S (k + e)) by lia. cbn [byteBefore].
  apply (H e). lia.
Qed.

Lemma agree_nth (c b : buffer) (k n j : nat) (d : byte) :
  agree c b k n -> j < n -> nth (k + j) c d = nth j b d.
Proof.
  intros H Hj. specialize (H j Hj). unfold byteAt in H.
  rewrite <- !nth_default_eq. unfold nth_default. now rewrite H.
Qed.

Lemma is_byte_before_length (b : buffer) (e : nat) (x : byte) :
  is_byte (byteBefore b e) x = true -> (List.length b =? 0)%nat = false.
Proof.
  destruct e as [|e]; [discriminate|]. cbn [byteBefore].
  destruct b; [now destruct e|reflexivity].
Qed.

(** *** The cells of a line, read in either buffer *)

Lemma parseCell_loop_agree (c b : buffer) (k e : nat) :
  agree c b k e ->
  forall (fuel i : nat) (out : buffer),
    parseCell_loop fuel c (k + i) (k + e) out
    = parseCell_loop fuel b i e out.
Proof.
  intros H. induction fuel as [|fuel IH]; intros i out; [reflexivity|].
  cbn [parseCell_loop].
  replace (k + i <? k + e)%nat with (i <? e)%nat
    by (destruct (Nat.ltb_spec i e), (Nat.ltb_spec (k + i) (k + e));
        reflexivity || lia).
  destruct (Nat.ltb_spec i e) as [Hi|Hi]; [|reflexivity].
  rewrite (H i Hi).
  replace (k + i + 1 <? k + e)%nat with (i + 1 <? e)%nat
    by (destruct (Nat.ltb_spec (i + 1) e),
          (Nat.ltb_spec (k + i + 1) (k + e)); reflexivity || lia).
  destruct (Nat.ltb_spec (i + 1) e) as [Hi1|Hi1].
  - replace (k + i + 1) with (k + (i + 1)) by lia.
    rewrite (H (i + 1) Hi1).
    destruct (is_byte (byteAt b i) quote && true
              && is_byte (byteAt b (i + 1)) quote).
    + rewrite (agree_nth c b k e (i + 1)) by assumption.
      replace (k + (i + 1) + 1) with (k + (i + 1 + 1)) by lia. apply IH.
    + rewrite (agree_nth c b k e i) by assumption.
      replace (k + i + 1) with (k + (i + 1)) by lia. apply IH.
  - rewrite !andb_false_r. cbn [andb].
    rewrite (agree_nth c b k e i) by assumption.
    replace (k + i + 1) with (k + (i + 1)) by lia. apply IH.
Qed.

Lemma parseCell_agree (c b : buffer) (k s e : nat) :
  agree c b k e ->
  s <= e ->
  (s < e \/ (is_byte (byteAt c (k + s)) quote = false
             /\ is_byte (byteAt b s) quote = false)) ->
  parseCell c (k + s) (k + e) = parseCell b s e.
Proof.
  intros H Hse Hcase. unfold parseCell.
  assert (Hstrip : is_byte (byteAt c (k + s)) quote
                   && is_byte (byteBefore c (k + e)) quote
                   = is_byte (byteAt b s) quote
                     && is_byte (byteBefore b e) quote).
  { destruct Hcase as [Hlt|[H1 H2]].
    - rewrite (H s Hlt), (agree_before c b k e e) by (assumption || lia).
      reflexivity.
    - now rewrite H1, H2. }
  rewrite Hstrip.
  destruct (is_byte (byteAt b s) quote
            && is_byte (byteBefore b e) quote) eqn:Es.
  - assert (He : 0 < e).
    { apply andb_true_iff in Es as [_ Es]. destruct e; [discriminate|lia]. }
    replace (k + e - 1 - (k + s + 1)) with (e - 1 - (s + 1)) by lia.
    replace (k + s + 1) with (k + (s + 1)) by lia.
    replace (k + e - 1) with (k + (e - 1)) by lia.
    rewrite (parseCell_loop_agree c b k (e - 1)); [reflexivity|].
    apply (agree_le c b k e); [assumption|lia].
  - replace (k + e - (k + s)) with (e - s) by lia.
    now rewrite (parseCell_loop_agree c b k e).
Qed.

Lemma parseLine_loop_agree (c b : buffer) (k e : nat) :
  agree c b k (e + 1) ->
  forall (fuel i : nat) (q : bool) (offset : nat) (cells : list string),
    offset <= i ->
    parseLine_loop fuel c (k + i) (k + e) q (k + offset) cells
    = (k + fst (parseLine_loop fuel b i e q offset cells),
       snd (parseLine_loop fuel b i e q offset cells)).
Proof.
  intros H. induction fuel as [|fuel IH]; intros i q offset cells Ho;
    [reflexivity|].
  cbn [parseLine_loop].
  replace (k + i <? k + e)%nat with (i <? e)%nat
    by (destruct (Nat.ltb_spec i e), (Nat.ltb_spec (k + i) (k + e));
        reflexivity || lia).
  destruct (Nat.ltb_spec i e) as [Hi|Hi]; [|reflexivity].
  assert (Hat : byteAt c (k + i) = byteAt b i) by (apply H; lia).
  assert (Hnext : byteAt c (k + i + 1) = byteAt b (i + 1)).
  { replace (k + i + 1) with (k + (i + 1)) by lia. apply H. lia. }
  rewrite Hat, Hnext.
  replace (k + i + 1 <=? k + e)%nat with (i + 1 <=? e)%nat
    by (destruct (Nat.leb_spec (i + 1) e),
          (Nat.leb_spec (k + i + 1) (k + e)); reflexivity || lia).
  replace (k + i + 1 <? k + e)%nat with (i + 1 <? e)%nat
    by (destruct (Nat.ltb_spec (i + 1) e),
          (Nat.ltb_spec (k + i + 1) (k + e)); reflexivity || lia).
  destruct (negb q && is_byte (byteAt b i) quote
            || q && is_byte (byteAt b i) quote && (i + 1 <=? e)%nat
               && is_byte (byteAt b (i + 1)) comma).
  { replace (k + i + 1) with (k + (i + 1)) by lia. apply IH. lia. }
  destruct (q && is_byte (byteAt b i) quote && (i + 1 <? e)%nat
            && is_byte (byteAt b (i + 1)) quote).
  { replace (k + i + 2) with (k + (i + 2)) by lia. apply IH. lia. }
  destruct (is_byte (byteAt b i) comma && negb q) eqn:Ec.
  - assert (Hcell : parseCell c (k + offset) (k + i) = parseCell b offset i).
    { apply parseCell_agree; [apply (agree_le c b k (e + 1)); [assumption|lia]
                             |assumption|].
      destruct (Nat.eq_dec offset i) as [->|Hne]; [right|left; lia].
      apply andb_true_iff in Ec as [Ec _].
      rewrite Hat. destruct (byteAt b i) as [x|]; [|discriminate Ec].
      cbn [is_byte] in *. apply Byte.byte_dec_bl in Ec. subst x.
      split; reflexivity. }
    rewrite Hcell.
    replace (k + i + 1) with (k + (i + 1)) by lia. apply IH. lia.
  - replace (k + i + 1) with (k + (i + 1)) by lia. apply IH. lia.
Qed.

Lemma parseLine_loop_offset (b : buffer) (e : nat) :
  forall (fuel i : nat) (q : bool) (offset : nat) (cells : list string),
    offset <= e ->
    fst (parseLine_loop fuel b i e q offset cells) <= e.
Proof.
  induction fuel as [|fuel IH]; intros i q offset cells Ho; [assumption|].
  cbn [parseLine_loop].
  destruct (Nat.ltb_spec i e) as [Hi|Hi]; [|assumption].
  repeat match goal with
         | |- context [if ?x then _ else _] => destruct x
         end; apply IH; lia.
Qed.

Lemma edge_before (c b : buffer) (k n e : nat) (x : byte) :
  agree c b k n -> e <= n ->
  (e = 0 -> is_byte (byteBefore c k) x = false) ->
  is_byte (byteBefore c (k + e)) x = is_byte (byteBefore b e) x.
Proof.
  intros H He Hedge. destruct e as [|e].
  - rewrite Nat.add_0_r. now rewrite Hedge.
  - now rewrite (agree_before c b k n (S e)) by (assumption || lia).
Qed.

Lemma lastCells_agree (c b : buffer) (k e o : nat) (cells : list string) :
  agree c b k e ->
  o <= e ->
  (e = 0 -> is_byte (byteBefore c k) comma = false) ->
  lastCells c (k + e) (k + o, cells) = lastCells b e (o, cells).
Proof.
  intros H Ho Hedge. unfold lastCells.
  replace (k + o <? k + e)%nat with (o <? e)%nat
    by (destruct (Nat.ltb_spec o e), (Nat.ltb_spec (k + o) (k + e));
        reflexivity || lia).
  rewrite (edge_before c b k e e comma) by (assumption || lia).
  destruct (Nat.ltb_spec o e) as [Hlt|Hge]; [|reflexivity].
  rewrite (parseCell_agree c b k o e) by (assumption || lia || (left; lia)).
  reflexivity.
Qed.

(** The cells of the line that starts at index [s] of the buffer and
    ends before index [t], provided what precedes the line in the file
    is nothing or a line end. *)
Lemma lineCells_agree (c b : buffer) (k s t : nat) :
  agree c b k t ->
  s < t ->
  edge c (k + s) ->
  lineCells c (k + s) (k + t) = lineCells b s t.
Proof.
  intros H Hst [Hcr Hcomma]. unfold lineCells.
  replace (k + t - 1) with (k + (t - 1)) by lia.
  assert (Hs0 : forall x, is_byte (byteBefore c (k + s)) x = false ->
                  is_byte (byteBefore b s) x = false).
  { intros x Hx. destruct s as [|s]; [reflexivity|].
    now rewrite <- (agree_before c b k t (S s)) by (assumption || lia). }
  assert (Htrim : negb (List.length c =? 0)%nat
                  && is_byte (byteBefore c (k + (t - 1))) cr
                  = negb (List.length b =? 0)%nat
                    && is_byte (byteBefore b (t - 1)) cr).
  { assert (E : is_byte (byteBefore c (k + (t - 1))) cr
                = is_byte (byteBefore b (t - 1)) cr).
    { destruct (Nat.eq_dec (t - 1) s) as [->|Hne].
      - now rewrite Hcr, (Hs0 cr Hcr).
      - apply (edge_before c b k t); [assumption|lia|lia]. }
    rewrite E. destruct (is_byte (byteBefore b (t - 1)) cr) eqn:Eb.
    - now rewrite (is_byte_before_length b _ _ Eb),
        (is_byte_before_length c _ _ E).
    - now rewrite !andb_false_r. }
  rewrite Htrim.
  destruct (negb (List.length b =? 0)%nat
            && is_byte (byteBefore b (t - 1)) cr) eqn:Et.
  - (* the carriage return before the terminator is trimmed *)
    assert (Hlt : s < t - 1).
    { apply andb_true_iff in Et as [_ Et].
      destruct (Nat.eq_dec (t - 1) s) as [E|E]; [|lia].
      rewrite E, (Hs0 cr Hcr) in Et. discriminate. }
    replace (k + (t - 1) - 1) with (k + (t - 1 - 1)) by lia.
    replace (k + (t - 1 - 1) - (k + s)) with (t - 1 - 1 - s) by lia.
    rewrite (parseLine_loop_agree c b k (t - 1 - 1)) by
      (try (apply (agree_le c b k t); [assumption|lia]); lia).
    pose proof (parseLine_loop_offset b (t - 1 - 1) (t - 1 - 1 - s) s false
                  s [] ltac:(lia)) as Ho.
    destruct (parseLine_loop (t - 1 - 1 - s) b s (t - 1 - 1) false s [])
      as [o cells]. cbn [fst snd] in *.
    apply lastCells_agree.
    + apply (agree_le c b k t); [assumption|lia].
    + assumption.
    + intros E. replace s with 0 in Hcomma by lia.
      now rewrite Nat.add_0_r in Hcomma.
  - replace (k + (t - 1) - (k + s)) with (t - 1 - s) by lia.
    rewrite (parseLine_loop_agree c b k (t - 1)) by
      (try (apply (agree_le c b k t); [assumption|lia]); lia).
    pose proof (parseLine_loop_offset b (t - 1) (t - 1 - s) s false
                  s [] ltac:(lia)) as Ho.
    destruct (parseLine_loop (t - 1 - s) b s (t - 1) false s [])
      as [o cells]. cbn [fst snd] in *.
    apply lastCells_agree.
    + apply (agree_le c b k t); [assumption|lia].
    + assumption.
    + intros E. replace s with 0 in Hcomma by lia.
      now rewrite Nat.add_0_r in Hcomma.
Qed.


(** *** The byte loop, resumed in another buffer *)

Lemma transform_loop_out (opts : options) (start fuel : nat) :
  forall (b : buffer) (i : nat) (st : state) (out : list event),
    transform_loop opts start fuel b i st out
    = (fst (transform_loop opts start fuel b i st []),
       out ++ snd (transform_loop opts start fuel b i st [])).
Proof.
  induction fuel as [|fuel IH]; intros b i st out.
  - simpl. now rewrite app_nil_r.
  - cbn [transform_loop].
    repeat match goal with
           | |- context [if ?x then _ else _] => destruct x
           end; try apply IH.
    all: destruct (parseLine opts _ b _ (i + 1)) as [st2 evs];
      rewrite (IH b (i + 1) _ (out ++ evs)), (IH b (i + 1) _ ([] ++ evs));
      cbn [fst snd app]; now rewrite app_assoc.
Qed.

Lemma transform_loop_add (opts : options) (start n m : nat) :
  forall (b : buffer) (i : nat) (st : state) (out : list event),
    transform_loop opts start (n + m) b i st out
    = transform_loop opts start m b (i + n)
        (fst (transform_loop opts start n b i st out))
        (snd (transform_loop opts start n b i st out)).
Proof.
  induction n as [|n IH]; intros b i st out.
  - simpl. now rewrite Nat.add_0_r.
  - cbn [Nat.add transform_loop].
    replace (i + S n) with (i + 1 + n) by lia.
    repeat match goal with
           | |- context [if ?x then _ else _] => destruct x
           end; try apply IH.
    all: destruct (parseLine opts _ b _ (i + 1)) as [st2 evs]; apply IH.
Qed.

(** Past the header line [parseLine] only counts the line. *)
Lemma parseLine_later (opts : options) (st : state) (b : buffer)
  (s e : nat) :
  first st = false ->
  let st1 := fst (parseLine opts st b s e) in
  escaped st1 = escaped st /\ first st1 = false
  /\ lineNumber st1 = S (lineNumber st)
  /\ previousEnd st1 = previousEnd st /\ quoted st1 = quoted st
  /\ newline st1 = newline st /\ headers st1 = headers st.
Proof.
  intros Hf. unfold parseLine. rewrite Hf. cbn [andb].
  repeat match goal with
         | |- context [if ?x then _ else _] => destruct x
         end; cbn; now rewrite ?Hf.
Qed.

Lemma parseLine_events (opts : options) (st st' : state) (c b : buffer)
  (s e s' e' : nat) :
  first st = false -> first st' = false ->
  lineNumber st' = lineNumber st ->
  headers st' = headers st ->
  lineCells c s e = lineCells b s' e' ->
  snd (parseLine opts st c s e) = snd (parseLine opts st' b s' e').
Proof.
  intros Hf Hf' Hln Hhs Hcells. unfold parseLine.
  rewrite Hf, Hf', Hln, Hhs, Hcells. cbn [andb].
  repeat match goal with
         | |- context [if ?x then _ else _] => destruct x
         end; reflexivity.
Qed.

Lemma resumes_scan (c b : buffer) (k i : nat) (st st' : state)
  (e1 q1 e1' q1' : bool) :
  resumes c b k i st st' ->
  xorb e1 q1 = xorb e1' q1' ->
  (e1 = true -> is_byte (byteAt c (k + (i + 1))) quote = true) ->
  (e1' = true -> is_byte (byteAt b (i + 1)) quote = true) ->
  resumes c b k (i + 1) (with_scan st e1 q1) (with_scan st' e1' q1').
Proof.
  intros (H1 & H2 & H3 & H4 & H5 & H6 & H7 & H8 & H9 & _) Hx He He'.
  unfold resumes. cbn [with_scan first newline headers lineNumber
                        previousEnd escaped quoted].
  repeat split; try assumption; try apply H9. lia.
Qed.

Lemma resumes_next (c b : buffer) (k i : nat) (st st' : state) :
  resumes c b k i st st' ->
  escaped st = false -> escaped st' = false ->
  resumes c b k (i + 1) st st'.
Proof.
  intros (H1 & H2 & H3 & H4 & H5 & H6 & H7 & H8 & H9 & H10 & _) He He'.
  unfold resumes. rewrite He, He' in *.
  repeat split; try assumption; try apply H9; try discriminate. lia.
Qed.

(** A line feed outside quotes ends the line in both runs. *)
Lemma resumes_line (opts : options) (c b : buffer) (k i : nat)
  (st st' : state) :
  agree c b k (List.length b) ->
  i < List.length b ->
  byteAt b i = Some nl ->
  resumes c b k i st st' ->
  escaped st = false -> escaped st' = false ->
  snd (parseLine opts st c (previousEnd st) (k + i + 1))
  = snd (parseLine opts st' b (previousEnd st') (i + 1))
  /\ resumes c b k (i + 1)
       (with_previousEnd
          (fst (parseLine opts st c (previousEnd st) (k + i + 1)))
          (k + i + 1))
       (with_previousEnd
          (fst (parseLine opts st' b (previousEnd st') (i + 1))) (i + 1)).
Proof.
  intros Hag Hi Hnl (H1 & H2 & H3 & H4 & H5 & H6 & H7 & H8 & H9 & H10 & _)
    He He'.
  split.
  - apply parseLine_events; try assumption.
    rewrite H7. replace (k + i + 1) with (k + (i + 1)) by lia.
    apply lineCells_agree.
    + apply (agree_le c b k (List.length b)); [assumption|lia].
    + lia.
    + now rewrite <- H7.
  - pose proof (parseLine_later opts st c (previousEnd st) (k + i + 1) H1)
      as (P1 & P2 & P3 & P4 & P5 & P6 & P7).
    pose proof (parseLine_later opts st' b (previousEnd st') (i + 1) H2)
      as (Q1 & Q2 & Q3 & Q4 & Q5 & Q6 & Q7).
    unfold resumes.
    cbn [with_previousEnd first newline headers lineNumber previousEnd
           escaped quoted].
    rewrite P1, P5, P6, P7, P3, Q1, Q5, Q6, Q7, Q3, He, He'.
    repeat split; try assumption; try congruence; try lia;
      try discriminate.
    + unfold edge. replace (k + i + 1) with (S (k + i)) by lia.
      cbn [byteBefore]. fold (byteAt c (k + i)).
      rewrite (Hag i Hi), Hnl. split; reflexivity.
    + unfold edge. replace (k + i + 1) with (S (k + i)) by lia.
      cbn [byteBefore]. fold (byteAt c (k + i)).
      rewrite (Hag i Hi), Hnl. reflexivity.
Qed.


(** The loop over the bytes of a buffer that holds the file from index
    [k] on does what the loop over the file does on the same bytes. *)
Lemma sim_loop (opts : options) (c b : buffer) (k start' : nat) :
  agree c b k (List.length b) ->
  forall (fuel i : nat) (st st' : state) (out : list event),
    i + fuel = List.length b ->
    0 < k + i ->
    resumes c b k i st st' ->
    exists st1',
      transform_loop opts start' fuel b i st' out
      = (st1', snd (transform_loop opts 0 fuel c (k + i) st out))
      /\ resumes c b k (List.length b)
           (fst (transform_loop opts 0 fuel c (k + i) st out)) st1'.
Proof.
  intros Hag. induction fuel as [|fuel IH]; intros i st st' out Hlen Hpos Hr.
  - exists st'. cbn [transform_loop fst snd]. split; [reflexivity|].
    now replace (List.length b) with i by lia.
  - assert (Hi : i < List.length b) by lia.
    destruct (byteAt b i) as [ch|] eqn:Eb;
      [|apply nth_error_None in Eb; lia].
    assert (Ec : byteAt c (k + i) = Some ch)
      by (now rewrite (Hag i Hi)).
    assert (Hstep : forall st2 st2' out2,
               resumes c b k (i + 1) st2 st2' ->
               exists st1',
                 transform_loop opts start' fuel b (i + 1) st2' out2
                 = (st1', snd (transform_loop opts 0 fuel c (k + i + 1)
                                 st2 out2))
                 /\ resumes c b k (List.length b)
                      (fst (transform_loop opts 0 fuel c (k + i + 1)
                              st2 out2)) st1').
    { intros st2 st2' out2 Hr2.
      replace (k + i + 1) with (k + (i + 1)) by lia.
      apply IH; [lia|lia|assumption]. }
    cbn [transform_loop]. rewrite Eb, Ec, !is_byte_Some.
    replace (k + i =? 0)%nat with false
      by (symmetry; apply Nat.eqb_neq; lia).
    pose proof Hr as (H1 & H2 & H3 & H4 & H5 & H6 & H7 & H8 & H9 & H10
                      & H11 & H12).
    rewrite Ec, is_byte_Some in H11. rewrite Eb, is_byte_Some in H12.
    destruct (Byte.eqb ch quote) eqn:Eq.
    + (* a quote: both runs count it *)
      destruct (is_byte (byteAt c (k + i + 1)) quote) eqn:Lc;
        destruct (is_byte (byteAt b (i + 1)) quote) eqn:Lb;
        destruct (i =? start')%nat;
        destruct (escaped st) eqn:E1, (quoted st) eqn:Q1,
          (escaped st') eqn:E2, (quoted st') eqn:Q2;
        try discriminate H10;
        cbn [negb andb]; apply Hstep; apply resumes_scan;
        try assumption; try reflexivity; try discriminate;
        try (intros _; replace (k + (i + 1)) with (k + i + 1) by lia;
             assumption).
    + (* another byte: neither run is between the quotes of a pair *)
      destruct (escaped st) eqn:E1; [now specialize (H11 eq_refl)|].
      destruct (escaped st') eqn:E2; [now specialize (H12 eq_refl)|].
      cbn [xorb] in H10. rewrite H10. cbn [negb andb].
      destruct (quoted st') eqn:Q2; cbn [negb].
      * apply Hstep. now apply resumes_next.
      * rewrite H1, H2, H3, H4.
        destruct (Byte.eqb ch nl) eqn:En.
        -- apply Byte.byte_dec_bl in En. subst ch.
           destruct (resumes_line opts c b k i st st' Hag Hi Eb Hr E1 E2)
             as [Hev Hr2].
           destruct (parseLine opts st c (previousEnd st) (k + i + 1))
             as [st2 evs].
           destruct (parseLine opts st' b (previousEnd st') (i + 1))
             as [st2' evs'].
           cbn [fst snd] in Hev, Hr2. subst evs'.
           now apply Hstep.
        -- apply Hstep. now apply resumes_next.
Qed.


(** *** One chunk *)

Lemma agree_skipn (c d y : buffer) (n : nat) :
  skipn n c = d ++ y -> agree c d n (List.length d).
Proof.
  intros H j Hj. unfold byteAt.
  rewrite <- nth_error_skipn, H. now apply nth_error_app1.
Qed.

Lemma agree_app (c u d y : buffer) (k : nat) :
  agree c u k (List.length u) ->
  skipn (k + List.length u) c = d ++ y ->
  agree c (u ++ d) k (List.length (u ++ d)).
Proof.
  intros Hu Hd j Hj. rewrite length_app in Hj.
  destruct (Nat.lt_ge_cases j (List.length u)) as [Hlt|Hge].
  - rewrite (Hu j Hlt). unfold byteAt. now rewrite nth_error_app1.
  - unfold byteAt. rewrite nth_error_app2 by assumption.
    replace (k + j) with (k + List.length u + (j - List.length u)) by lia.
    rewrite <- nth_error_skipn, Hd. apply nth_error_app1. lia.
Qed.

Lemma byteAt_length (b : buffer) (x : byte) :
  is_byte (byteAt b (List.length b)) x = false.
Proof.
  unfold byteAt.
  now replace (nth_error b (List.length b)) with (@None byte)
    by (symmetry; apply nth_error_None; lia).
Qed.

(** At the end of its buffer a run is not between the quotes of a
    pair. *)
Lemma resumes_end (c b : buffer) (k : nat) (st st' : state) :
  resumes c b k (List.length b) st st' -> escaped st' = false.
Proof.
  intros (_ & _ & _ & _ & _ & _ & _ & _ & _ & _ & _ & H).
  destruct (escaped st'); [|reflexivity].
  specialize (H eq_refl). now rewrite byteAt_length in H.
Qed.

Lemma resumes_extend (c u d : buffer) (k : nat) (st st' : state) :
  resumes c u k (List.length u) st st' ->
  resumes c (u ++ d) k (List.length u) st st'.
Proof.
  intros Hr. pose proof (resumes_end c u k st st' Hr) as He.
  destruct Hr as (H1 & H2 & H3 & H4 & H5 & H6 & H7 & H8 & H9 & H10 & H11
                  & _).
  unfold resumes. rewrite He. repeat split; try assumption.
  - apply H9.
  - apply H9.
  - now rewrite <- He.
  - discriminate.
Qed.

(** What [_transform] keeps for the next chunk once the loop has
    reached the end of the buffer [u ++ d], [d] being the chunk. *)
Lemma settle (c u d y : buffer) (k : nat) (st1 st1' : state) :
  agree c (u ++ d) k (List.length (u ++ d)) ->
  skipn (k + List.length u) c = d ++ y ->
  resumes c (u ++ d) k (List.length (u ++ d)) st1 st1' ->
  held c (k + List.length (u ++ d)) st1
    (if (previousEnd st1' =? List.length (u ++ d))%nat then
       {| this_state := with_previousEnd st1' 0; _prev := None |}
     else if (List.length (u ++ d) - previousEnd st1' <? List.length d)%nat
     then
       {| this_state :=
            with_previousEnd st1'
              (previousEnd st1'
               - (List.length (u ++ d) - List.length d));
          _prev := Some d |}
     else {| this_state := st1'; _prev := Some (u ++ d) |}).
Proof.
  intros Hag Hskip Hr.
  pose proof (resumes_end _ _ _ _ _ Hr) as He.
  pose proof Hr as (H1 & H2 & H3 & H4 & H5 & H6 & H7 & H8 & H9 & H10 & H11
                    & _).
  set (b := u ++ d) in *.
  assert (Hb : List.length b = List.length u + List.length d)
    by (unfold b; apply length_app).
  destruct (Nat.eqb_spec (previousEnd st1') (List.length b)) as [Epe|Epe].
  - exists (k + List.length b), []. cbn [List.length _prev this_state].
    repeat split; try assumption; try (left; now split);
      cbn [with_previousEnd previousEnd escaped quoted];
      try lia; try apply H9; try (intros j Hj; lia);
      try (rewrite He; discriminate).
    intros E. rewrite Nat.add_0_r. now apply H11.
  - destruct (Nat.ltb_spec (List.length b - previousEnd st1')
                (List.length d)) as [Hlt|Hge].
    + exists (k + List.length u), d. cbn [_prev this_state].
      repeat split; try assumption;
        try (right; split; [reflexivity|]);
        cbn [with_previousEnd previousEnd escaped quoted];
        try lia; try apply H9; try (now apply (agree_skipn c d y));
        try (rewrite He; discriminate).
      intros E. replace (k + List.length u + List.length d)
        with (k + List.length b) by lia. now apply H11.
    + exists k, b. cbn [_prev this_state].
      repeat split; try assumption;
        try (right; split; [reflexivity|lia]);
        try apply H9; try (rewrite He; discriminate).
Qed.

(** A chunk written to a transformer that holds the file up to index
    [n]: the transformer emits what the run over the file emits on the
    bytes of the chunk. *)
Lemma transform_held (opts : options) (c : buffer) (n : nat) (st : state)
  (p : parser) (d y : buffer) :
  held c n st p ->
  skipn n c = d ++ y ->
  0 < n ->
  exists p1,
    _transform opts p d
    = (p1, snd (transform_loop opts 0 (List.length d) c n st []))
    /\ held c (n + List.length d)
         (fst (transform_loop opts 0 (List.length d) c n st [])) p1.
Proof.
  intros (k & u & Hn & Hag & Hr & Hprev) Hskip Hpos. subst n.
  assert (Hshape :
            (match _prev p with
             | Some prev => List.length prev
             | None => 0
             end) = List.length u
            /\ (match _prev p with
                | Some prev => prev ++ d
                | None => d
                end) = u ++ d).
  { destruct Hprev as [[-> ->]|[-> _]]; split; reflexivity. }
  destruct Hshape as [Hstart Hbuf].
  unfold _transform. rewrite Hstart, Hbuf.
  pose proof (agree_app c u d y k Hag Hskip) as Hag'.
  destruct (sim_loop opts c (u ++ d) k (List.length u) Hag'
              (List.length d) (List.length u) st (this_state p) [])
    as (st1' & Hrun & Hr1);
    [now rewrite length_app|lia|now apply resumes_extend|].
  rewrite Hrun.
  pose proof (settle c u d y k _ st1' Hag' Hskip Hr1) as Hs.
  replace (k + List.length u + List.length d)
    with (k + List.length (u ++ d)) by (rewrite length_app; lia).
  destruct (previousEnd st1' =? List.length (u ++ d))%nat;
    [|destruct (List.length (u ++ d) - previousEnd st1'
                <? List.length d)%nat];
    (eexists; split; [reflexivity|exact Hs]).
Qed.


(** *** Chunk after chunk *)

(** The first chunk, when the header line ends in it: up to there the
    loop reads the chunk as it reads the file. *)
Lemma first_held (opts : options) (c d1 y : buffer) (h : nat)
  (sth : state) (evsh : list event) :
  c = d1 ++ y ->
  0 < h -> h <= List.length d1 ->
  transform_loop opts 0 h d1 0 initial [] = (sth, evsh) ->
  transform_loop opts 0 h c 0 initial [] = (sth, evsh) ->
  first sth = false -> newline sth = nl -> escaped sth = false ->
  previousEnd sth <= h -> edge c (previousEnd sth) ->
  exists p1,
    _transform opts created d1
    = (p1, snd (transform_loop opts 0 (List.length d1) c 0 initial []))
    /\ held c (List.length d1)
         (fst (transform_loop opts 0 (List.length d1) c 0 initial [])) p1.
Proof.
  intros Hc Hh Hle Hd1 Hcc Hf Hn He Hpe Hedge.
  assert (Ed : transform_loop opts 0 (List.length d1) d1 0 initial []
               = transform_loop opts 0 (List.length d1 - h) d1 h sth evsh).
  { replace (List.length d1) with (h + (List.length d1 - h)) at 1 by lia.
    now rewrite transform_loop_add, Hd1. }
  assert (Ec : transform_loop opts 0 (List.length d1) c 0 initial []
               = transform_loop opts 0 (List.length d1 - h) c h sth evsh).
  { replace (List.length d1) with (h + (List.length d1 - h)) at 1 by lia.
    now rewrite transform_loop_add, Hcc. }
  unfold _transform, created. cbn [_prev this_state]. rewrite Ed, Ec.
  assert (Hag : agree c ([] ++ d1) 0 (List.length ([] ++ d1)))
    by (subst c; apply (agree_middle [] d1 y)).
  destruct (sim_loop opts c ([] ++ d1) 0 0 Hag (List.length d1 - h) h
              sth sth evsh) as (st1' & Hrun & Hr1).
  - cbn [app]. lia.
  - lia.
  - unfold resumes. rewrite He.
    repeat split; try assumption; try apply Hedge; try discriminate.
  - cbn [app Nat.add] in Hrun, Hr1. rewrite Hrun.
    assert (Hskip : skipn (0 + List.length (@nil byte)) c = d1 ++ y)
      by (now subst c).
    pose proof (settle c [] d1 y 0 _ st1' Hag Hskip Hr1) as Hs.
    cbn [app Nat.add] in Hs.
    destruct (previousEnd st1' =? List.length d1)%nat;
      [|destruct (List.length d1 - previousEnd st1'
                  <? List.length d1)%nat];
      (eexists; split; [reflexivity|exact Hs]).
Qed.


Lemma write_held (opts : options) (c : buffer) :
  forall (ds : list buffer) (p : parser) (n : nat) (st : state)
         (out : list event),
    held c n st p ->
    skipn n c = List.concat ds ->
    0 < n ->
    (existsb is_error
       (snd (transform_loop opts 0 (List.length (List.concat ds)) c n st []))
     = false
     /\ exists pF,
          write opts p ds out
          = (Some pF,
             out ++ snd (transform_loop opts 0
                           (List.length (List.concat ds)) c n st []))
          /\ held c (n + List.length (List.concat ds))
               (fst (transform_loop opts 0
                       (List.length (List.concat ds)) c n st [])) pF)
    \/ (exists evs tail,
           write opts p ds out = (None, out ++ evs)
           /\ snd (transform_loop opts 0 (List.length (List.concat ds))
                     c n st [])
              = evs ++ tail
           /\ existsb is_error evs = true).
Proof.
  induction ds as [|d ds IH]; intros p n st out Hh Hskip Hn.
  - left. cbn [List.concat List.length transform_loop fst snd existsb write].
    split; [reflexivity|]. exists p.
    now rewrite app_nil_r, Nat.add_0_r.
  - cbn [List.concat] in *. rewrite length_app.
    rewrite transform_loop_add, transform_loop_out.
    destruct (transform_held opts c n st p d (List.concat ds) Hh Hskip Hn)
      as (p1 & Ht & Hh1).
    set (R1 := transform_loop opts 0 (List.length d) c n st []) in *.
    cbn [fst snd write]. rewrite Ht.
    destruct (existsb is_error (snd R1)) eqn:Eerr.
    + right. exists (snd R1), (snd (transform_loop opts 0
                                      (List.length (List.concat ds)) c
                                      (n + List.length d) (fst R1) [])).
      repeat split; assumption.
    + assert (Hskip1 : skipn (n + List.length d) c = List.concat ds).
      { rewrite Nat.add_comm, <- skipn_skipn, Hskip.
        rewrite skipn_app, skipn_all, Nat.sub_diag. reflexivity. }
      destruct (IH p1 (n + List.length d) (fst R1) (out ++ snd R1) Hh1
                  Hskip1 ltac:(lia))
        as [(Hno & pF & Hw & HhF)|(evs & tail & Hw & Hev & Herr)].
      * left. rewrite existsb_app, Eerr, Hno. split; [reflexivity|].
        exists pF. rewrite Hw, <- app_assoc, Nat.add_assoc.
        now split.
      * right. exists (snd R1 ++ evs), tail.
        rewrite Hw, Hev, existsb_app, Herr, orb_true_r, <- !app_assoc.
        now repeat split.
Qed.

(** When the source has ended: what the transformer flushes is what
    the run over the file flushes. *)
Lemma flush_held (opts : options) (c : buffer) (st : state) (p : parser) :
  held c (List.length c) st p ->
  _flush opts p
  = snd (if escaped st || (previousEnd st =? List.length c)%nat
         then (st, [])
         else parseLine opts st c (previousEnd st) (List.length c + 1)).
Proof.
  intros (k & u & Hn & Hag & Hr & Hprev).
  pose proof (resumes_end _ _ _ _ _ Hr) as He'.
  pose proof Hr as (H1 & H2 & H3 & H4 & H5 & H6 & H7 & H8 & H9 & H10 & H11
                    & _).
  assert (He : escaped st = false).
  { destruct (escaped st); [|reflexivity]. specialize (H11 eq_refl).
    rewrite <- Hn, byteAt_length in H11. discriminate. }
  rewrite He. cbn [orb]. unfold _flush.
  destruct Hprev as [[-> ->]|[-> Hlt]].
  - cbn [List.length] in *.
    replace (previousEnd st =? List.length c)%nat with true
      by (symmetry; apply Nat.eqb_eq; lia).
    reflexivity.
  - rewrite He'.
    replace (previousEnd st =? List.length c)%nat with false
      by (symmetry; apply Nat.eqb_neq; lia).
    symmetry. apply parseLine_events; try assumption.
    rewrite H7, Hn.
    replace (k + List.length u + 1) with (k + (List.length u + 1)) by lia.
    apply lineCells_agree.
    + intros j Hj.
      destruct (Nat.eq_dec j (List.length u)) as [->|Hne];
        [|apply Hag; lia].
      unfold byteAt.
      replace (nth_error u (List.length u)) with (@None byte)
        by (symmetry; apply nth_error_None; lia).
      apply nth_error_None. lia.
    + lia.
    + now rewrite <- H7.
Qed.

Lemma transform_loop_no_end (opts : options) (start fuel : nat) :
  forall (b : buffer) (i : nat) (st : state) (out : list event),
    ~ In End out ->
    ~ In End (snd (transform_loop opts start fuel b i st out)).
Proof.
  induction fuel as [|fuel IH]; intros b i st out Hout; [assumption|].
  cbn [transform_loop].
  repeat match goal with
         | |- context [if ?x then _ else _] => destruct x
         end; try now apply IH.
  all: destruct (parseLine opts _ b _ (i + 1)) as [st2 evs] eqn:Ep;
    apply IH; intros Hin; apply in_app_or in Hin as [Hin|Hin];
    [now apply Hout|];
    unfold parseLine in Ep;
    repeat match type of Ep with
           | context [if ?x then _ else _] => destruct x
           end;
    injection Ep as _ <-; cbn in Hin; intuition discriminate.
Qed.

Lemma error_prefix (rs : list Js.object) (m : string) :
  forall (evs tail more : list event),
    evs ++ tail = map Data rs ++ Error m :: more ->
    existsb is_error evs = true ->
    exists more', evs = map Data rs ++ Error m :: more'.
Proof.
  induction rs as [|r rs IH]; intros evs tail more E Herr.
  - destruct evs as [|e evs]; [discriminate|].
    injection E as -> _. now exists evs.
  - destruct evs as [|e evs]; [discriminate|].
    cbn [map app] in E. injection E as -> E.
    cbn [existsb is_error orb] in Herr.
    destruct (IH evs tail more E Herr) as [more' ->].
    now exists more'.
Qed.

(** The events of a file that is handed over in the chunks [d1 :: ds],
    the header line ending in [d1], against those of the same file
    handed over as one chunk: they are the same, unless an [error] is
    emitted during a chunk, which ends the chunked run after that
    chunk. *)
Lemma piped_cases (opts : options) (c d1 : buffer) (ds : list buffer)
  (h : nat) (sth : state) (evsh : list event) :
  List.concat (d1 :: ds) = c ->
  0 < h -> h <= List.length d1 ->
  transform_loop opts 0 h d1 0 initial [] = (sth, evsh) ->
  transform_loop opts 0 h c 0 initial [] = (sth, evsh) ->
  first sth = false -> newline sth = nl -> escaped sth = false ->
  previousEnd sth <= h -> edge c (previousEnd sth) ->
  piped opts (d1 :: ds) = piped opts [c]
  \/ (exists tail,
         piped opts [c] = piped opts (d1 :: ds) ++ tail
         /\ existsb is_error (piped opts (d1 :: ds)) = true
         /\ ~ In End (piped opts [c])).
Proof.
  intros Hcat Hh Hle Hd1 Hcc Hf Hn He Hpe Hedge.
  assert (Hc : c = d1 ++ List.concat ds) by (now rewrite <- Hcat).
  destruct (first_held opts c d1 (List.concat ds) h sth evsh Hc Hh Hle
              Hd1 Hcc Hf Hn He Hpe Hedge) as (p1 & Ht & Hh1).
  rewrite CsvParserFacts.piped_single.
  assert (Hlen : List.length c
                 = List.length d1 + List.length (List.concat ds))
    by (rewrite Hc; apply length_app).
  pose proof (transform_loop_no_end opts 0 (List.length c) c 0 initial []
                (fun H => H)) as Hnoend.
  rewrite Hlen in *. rewrite transform_loop_add, transform_loop_out in *.
  cbn [Nat.add] in *.
  set (R1 := transform_loop opts 0 (List.length d1) c 0 initial []) in *.
  set (R2 := transform_loop opts 0 (List.length (List.concat ds)) c
               (List.length d1) (fst R1) []) in *.
  cbn [fst snd] in *.
  unfold piped. cbn [write]. rewrite Ht. cbn [app].
  destruct (existsb is_error (snd R1)) eqn:Eerr.
  - right. rewrite existsb_app, Eerr. cbn [orb].
    exists (snd R2). repeat split; assumption.
  - assert (Hskip : skipn (List.length d1) c = List.concat ds).
    { rewrite Hc, skipn_app, skipn_all, Nat.sub_diag. reflexivity. }
    destruct (write_held opts c ds p1 (List.length d1) (fst R1) (snd R1)
                Hh1 Hskip ltac:(lia))
      as [(Hno & pF & Hw & HhF)|(evs & tail & Hw & Hev & Herr)].
    + left. fold R2 in Hno, Hw, HhF. rewrite Hw.
      rewrite existsb_app, Eerr, Hno. cbn [orb].
      rewrite <- Hlen in HhF.
      rewrite (flush_held opts c (fst R2) pF HhF).
      now rewrite Hlen.
    + right. fold R2 in Hev. rewrite Hw.
      rewrite !existsb_app, Eerr, Hev, existsb_app, Herr. cbn [orb].
      exists tail. rewrite <- app_assoc. repeat split.
      rewrite Hev in Hnoend. assumption.
Qed.

Lemma piped_chunks_end (opts : options) (c d1 : buffer)
  (ds : list buffer) (h : nat) (sth : state) (evsh evs : list event) :
  List.concat (d1 :: ds) = c ->
  0 < h -> h <= List.length d1 ->
  transform_loop opts 0 h d1 0 initial [] = (sth, evsh) ->
  transform_loop opts 0 h c 0 initial [] = (sth, evsh) ->
  first sth = false -> newline sth = nl -> escaped sth = false ->
  previousEnd sth <= h -> edge c (previousEnd sth) ->
  piped opts [c] = evs ++ [End] ->
  piped opts (d1 :: ds) = evs ++ [End].
Proof.
  intros Hcat Hh Hle Hd1 Hcc Hf Hn He Hpe Hedge Hone.
  destruct (piped_cases opts c d1 ds h sth evsh Hcat Hh Hle Hd1 Hcc Hf Hn
              He Hpe Hedge) as [->|(tail & _ & _ & Hno)]; [assumption|].
  exfalso. apply Hno. rewrite Hone.
  apply in_or_app. right. now left.
Qed.

Lemma piped_chunks_error (opts : options) (c d1 : buffer)
  (ds : list buffer) (h : nat) (sth : state) (evsh : list event)
  (rs : list Js.object) (m : string) (more : list event) :
  List.concat (d1 :: ds) = c ->
  0 < h -> h <= List.length d1 ->
  transform_loop opts 0 h d1 0 initial [] = (sth, evsh) ->
  transform_loop opts 0 h c 0 initial [] = (sth, evsh) ->
  first sth = false -> newline sth = nl -> escaped sth = false ->
  previousEnd sth <= h -> edge c (previousEnd sth) ->
  piped opts [c] = map Data rs ++ Error m :: more ->
  exists more', piped opts (d1 :: ds) = map Data rs ++ Error m :: more'.
Proof.
  intros Hcat Hh Hle Hd1 Hcc Hf Hn He Hpe Hedge Hone.
  destruct (piped_cases opts c d1 ds h sth evsh Hcat Hh Hle Hd1 Hcc Hf Hn
              He Hpe Hedge) as [->|(tail & Ht & Herr & _)];
    [now exists more|].
  rewrite Hone in Ht. symmetry in Ht.
  now apply (error_prefix rs m _ tail more).
Qed.

(** *** The chunks of a file *)

Lemma highWaterMark_pos : 0 < Fs.highWaterMark.
Proof.
  pose proof (N2Nat.id 65536) as H. fold Fs.highWaterMark in H.
  destruct Fs.highWaterMark; [discriminate H|lia].
Qed.

Lemma fits (n : nat) :
  (N.of_nat n <=? 65536)%N = true -> n <= Fs.highWaterMark.
Proof.
  intros H. apply N.leb_le in H. unfold Fs.highWaterMark.
  rewrite <- (Nat2N.id n). apply Nat.compare_le_iff.
  now rewrite <- N2Nat.inj_compare.
Qed.

Lemma wideName_length : List.length Sample.wideName + 1 = Fs.highWaterMark.
Proof.
  unfold Sample.wideName, Fs.highWaterMark. rewrite repeat_length.
  rewrite Nat.add_1_r, <- N2Nat.inj_succ. reflexivity.
Qed.

Lemma forallb_repeat (A : Type) (f : A -> bool) (x : A) (n : nat) :
  f x = true -> forallb f (repeat x n) = true.
Proof. intros H. induction n; simpl; [reflexivity|now rewrite H]. Qed.

Lemma wideName_plain : forallb plain Sample.wideName = true.
Proof. now apply forallb_repeat. Qed.

Lemma wideName_nonempty : Sample.wideName <> [].
Proof.
  unfold Sample.wideName. change 65535%N with (N.succ 65534).
  rewrite N2Nat.inj_succ. discriminate.
Qed.

(** From here on the size of a chunk is not computed. *)
Opaque Fs.highWaterMark.

Lemma chunks_nil (fuel : nat) : Fs.chunks fuel [] = [].
Proof. now destruct fuel. Qed.

Lemma chunks_concat (fuel : nat) :
  forall content : buffer,
    List.length content <= fuel ->
    List.concat (Fs.chunks fuel content) = content.
Proof.
  induction fuel as [|fuel IH]; intros content Hlen.
  - destruct content; [reflexivity|simpl in Hlen; lia].
  - destruct content as [|x content]; [reflexivity|].
    cbn [Fs.chunks List.concat]. rewrite IH; [apply firstn_skipn|].
    rewrite length_skipn. pose proof highWaterMark_pos.
    cbn [List.length] in Hlen |- *. lia.
Qed.

Lemma createReadStream_concat (content : buffer) :
  List.concat (Fs.createReadStream content) = content.
Proof. now apply chunks_concat. Qed.

Lemma createReadStream_small (content : buffer) :
  content <> [] ->
  List.length content <= Fs.highWaterMark ->
  Fs.createReadStream content = [content].
Proof.
  intros Hne Hlen. unfold Fs.createReadStream.
  destruct content as [|x content]; [congruence|].
  cbn [List.length Fs.chunks].
  now rewrite firstn_all2, skipn_all2, chunks_nil by assumption.
Qed.

Lemma createReadStream_first (content : buffer) :
  content <> [] ->
  exists ds,
    Fs.createReadStream content = firstn Fs.highWaterMark content :: ds.
Proof.
  intros Hne. unfold Fs.createReadStream.
  destruct content as [|x content]; [congruence|].
  cbn [List.length Fs.chunks]. eexists. reflexivity.
Qed.


(** *** The events of a file *)

Lemma pipe_nil (opts : options) : pipe opts [] = [End].
Proof. reflexivity. Qed.

(** A file of up to 64 KiB is one chunk. *)
Lemma pipe_small (opts : options) (c : buffer) :
  c <> [] ->
  List.length c <= Fs.highWaterMark ->
  pipe opts c = piped opts [c].
Proof.
  intros Hne Hlen. unfold pipe. now rewrite createReadStream_small.
Qed.

(** A longer file whose header line ends within the first chunk, [h]
    being the length of that line and [hs] the header names: what the
    file emits when it is handed over as one chunk decides what it
    emits when it is read chunk by chunk. *)
Lemma pipe_resumed (opts : options) (c : buffer) (h : nat)
  (hs : list string) :
  0 < h -> h <= Fs.highWaterMark -> h <= List.length c ->
  transform_loop opts 0 h (firstn Fs.highWaterMark c) 0 initial []
  = (lineState false 1 h hs, []) ->
  transform_loop opts 0 h c 0 initial [] = (lineState false 1 h hs, []) ->
  edge c h ->
  (forall evs, piped opts [c] = evs ++ [End] -> pipe opts c = evs ++ [End])
  /\ (forall rs m more,
         piped opts [c] = map Data rs ++ Error m :: more ->
         exists more', pipe opts c = map Data rs ++ Error m :: more').
Proof.
  intros Hh Hhw Hhc Hd1 Hc Hedge.
  assert (Hne : c <> []) by (intros ->; simpl in Hhc; lia).
  destruct (createReadStream_first c Hne) as [ds Eds].
  assert (Hcat : List.concat (firstn Fs.highWaterMark c :: ds) = c)
    by (rewrite <- Eds; apply createReadStream_concat).
  assert (Hle : h <= List.length (firstn Fs.highWaterMark c))
    by (rewrite length_firstn; now apply Nat.min_glb).
  unfold pipe. rewrite Eds. split.
  - intros evs Hone.
    apply (piped_chunks_end opts c _ ds h (lineState false 1 h hs) []);
      try assumption; try reflexivity.
  - intros rs m more Hone.
    apply (piped_chunks_error opts c _ ds h (lineState false 1 h hs) []
             rs m more);
      try assumption; try reflexivity.
Qed.


(** *** Files of written rows, read chunk by chunk *)

Lemma firstn_line (line rest : buffer) :
  List.length line <= Fs.highWaterMark ->
  firstn Fs.highWaterMark (line ++ rest)
  = line ++ firstn (Fs.highWaterMark - List.length line) rest.
Proof. intros H. now rewrite firstn_app, firstn_all2. Qed.

(** A file that starts with a header line of up to 64 KiB. *)
Lemma pipe_after_header (opts : options) (line rest : buffer)
  (hs : list string) :
  0 < List.length line ->
  List.length line <= Fs.highWaterMark ->
  (forall rest',
      transform_loop opts 0 (List.length line) (line ++ rest') 0 initial []
      = (lineState false 1 (List.length line) hs, [])) ->
  lineStart line ->
  (forall evs,
      piped opts [line ++ rest] = evs ++ [End] ->
      pipe opts (line ++ rest) = evs ++ [End])
  /\ (forall rs m more,
         piped opts [line ++ rest] = map Data rs ++ Error m :: more ->
         exists more',
           pipe opts (line ++ rest) = map Data rs ++ Error m :: more').
Proof.
  intros Hpos Hle Hrun [Hcr Hcomma].
  apply (pipe_resumed opts (line ++ rest) (List.length line) hs);
    try assumption.
  - rewrite length_app. lia.
  - rewrite firstn_line by assumption. apply Hrun.
  - apply Hrun.
  - unfold edge. now rewrite byteBefore_app.
Qed.

Lemma header_read (crlf : bool) (header : list cell) (rest : buffer) :
  rowOk header ->
  transform_loop Server.parserOptions 0
    (List.length (Csv.line crlf (spellings header)))
    (Csv.line crlf (spellings header) ++ rest) 0 initial []
  = (lineState false 1 (List.length (Csv.line crlf (spellings header)))
       (values header), []).
Proof.
  intros Hok.
  change initial with (lineState true 0 (List.length (@nil byte)) []).
  change (transform_loop Server.parserOptions 0
            (List.length (Csv.line crlf (spellings header)))
            (Csv.line crlf (spellings header) ++ rest) 0)
    with (transform_loop Server.parserOptions 0
            (List.length (Csv.line crlf (spellings header)))
            (Csv.line crlf (spellings header) ++ rest)
            (List.length (@nil byte))).
  rewrite (QuotedCells.transform_loop_qheader crlf header _ [] rest);
    [ | reflexivity | assumption | apply lineStart_nil | lia ].
  now rewrite Nat.sub_diag.
Qed.

Lemma line_pos (crlf : bool) (r : row) : 0 < List.length (Csv.line crlf r).
Proof. rewrite length_line. destruct crlf; lia. Qed.

Lemma line_fits (crlf : bool) (r : row) :
  List.length (joinCells r) + 2 <= Fs.highWaterMark ->
  List.length (Csv.line crlf r) <= Fs.highWaterMark.
Proof. rewrite length_line. destruct crlf; lia. Qed.

Lemma lines_nonempty (crlf : bool) (r : row) (rows : list row) :
  Csv.lines crlf (r :: rows) <> [].
Proof.
  unfold Csv.lines. cbn [map List.concat]. intros E.
  apply (f_equal (@List.length byte)) in E. rewrite length_app in E.
  pose proof (line_pos crlf r). simpl in E. lia.
Qed.

(** The events of a file of written rows: one [data] per row, holding
    what the cells hold, then [end]. *)
Lemma pipe_qfile (crlf : bool) (header : list cell)
  (rows : list (list cell)) :
  Forall rowOk (header :: rows) ->
  Forall (fun r => List.length r = List.length header) rows ->
  firstRead (Csv.lines crlf (map spellings (header :: rows)))
    (spellings header) ->
  pipe Server.parserOptions (Csv.lines crlf (map spellings (header :: rows)))
  = map (fun r => Data (writeRow (values header) (values r))) rows
    ++ [End].
Proof.
  intros Hwf Hlen [Hsmall|Hfits].
  - rewrite pipe_small by (assumption || apply lines_nonempty).
    now apply QuotedCells.piped_qfile.
  - pose proof (QuotedCells.piped_qfile crlf header rows Hwf Hlen) as Hone.
    unfold Csv.lines in *. cbn [map List.concat] in *.
    apply (pipe_after_header Server.parserOptions _ _ (values header));
      try assumption.
    + apply line_pos.
    + now apply line_fits.
    + intros rest'. apply header_read. apply (Forall_inv Hwf).
    + apply lineStart_line with (pre := []).
Qed.

Lemma unterminated_rows (crlf : bool) (header : row) (rows : list row) :
  rows <> [] ->
  Csv.unterminated crlf header rows
  = Csv.line crlf header
    ++ Csv.lines crlf (removelast rows) ++ joinCells (last rows []).
Proof.
  intros Hne. unfold Csv.unterminated, Csv.lines.
  destruct rows as [|r rows]; [congruence|].
  cbn [removelast last map List.concat]. now rewrite <- app_assoc.
Qed.

Lemma pipe_qunterminated (crlf : bool) (header : list cell)
  (rows : list (list cell)) :
  Forall rowOk (header :: rows) ->
  Forall (fun r => List.length r = List.length header) rows ->
  header <> [] ->
  firstRead (Csv.unterminated crlf (spellings header) (map spellings rows))
    (spellings header) ->
  pipe Server.parserOptions
    (Csv.unterminated crlf (spellings header) (map spellings rows))
  = map (fun r => Data (writeRow (values header) (values r))) rows
    ++ [End].
Proof.
  intros Hwf Hlen Hne Hread.
  pose proof (QuotedCells.piped_qunterminated crlf header rows Hwf Hlen Hne)
    as Hone.
  assert (Hcne : Csv.unterminated crlf (spellings header)
                   (map spellings rows) <> []).
  { destruct rows as [|r rows].
    - unfold Csv.unterminated. cbn [map removelast last Csv.lines
                                      List.concat app].
      apply QuotedCells.spellings_nonempty; [assumption|].
      apply (Forall_inv Hwf).
    - rewrite unterminated_rows by discriminate.
      intros E. apply (f_equal (@List.length byte)) in E.
      rewrite length_app in E.
      pose proof (line_pos crlf (spellings header)). simpl in E. lia. }
  assert (Hcase : List.length (Csv.unterminated crlf (spellings header)
                                 (map spellings rows))
                  <= Fs.highWaterMark
                  \/ (rows <> []
                      /\ List.length (joinCells (spellings header)) + 2
                         <= Fs.highWaterMark)).
  { destruct Hread as [H|H]; [now left|].
    destruct rows as [|r rows]; [left|right; split; [discriminate|exact H]].
    unfold Csv.unterminated. cbn [map removelast last Csv.lines
                                    List.concat app]. lia. }
  destruct Hcase as [Hsmall|[Hrows Hfits]].
  - now rewrite pipe_small.
  - assert (Hmap : map spellings rows <> [])
      by (destruct rows; [congruence|discriminate]).
    rewrite unterminated_rows in * by assumption.
    apply (pipe_after_header Server.parserOptions _ _ (values header));
      try assumption.
    + apply line_pos.
    + now apply line_fits.
    + intros rest'. apply header_read. apply (Forall_inv Hwf).
    + apply lineStart_line with (pre := []).
Qed.

(** The bytes of a table, as [Csv.encodes] has them. *)
Lemma pipe_encoded (c : buffer) (header : list cell)
  (rows : list (list cell)) :
  encodes c (spellings header) (map spellings rows) ->
  Forall rowOk (header :: rows) ->
  Forall (fun r => List.length r = List.length header) rows ->
  firstRead c (spellings header) ->
  pipe Server.parserOptions c
  = map (fun r => Data (writeRow (values header) (values r))) rows
    ++ [End].
Proof.
  intros [crlf [->|[Hne ->]]] Hwf Hlen Hread.
  - now apply pipe_qfile.
  - apply pipe_qunterminated; try assumption.
    intros ->. now apply Hne.
Qed.

(** A row of another length than the header is reported, whatever
    follows it. *)
Lemma pipe_qmismatch (crlf : bool) (header : list cell)
  (rows : list (list cell)) (bad : list cell) (rest : buffer) :
  Forall rowOk (header :: bad :: rows) ->
  Forall (fun r => List.length r = List.length header) rows ->
  List.length bad <> List.length header ->
  firstRead (Csv.lines crlf (map spellings (header :: rows))
             ++ Csv.line crlf (spellings bad) ++ rest)
    (spellings header) ->
  exists more,
    pipe Server.parserOptions
      (Csv.lines crlf (map spellings (header :: rows))
       ++ Csv.line crlf (spellings bad) ++ rest)
    = map (fun r => Data (writeRow (values header) (values r))) rows
      ++ Error rowLengthError :: more.
Proof.
  intros Hwf Hlen Hbad Hread.
  destruct (QuotedCells.piped_qmismatch crlf header rows bad rest Hwf Hlen
              Hbad) as [more Hone].
  destruct Hread as [Hsmall|Hfits].
  - exists more. rewrite pipe_small; [assumption| |assumption].
    intros E. apply (f_equal (@List.length byte)) in E.
    rewrite !length_app in E.
    pose proof (line_pos crlf (spellings bad)). simpl in E. lia.
  - unfold Csv.lines in *. cbn [map List.concat] in *.
    rewrite <- !app_assoc in *.
    rewrite <- (map_map (fun r => writeRow (values header) (values r)) Data)
      in *.
    destruct (pipe_after_header Server.parserOptions
                (Csv.line crlf (spellings header))
                (List.concat (map (Csv.line crlf) (map spellings rows))
                 ++ Csv.line crlf (spellings bad) ++ rest)
                (values header)) as [_ Herr].
    + apply line_pos.
    + apply line_fits, Hfits.
    + intros rest'. apply header_read. apply (Forall_inv Hwf).
    + apply lineStart_line with (pre := []).
    + apply (Herr _ _ _ Hone).
Qed.


(** *** A header line that ends on a chunk boundary

    When the carriage return that ends the header line is the last
    byte of the first chunk, the loop does not see the line feed after
    it: the carriage return becomes the line terminator. *)

Lemma chunks_cons (fuel : nat) (x : byte) (content : buffer) :
  Fs.chunks (S fuel) (x :: content)
  = firstn Fs.highWaterMark (x :: content)
    :: Fs.chunks fuel (skipn Fs.highWaterMark (x :: content)).
Proof. reflexivity. Qed.

Lemma createReadStream_two (a tail : buffer) :
  List.length a = Fs.highWaterMark ->
  tail <> [] ->
  List.length tail <= Fs.highWaterMark ->
  Fs.createReadStream (a ++ tail) = [a; tail].
Proof.
  intros Ha Hne Hlen. pose proof highWaterMark_pos as Hpos.
  unfold Fs.createReadStream. rewrite length_app.
  destruct a as [|x a]; [simpl in Ha; lia|].
  destruct tail as [|y tail]; [congruence|].
  cbn [List.length Nat.add app]. rewrite Nat.add_succ_r.
  rewrite chunks_cons.
  change (x :: a ++ y :: tail) with ((x :: a) ++ y :: tail).
  rewrite firstn_app, skipn_app, Ha, Nat.sub_diag.
  rewrite <- Ha at 1 2. rewrite firstn_all, skipn_all, app_nil_r.
  cbn [firstn skipn app]. rewrite chunks_cons.
  now rewrite firstn_all2, skipn_all2, chunks_nil by assumption.
Qed.

(** The state the first chunk leaves. *)
Lemma transform_cut (opts : options) (a : buffer) :
  skipLines opts = 0 ->
  forallb plain a = true ->
  a <> [] ->
  _transform opts created (a ++ [cr])
  = ({| this_state :=
          {| escaped := false; first := false; lineNumber := 1;
             previousEnd := 0; quoted := false; newline := cr;
             headers := [toString a] |};
        _prev := None |}, []).
Proof.
  intros Hskip Ha Hne.
  set (b := a ++ [cr]).
  assert (Hb : b = [] ++ a ++ [cr]) by reflexivity.
  assert (Hlen : List.length b = List.length a + 1)
    by (unfold b; rewrite length_app; reflexivity).
  assert (Hrun : transform_loop opts 0 (List.length b) b 0 initial []
                 = ({| escaped := false; first := false; lineNumber := 1;
                       previousEnd := List.length b; quoted := false;
                       newline := cr; headers := [toString a] |}, [])).
  { rewrite Hlen at 1.
    change initial with (lineState true 0 0 []).
    change (transform_loop opts 0 (List.length a + 1) b 0)
      with (transform_loop opts 0 (List.length a + 1) b
              (List.length (@nil byte))).
    rewrite (transform_loop_scan opts 0 a b [] [cr] _ true 0 0 [] [] Hb);
      [|now apply QuotedCells.plain_inert|lia].
    replace (List.length a + 1 - List.length a) with 1 by lia.
    cbn [List.length Nat.add transform_loop].
    assert (Hat : byteAt b (List.length a) = Some cr)
      by (unfold b; apply byteAt_app_cons).
    assert (Hnext : byteAt b (List.length a + 1) = None).
    { unfold byteAt. apply nth_error_None. lia. }
    rewrite Hat, Hnext, !is_byte_Some.
    change (Byte.eqb cr quote) with false.
    change (Byte.eqb cr nl) with false.
    change (Byte.eqb cr cr) with true.
    cbn [lineState escaped quoted first negb andb is_byte with_newline
           newline previousEnd].
    change (Byte.eqb cr cr) with true. cbv iota.
    unfold parseLine. rewrite Hskip.
    cbn [first lineNumber Nat.eqb negb andb with_previousEnd escaped
           previousEnd quoted newline headers app].
    assert (Hcells : lineCells b 0 (List.length a + 1) = [toString a]).
    { apply (lineCells_plain [a] b [] [cr]);
        [exact Hb| |apply lineStart_nil].
      split; [now constructor|]. intros E. injection E as ->.
      now apply Hne. }
    rewrite Hcells, Hlen. reflexivity. }
  unfold _transform, created. cbn [_prev this_state]. fold b.
  rewrite Hrun. cbn [previousEnd]. rewrite Nat.eqb_refl. reflexivity.
Qed.

(** The file is the first chunk, which ends with the carriage return
    of the header line, and one more chunk. *)
Lemma pipe_cut (opts : options) (a tail : buffer) :
  skipLines opts = 0 ->
  List.length a + 1 = Fs.highWaterMark ->
  forallb plain a = true ->
  a <> [] ->
  tail <> [] ->
  List.length tail <= Fs.highWaterMark ->
  pipe opts (a ++ cr :: tail)
  = let '(p2, evs) :=
      _transform opts
        {| this_state :=
             {| escaped := false; first := false; lineNumber := 1;
                previousEnd := 0; quoted := false; newline := cr;
                headers := [toString a] |};
           _prev := None |} tail in
    if existsb is_error evs then evs
    else evs ++ _flush opts p2 ++ [End].
Proof.
  intros Hskip Hlen Ha Hne Htail Hfit. unfold pipe.
  change (a ++ cr :: tail) with (a ++ [cr] ++ tail).
  rewrite app_assoc, createReadStream_two;
    [ | rewrite length_app; exact Hlen | assumption | assumption ].
  unfold piped. cbn [write].
  rewrite (transform_cut opts a Hskip Ha Hne). cbn [existsb app].
  destruct (_transform opts _ tail) as [p2 evs].
  now destruct (existsb is_error evs).
Qed.

(** What the second chunk gives, [k] being the one header name: the
    data lines now end at their carriage returns and start with the
    line feed of the line before, and the last line feed is a line of
    its own. *)
Lemma cut_rows (k : string) :
  (let '(p2, evs) :=
     _transform Server.parserOptions
       {| this_state :=
            {| escaped := false; first := false; lineNumber := 1;
               previousEnd := 0; quoted := false; newline := cr;
               headers := [k] |};
          _prev := None |}
       [nl; "1"%byte; cr; nl; "2"%byte; cr; nl] in
   if existsb is_error evs then evs
   else evs ++ _flush Server.parserOptions p2 ++ [End])
  = [Data (writeRow [k] [String "010" "1"]);
     Data (writeRow [k] [String "010" "2"]);
     Data (writeRow [k] [String "010" ""]);
     End].
Proof. reflexivity. Qed.

Lemma cut_header (k : string) :
  (let '(p2, evs) :=
     _transform Server.parserOptions
       {| this_state :=
            {| escaped := false; first := false; lineNumber := 1;
               previousEnd := 0; quoted := false; newline := cr;
               headers := [k] |};
          _prev := None |}
       [nl] in
   if existsb is_error evs then evs
   else evs ++ _flush Server.parserOptions p2 ++ [End])
  = [Data (writeRow [k] [String "010" ""]); End].
Proof. reflexivity. Qed.

Lemma wideTable_bytes :
  Sample.wideTable
  = Sample.wideName ++ cr :: [nl; "1"%byte; cr; nl; "2"%byte; cr; nl].
Proof.
  unfold Sample.wideTable, Csv.file, Csv.lines, Csv.line.
  cbn [map List.concat joinCells Csv.eol]. now rewrite <- !app_assoc.
Qed.

Lemma wideHeader_bytes : Sample.wideHeader = Sample.wideName ++ cr :: [nl].
Proof.
  unfold Sample.wideHeader, Csv.file, Csv.lines, Csv.line.
  cbn [map List.concat joinCells Csv.eol]. now rewrite <- !app_assoc.
Qed.

Lemma pipe_wideTable :
  pipe Server.parserOptions Sample.wideTable
  = [Data (writeRow [toString Sample.wideName] [String "010" "1"]);
     Data (writeRow [toString Sample.wideName] [String "010" "2"]);
     Data (writeRow [toString Sample.wideName] [String "010" ""]);
     End].
Proof.
  rewrite wideTable_bytes, pipe_cut.
  - apply cut_rows.
  - reflexivity.
  - apply wideName_length.
  - apply wideName_plain.
  - apply wideName_nonempty.
  - discriminate.
  - apply fits. reflexivity.
Qed.

Lemma pipe_wideHeader :
  pipe Server.parserOptions Sample.wideHeader
  = [Data (writeRow [toString Sample.wideName] [String "010" ""]); End].
Proof.
  rewrite wideHeader_bytes, pipe_cut.
  - apply cut_header.
  - reflexivity.
  - apply wideName_length.
  - apply wideName_plain.
  - apply wideName_nonempty.
  - discriminate.
  - apply fits. reflexivity.
Qed.


Transparent Fs.highWaterMark.

End ChunkFacts.

(** ** JavaScript objects built from headers *)

Module JsFacts.

Import Js.

Lemma assign_fresh (o : object) (k v : string) :
  ~ In k (map fst o) -> assign o k v = o ++ [(k, v)].
Proof.
  induction o as [|[k' v'] o IH]; intros Hk; [reflexivity|].
  simpl in *. destruct (String.eqb_spec k' k) as [->|_]; [tauto|].
  now rewrite IH by tauto.
Qed.

Lemma reserved_proto (k : string) :
  CsvParser.reserved k = false -> String.eqb k "__proto__" = false.
Proof.
  unfold CsvParser.reserved. intros H.
  now destruct (String.eqb k "__proto__").
Qed.

Lemma set_fresh (o : object) (k v : string) :
  ordinaryName k -> ~ In k (map fst o) -> set o k v = o ++ [(k, v)].
Proof.
  intros [_ Hp] Hk. unfold set. rewrite (reserved_proto k Hp).
  now apply assign_fresh.
Qed.

Lemma writeRow_from_ordinary (hs : list string) :
  forall (cells : list string) (index : nat) (o : object),
    List.length cells = List.length hs ->
    NoDup hs ->
    Forall ordinaryName hs ->
    (forall k, In k hs -> ~ In k (map fst o)) ->
    CsvParser.writeRow_from index hs cells o = o ++ combine hs cells.
Proof.
  induction hs as [|h hs IH]; intros cells index o Hlen Hnd Hord Hfresh.
  - destruct cells; [|discriminate]. simpl. now rewrite app_nil_r.
  - destruct cells as [|cell cells]; [discriminate|].
    simpl in Hlen. injection Hlen as Hlen.
    cbn [CsvParser.writeRow_from combine].
    rewrite (proj2 (Forall_inv Hord)).
    rewrite set_fresh
      by (try apply (Forall_inv Hord); apply Hfresh; now left).
    rewrite IH; try assumption.
    + now rewrite <- app_assoc.
    + now inversion Hnd.
    + apply (Forall_inv_tail Hord).
    + intros k Hk. rewrite map_app, in_app_iff. simpl.
      intros [Hin|[Heq|[]]].
      * apply (Hfresh k); [now right|assumption].
      * subst k. now inversion Hnd.
Qed.

Lemma entries_named (o : object) :
  Forall (fun kv => arrayIndex (fst kv) = None) o -> entries o = o.
Proof.
  intros H. unfold entries.
  assert (Hi : indexProps o = []).
  { induction o as [|[k v] o IH]; [reflexivity|].
    simpl. pose proof (Forall_inv H) as Hk. simpl in Hk. rewrite Hk.
    apply IH, (Forall_inv_tail H). }
  rewrite Hi. simpl. unfold namedProps.
  induction o as [|[k v] o IH]; [reflexivity|].
  simpl. pose proof (Forall_inv H) as Hk. simpl in Hk. rewrite Hk.
  f_equal. apply IH; [apply (Forall_inv_tail H)|].
  clear IH. pose proof (Forall_inv_tail H) as H'.
  clear - H'. induction o as [|[k' v'] o IH]; [reflexivity|].
  simpl. pose proof (Forall_inv H') as Hk. simpl in Hk. rewrite Hk.
  apply IH, (Forall_inv_tail H').
Qed.

Lemma combine_named (hs cells : list string) :
  Forall ordinaryName hs ->
  Forall (fun kv => arrayIndex (fst kv) = None) (combine hs cells).
Proof.
  intros H. revert cells.
  induction hs as [|h hs IH]; intros cells; [constructor|].
  destruct cells as [|c cells]; [constructor|].
  simpl. constructor.
  - apply (Forall_inv H).
  - apply IH, (Forall_inv_tail H).
Qed.

(** With distinct ordinary header names the row object lists the
    header names in header order, each with the cell of its column. *)
Lemma json_of_writeRow (hs cells : list string) :
  List.length cells = List.length hs ->
  NoDup hs ->
  Forall ordinaryName hs ->
  json_of_object (CsvParser.writeRow hs cells)
  = JObj (combine hs (map JStr cells)).
Proof.
  intros Hlen Hnd Hord. unfold json_of_object, CsvParser.writeRow.
  rewrite writeRow_from_ordinary by (auto; intros k _ []).
  cbn [app]. rewrite entries_named by now apply combine_named.
  f_equal. clear. revert cells.
  induction hs as [|h hs IH]; intros [|c cells]; simpl; try reflexivity.
  now rewrite IH.
Qed.

End JsFacts.

(** ** The uploads directory *)

Module FsFacts.

Import Fs.

Lemma lookup_None_names (name : string) (st : store) :
  ~ In name (readdirSync st) -> lookup name st = None.
Proof.
  induction st as [|[n e] st IH]; intros H; simpl in *; [reflexivity|].
  destruct (String.eqb_spec n name) as [->|_]; [tauto|]. apply IH. tauto.
Qed.

Lemma lookup_names (name : string) (e : entry) (st : store) :
  lookup name st = Some e -> In name (readdirSync st).
Proof.
  induction st as [|[n en] st IH]; intros H; simpl in *; [discriminate|].
  destruct (String.eqb_spec n name) as [->|_]; [now left|].
  right. now apply IH.
Qed.

Lemma lookup_absent (name : string) (st : store) :
  lookup name st = None -> ~ In name (readdirSync st).
Proof.
  induction st as [|[n en] st IH]; intros H; simpl in *; [tauto|].
  destruct (String.eqb_spec n name) as [->|Hne]; [discriminate|].
  intros [F|F]; [contradiction|]. now apply IH.
Qed.

Lemma lookup_overwrite (name : string) (e e0 : entry) (st : store) :
  lookup name st = Some e0 -> lookup name (overwrite name e st) = Some e.
Proof.
  induction st as [|[n en] st IH]; intros H; simpl in *; [discriminate|].
  destruct (String.eqb n name) eqn:En; simpl; rewrite En; [reflexivity|].
  now apply IH.
Qed.

Lemma lookup_insert (name : string) (e : entry) (st : store) :
  lookup name st = None -> lookup name (insert name e st) = Some e.
Proof.
  induction st as [|[n en] st IH]; intros H; simpl in *.
  - now rewrite String.eqb_refl.
  - destruct (String.eqb n name) eqn:En; [discriminate|].
    destruct (String.ltb name n); simpl.
    + now rewrite String.eqb_refl.
    + rewrite En. now apply IH.
Qed.

Lemma lookup_writeFile (name : string) (c : buffer) (st st1 : store) :
  writeFile name c st = Some st1 ->
  lookup name st1 = Some (RegularFile c).
Proof.
  unfold writeFile. intros H.
  destruct (lookup name st) as [[c0|]|] eqn:E; [| discriminate |];
    injection H as <-.
  - now apply (lookup_overwrite name _ (RegularFile c0)).
  - now apply lookup_insert.
Qed.

Lemma writeFile_succeeds (name : string) (c : buffer) (st : store) :
  lookup name st <> Some Directory ->
  exists st1, writeFile name c st = Some st1.
Proof.
  unfold writeFile. intros H.
  destruct (lookup name st) as [[c0|]|]; eauto. congruence.
Qed.

(** A name that is not listed is written as a new entry. *)
Lemma writeFile_absent (name : string) (c : buffer) (st : store) :
  lookup name st = None ->
  writeFile name c st = Some (insert name (RegularFile c) st).
Proof. unfold writeFile. now intros ->. Qed.

Lemma unlink_regular (name : string) (c : buffer) (st : store) :
  lookup name st = Some (RegularFile c) ->
  exists st', unlink name st = Some st'.
Proof.
  induction st as [|[n e] st IH]; intros H; simpl in *; [discriminate|].
  destruct (String.eqb n name).
  - injection H as ->. simpl. eauto.
  - destruct (IH H) as [st' ->]. eauto.
Qed.

Lemma unlink_missing (name : string) (st : store) :
  lookup name st = None -> unlink name st = None.
Proof.
  induction st as [|[n en] st IH]; intros H; simpl in *; [reflexivity|].
  destruct (String.eqb n name); [discriminate|]. now rewrite IH.
Qed.

(** Removing the entry that was just created gives the directory as it
    was. *)
Lemma unlink_insert (name : string) (c : buffer) (st : store) :
  lookup name st = None ->
  unlink name (insert name (RegularFile c) st) = Some st.
Proof.
  induction st as [|[n en] st IH]; intros H; simpl in *.
  - now rewrite String.eqb_refl.
  - destruct (String.eqb n name) eqn:En; [discriminate|].
    destruct (String.ltb name n); simpl.
    + now rewrite String.eqb_refl.
    + rewrite En. now rewrite IH.
Qed.

Lemma unlink_names (name : string) (st st' : store) :
  unlink name st = Some st' ->
  forall n, In n (readdirSync st') -> In n (readdirSync st).
Proof.
  revert st'. induction st as [|[k e] st IH]; intros st' H n Hn;
    simpl in H; [discriminate|].
  destruct (String.eqb k name).
  - destruct (is_regular e); [|discriminate].
    injection H as <-. now right.
  - destruct (unlink name st) as [st1|]; [|discriminate].
    injection H as <-. simpl in *. destruct Hn as [->|Hn]; [now left|].
    right. now apply (IH st1).
Qed.

(** In a directory (no two entries of one name) a removed file is gone. *)
Lemma unlink_removes (name : string) (st st' : store) :
  NoDup (readdirSync st) ->
  unlink name st = Some st' ->
  lookup name st' = None /\ NoDup (readdirSync st').
Proof.
  revert st'. induction st as [|[k e] st IH]; intros st' Hnd H;
    simpl in H; [discriminate|].
  simpl in Hnd. inversion Hnd as [|? ? Hk Hnd']; subst.
  destruct (String.eqb_spec k name) as [->|Hne].
  - destruct (is_regular e); [|discriminate].
    injection H as <-. split; [now apply lookup_None_names|assumption].
  - destruct (unlink name st) as [st1|] eqn:Eu; [|discriminate].
    injection H as <-. destruct (IH st1 Hnd' eq_refl) as [Hl Hn].
    split.
    + simpl. destruct (String.eqb_spec k name); [congruence|assumption].
    + simpl. constructor; [|assumption].
      intros Hin. apply Hk. now apply (unlink_names name st st1).
Qed.

Lemma readdirSync_overwrite (name : string) (e : entry) (st : store) :
  readdirSync (overwrite name e st) = readdirSync st.
Proof.
  induction st as [|[n en] st IH]; [reflexivity|]. simpl.
  destruct (String.eqb n name); simpl; [reflexivity|].
  f_equal. exact IH.
Qed.

Lemma readdirSync_insert (name : string) (e : entry) (st : store) :
  Permutation (readdirSync (insert name e st)) (name :: readdirSync st).
Proof.
  induction st as [|[n en] st IH]; [reflexivity|]. simpl.
  destruct (String.ltb name n); simpl; [reflexivity|].
  rewrite IH. apply perm_swap.
Qed.

Lemma writeFile_names (name : string) (c : buffer) (st st1 : store) :
  writeFile name c st = Some st1 ->
  forall n, In n (readdirSync st1) -> n = name \/ In n (readdirSync st).
Proof.
  unfold writeFile. intros H n Hn.
  destruct (lookup name st) as [[c0|]|] eqn:E; [| discriminate |];
    injection H as <-.
  - rewrite readdirSync_overwrite in Hn. now right.
  - apply (Permutation_in _ (readdirSync_insert _ _ _)) in Hn.
    destruct Hn as [<-|Hn]; [now left|now right].
Qed.

Lemma writeFile_NoDup (name : string) (c : buffer) (st st1 : store) :
  NoDup (readdirSync st) ->
  writeFile name c st = Some st1 ->
  NoDup (readdirSync st1).
Proof.
  unfold writeFile. intros Hnd H.
  destruct (lookup name st) as [[c0|]|] eqn:E; [| discriminate |];
    injection H as <-.
  - now rewrite readdirSync_overwrite.
  - apply (Permutation_NoDup
             (Permutation_sym (readdirSync_insert name _ st))).
    constructor; [now apply lookup_absent|assumption].
Qed.

Lemma lookup_regular (name : string) (st : store) :
  Forall (fun p => is_regular (snd p) = true) st ->
  lookup name st <> Some Directory.
Proof.
  induction st as [|[n en] st IH]; intros H; simpl; [discriminate|].
  pose proof (Forall_inv H) as He. simpl in He.
  destruct (String.eqb n name).
  - intros [= ->]. discriminate He.
  - apply IH, (Forall_inv_tail H).
Qed.

Lemma writeFile_regular (name : string) (c : buffer) (st st1 : store) :
  Forall (fun p => is_regular (snd p) = true) st ->
  writeFile name c st = Some st1 ->
  Forall (fun p => is_regular (snd p) = true) st1.
Proof.
  unfold writeFile. intros Hreg H.
  destruct (lookup name st) as [[c0|]|] eqn:E; [| discriminate |];
    injection H as <-; clear E.
  - induction st as [|[n en] st IH]; [constructor|]. simpl.
    pose proof (Forall_inv Hreg) as He.
    pose proof (Forall_inv_tail Hreg) as Ht.
    destruct (String.eqb n name); constructor; auto.
  - induction st as [|[n en] st IH]; [now repeat constructor|]. simpl.
    pose proof (Forall_inv Hreg) as He.
    pose proof (Forall_inv_tail Hreg) as Ht.
    destruct (String.ltb name n); repeat constructor; auto.
Qed.

Lemma lookup_overwrite_other (n name : string) (e : entry) (st : store) :
  n <> name -> lookup n (overwrite name e st) = lookup n st.
Proof.
  intros Hn. induction st as [|[n0 e0] st IH]; [reflexivity|]. simpl.
  destruct (String.eqb_spec n0 name) as [->|Hne]; simpl.
  - destruct (String.eqb_spec name n) as [->|_];
      [contradiction|reflexivity].
  - now rewrite IH.
Qed.

Lemma lookup_insert_other (n name : string) (e : entry) (st : store) :
  n <> name -> lookup n (insert name e st) = lookup n st.
Proof.
  intros Hn. induction st as [|[n0 e0] st IH]; simpl.
  - destruct (String.eqb_spec name n) as [->|_];
      [contradiction|reflexivity].
  - destruct (String.ltb name n0); simpl.
    + destruct (String.eqb_spec name n) as [->|_];
        [contradiction|reflexivity].
    + now rewrite IH.
Qed.

Lemma lookup_writeFile_other (n name : string) (c : buffer)
  (st st1 : store) :
  n <> name ->
  writeFile name c st = Some st1 ->
  lookup n st1 = lookup n st.
Proof.
  unfold writeFile. intros Hn H.
  destruct (lookup name st) as [[c0|]|] eqn:E; [| discriminate |];
    injection H as <-.
  - now apply lookup_overwrite_other.
  - now apply lookup_insert_other.
Qed.

Lemma lookup_unlink_other (n name : string) :
  forall st st1,
    n <> name ->
    unlink name st = Some st1 ->
    lookup n st1 = lookup n st.
Proof.
  induction st as [|[n0 e0] st IH]; intros st1 Hn Hu; simpl in Hu.
  - discriminate Hu.
  - destruct (String.eqb_spec n0 name) as [->|Hne].
    + destruct (is_regular e0); [|discriminate Hu].
      injection Hu as <-. simpl.
      destruct (String.eqb_spec name n) as [->|_];
        [contradiction|reflexivity].
    + destruct (unlink name st) as [st'|]; [|discriminate Hu].
      injection Hu as <-. simpl. now rewrite (IH st').
Qed.

(** In a directory, the removals of all entries hold one removal of
    each name. *)
Lemma removals_removed (name : string) (st : store) :
  NoDup (readdirSync st) ->
  In name (readdirSync st) ->
  removals name (map removed st) = 1.
Proof.
  unfold removals.
  induction st as [|[n en] st IH]; intros Hnd Hin; [destruct Hin|].
  simpl in Hnd, Hin. inversion Hnd as [|? ? Hn Hnd']; subst.
  cbn [map removed fst filter is_removal_of].
  destruct (String.eqb_spec n name) as [->|Hne].
  - simpl. f_equal.
    assert (Hnone : forall l : store,
               ~ In name (readdirSync l) ->
               filter (is_removal_of name) (map removed l) = []).
    { induction l as [|[k ek] l IHl]; intros Hk; [reflexivity|].
      simpl in *. destruct (String.eqb_spec k name); [tauto|].
      apply IHl. tauto. }
    now rewrite Hnone.
  - destruct Hin as [Heq|Hin]; [congruence|]. now apply IH.
Qed.

Lemma removals_app (name : string) (l1 l2 : list op) :
  removals name (l1 ++ l2) = removals name l1 + removals name l2.
Proof. unfold removals. now rewrite filter_app, length_app. Qed.

End FsFacts.

(** ** What every run of the decoder emits *)

Module PipeFacts.

Import CsvParser.

Lemma parseLine_no_end (opts : options) (st : state) (b : buffer)
  (start end_ : nat) :
  ~ In End (snd (parseLine opts st b start end_)).
Proof.
  unfold parseLine.
  repeat match goal with
         | |- context [if ?x then _ else _] => destruct x
         end; simpl; intuition discriminate.
Qed.

(** The events of [_transform] are those of its byte loop. *)
Lemma transform_events (opts : options) (p : parser) (data : buffer) :
  exists (start : nat) (buf : buffer),
    snd (_transform opts p data)
    = snd (transform_loop opts start (List.length data) buf start
             (this_state p) [])
    /\ first (this_state (fst (_transform opts p data)))
       = first (fst (transform_loop opts start (List.length data) buf start
                       (this_state p) []))
    /\ headers (this_state (fst (_transform opts p data)))
       = headers (fst (transform_loop opts start (List.length data) buf
                         start (this_state p) [])).
Proof.
  unfold _transform.
  match goal with
  | |- context [transform_loop opts ?s _ ?b ?s _ []] => exists s, b
  end.
  destruct (transform_loop opts _ (List.length data) _ _ (this_state p) [])
    as [st evs].
  repeat match goal with
         | |- context [if ?x then _ else _] => destruct x
         end; repeat split.
Qed.

Lemma transform_no_end (opts : options) (p : parser) (data : buffer) :
  ~ In End (snd (_transform opts p data)).
Proof.
  destruct (transform_events opts p data) as (start & buf & -> & _).
  apply ChunkFacts.transform_loop_no_end. intros [].
Qed.

Lemma flush_no_end (opts : options) (p : parser) : ~ In End (_flush opts p).
Proof.
  unfold _flush. destruct (_prev p); [|intros []].
  destruct (escaped (this_state p)); [intros []|].
  apply parseLine_no_end.
Qed.

Lemma write_no_end (opts : options) (chunks : list buffer) :
  forall (p : parser) (out : list event),
    ~ In End out -> ~ In End (snd (write opts p chunks out)).
Proof.
  induction chunks as [|data chunks IH]; intros p out Hout; [exact Hout|].
  cbn [write]. pose proof (transform_no_end opts p data) as Hd.
  destruct (_transform opts p data) as [p' evs]. cbn [snd] in Hd.
  assert (Hboth : ~ In End (out ++ evs))
    by (rewrite in_app_iff; tauto).
  destruct (existsb is_error evs); [exact Hboth|]. now apply IH.
Qed.

(** A transformer is left unpiped only after it has emitted [error]. *)
Lemma write_unpiped (opts : options) (chunks : list buffer) :
  forall (p : parser) (out evs : list event),
    write opts p chunks out = (None, evs) -> existsb is_error evs = true.
Proof.
  induction chunks as [|data chunks IH]; intros p out evs H;
    cbn [write] in H; [discriminate H|].
  destruct (_transform opts p data) as [p' evs'].
  destruct (existsb is_error evs') eqn:E.
  - injection H as <-. rewrite existsb_app, E. apply orb_true_r.
  - now apply (IH p' (out ++ evs')).
Qed.

(** The transformer always emits [end] or [error]. *)
Lemma piped_terminates (opts : options) (chunks : list buffer) :
  existsb (fun ev => negb (is_data ev)) (piped opts chunks) = true.
Proof.
  unfold piped. destruct (write opts created chunks []) as [[p|] evs] eqn:E.
  - rewrite !existsb_app. simpl. now rewrite !orb_true_r.
  - apply write_unpiped in E. apply existsb_exists in E as (ev & Hin & Hev).
    apply existsb_exists. exists ev. split; [assumption|]. now destruct ev.
Qed.

Lemma end_split (evs pre post : list event) :
  ~ In End evs -> evs ++ [End] = pre ++ End :: post -> post = [].
Proof.
  revert pre post. induction evs as [|ev evs IH]; intros pre post Hn Heq.
  - destruct pre as [|x pre]; simpl in Heq.
    + now injection Heq as <-.
    + injection Heq as _ Heq. now destruct pre.
  - destruct pre as [|x pre]; simpl in Heq.
    + injection Heq as -> _. simpl in Hn. tauto.
    + injection Heq as _ Heq. apply (IH pre post); [|assumption].
      simpl in Hn. tauto.
Qed.

(** [end] is the last event when it is emitted at all. *)
Lemma piped_end_last (opts : options) (chunks : list buffer)
  (pre post : list event) :
  piped opts chunks = pre ++ End :: post -> post = [].
Proof.
  unfold piped. intros H.
  pose proof (write_no_end opts chunks created [] (fun F => F)) as Hw.
  destruct (write opts created chunks []) as [[p|] evs]; cbn [snd] in Hw.
  - rewrite app_assoc in H.
    apply (end_split (evs ++ _flush opts p) pre post); [|exact H].
    rewrite in_app_iff. pose proof (flush_no_end opts p). tauto.
  - exfalso. apply Hw. rewrite H. apply in_or_app. right. now left.
Qed.

(** The events up to the first [end] or [error]. *)
Lemma first_terminal (evs : list event) :
  existsb (fun ev => negb (is_data ev)) evs = true ->
  exists rs t post,
    evs = map Data rs ++ t :: post /\ is_data t = false.
Proof.
  induction evs as [|ev evs IH]; intros H; [discriminate|].
  destruct ev as [row| |].
  - simpl in H. destruct (IH H) as (rs & t & post & -> & Ht).
    now exists (row :: rs), t, post.
  - now exists [], (Error message), evs.
  - now exists [], End, evs.
Qed.

(** What a file makes the transformer emit: rows and then [end], or
    rows and then [error]. *)
Lemma pipe_cases (opts : options) (c : buffer) :
  (exists rs, pipe opts c = map Data rs ++ [End])
  \/ (exists rs message more,
         pipe opts c = map Data rs ++ Error message :: more).
Proof.
  unfold pipe.
  destruct (first_terminal _ (piped_terminates opts (Fs.createReadStream c)))
    as (rs & t & post & Hp & Ht).
  destruct t as [row|message|]; [discriminate Ht| |].
  - right. now exists rs, message, post.
  - left. exists rs. rewrite Hp.
    now rewrite (piped_end_last opts _ (map Data rs) post Hp).
Qed.

Lemma parseLine_uniform (st : state) (b : buffer) (start end_ : nat)
  (evs : list event) :
  Csv.uniform st evs ->
  Csv.uniform (fst (parseLine Server.parserOptions st b start end_))
    (evs ++ snd (parseLine Server.parserOptions st b start end_)).
Proof.
  unfold Csv.uniform, parseLine. cbn [Server.parserOptions
    skipLines strict Nat.eqb negb andb].
  destruct (first st); cbn [andb negb fst snd first headers].
  - intros H. rewrite app_nil_r.
    apply Forall_impl with (2 := H). intros ev Hev.
    destruct ev; [discriminate Hev|exact I|exact I].
  - intros H.
    destruct (List.length (lineCells b start end_)
              =? List.length (headers st))%nat eqn:E;
      cbn [negb fst snd first headers];
      apply Forall_app; (split; [assumption|]); repeat constructor.
    apply Nat.eqb_eq in E.
    now exists (lineCells b start end_).
Qed.

Lemma transform_loop_uniform (start fuel : nat) :
  forall (b : buffer) (i : nat) (st : state) (evs : list event),
    Csv.uniform st evs ->
    Csv.uniform
      (fst (transform_loop Server.parserOptions start fuel b i st evs))
      (snd (transform_loop Server.parserOptions start fuel b i st evs)).
Proof.
  induction fuel as [|fuel IH]; intros b i st evs H; [exact H|].
  cbn [transform_loop].
  repeat match goal with
         | |- context [if ?x then _ else _] => destruct x
         end; try (apply IH; exact H).
  all: match goal with
       | |- context [parseLine ?o ?s ?b' ?p ?q] =>
           pose proof (parseLine_uniform s b' p q evs H) as Hp;
           destruct (parseLine o s b' p q) as [st2 evs2]
       end;
    apply IH; exact Hp.
Qed.

(** Chunk after chunk, the rows emitted so far are built on the header
    the transformer holds. *)
Lemma write_uniform (chunks : list buffer) :
  forall (p : parser) (out : list event),
    Csv.uniform (this_state p) out ->
    match write Server.parserOptions p chunks out with
    | (Some p', evs) => Csv.uniform (this_state p') evs
    | (None, evs) => exists st, Csv.uniform st evs
    end.
Proof.
  induction chunks as [|data chunks IH]; intros p out H; [exact H|].
  cbn [write].
  destruct (transform_events Server.parserOptions p data)
    as (start & buf & Hev & Hfirst & Hhs).
  pose proof (transform_loop_uniform start (List.length data) buf start
                (this_state p) out H) as Hu.
  rewrite ChunkFacts.transform_loop_out in Hu. cbn [fst snd] in Hu.
  rewrite <- Hev in Hu.
  assert (Hu' : Csv.uniform
                  (this_state (fst (_transform Server.parserOptions p data)))
                  (out ++ snd (_transform Server.parserOptions p data))).
  { unfold Csv.uniform in *. now rewrite Hfirst, Hhs. }
  destruct (_transform Server.parserOptions p data) as [p' evs].
  cbn [fst snd] in Hu'.
  destruct (existsb is_error evs); [now exists (this_state p')|].
  now apply IH.
Qed.

(** Every row the parser emits for a file is built on the header of
    the file, from as many cells as the header has names. *)
Lemma pipe_uniform (c : buffer) :
  exists hs, Forall (Csv.builtOn hs) (pipe Server.parserOptions c).
Proof.
  assert (Hany : forall hs evs,
             Forall (fun ev => is_data ev = false) evs ->
             Forall (Csv.builtOn hs) evs).
  { intros hs evs H. apply Forall_impl with (2 := H). intros ev Hev.
    destruct ev; [discriminate Hev|exact I|exact I]. }
  assert (Hex : forall st evs,
             Csv.uniform st evs -> exists hs, Forall (Csv.builtOn hs) evs).
  { intros st evs H. unfold Csv.uniform in H.
    destruct (first st).
    - exists []. now apply Hany.
    - now exists (headers st). }
  unfold pipe, piped.
  pose proof (write_uniform (Fs.createReadStream c) created []
                (Forall_nil _)) as H.
  destruct (write Server.parserOptions created (Fs.createReadStream c) [])
    as [[p|] evs].
  - unfold _flush. destruct (_prev p) as [prev|].
    + destruct (escaped (this_state p)).
      * destruct (Hex _ _ H) as [hs Hhs]. exists hs.
        apply Forall_app. split; [assumption|]. repeat constructor.
      * pose proof (parseLine_uniform (this_state p) prev
                      (previousEnd (this_state p)) (List.length prev + 1)
                      evs H) as Hp.
        destruct (Hex _ _ Hp) as [hs Hhs]. exists hs.
        rewrite app_assoc. apply Forall_app. split; [assumption|].
        repeat constructor.
    + destruct (Hex _ _ H) as [hs Hhs]. exists hs.
      apply Forall_app. split; [assumption|]. repeat constructor.
  - destruct H as [st H]. now apply (Hex st).
Qed.

End PipeFacts.

(** ** The handler *)

Module ServerFacts.

Import Js Server Upload.

Lemma listen_data (e : env) (name : string) (rs : list object) :
  forall l,
    fold_left (emit e name) (map CsvParser.Data rs) l
    = {| results := results l ++ rs;
         rowCount := rowCount l + List.length rs;
         out := out l |}.
Proof.
  induction rs as [|r rs IH]; intros [res0 n w]; simpl.
  - now rewrite app_nil_r, Nat.add_0_r.
  - unfold emit at 2. cbn [listener]. rewrite IH. unfold on_data. simpl.
    rewrite <- app_assoc. f_equal. lia.
Qed.

Lemma res_fs_unlink (w : world) (name : string) :
  res (fs_unlink w name) = res w.
Proof. unfold fs_unlink. now destruct (Fs.unlink name (uploads w)). Qed.

Lemma send_fresh (w : world) (code : Z) (value : json) :
  res w = None ->
  send w code value
  = Normal {| uploads := uploads w; log := log w;
              res := Some {| status := code; body := value |};
              exitCode := exitCode w |}.
Proof. intros H. unfold send. now rewrite H. Qed.

Lemma send_sent (w : world) (code : Z) (value : json) (r : response) :
  res w = Some r -> send w code value = Throw w.
Proof. intros H. unfold send. now rewrite H. Qed.

(** The response of a handler that ends by sending. *)
Lemma res_routed_send (w : world) (code : Z) (value : json) :
  res (routed (send w code value))
  = match res w with
    | Some r => Some r
    | None => Some {| status := code; body := value |}
    end.
Proof. unfold send. now destruct (res w) eqn:E. Qed.

Lemma uploads_routed_send (w : world) (code : Z) (value : json) :
  uploads (routed (send w code value)) = uploads w.
Proof. unfold send. now destruct (res w). Qed.

Lemma log_routed_send (w : world) (code : Z) (value : json) :
  log (routed (send w code value)) = log w.
Proof. unfold send. now destruct (res w). Qed.

(** The first [end]: the stored file is removed and the rows are
    sent. *)
Lemma emit_end_fresh (e : env) (name : string) (l : locals) :
  res (out l) = None ->
  emit e name l CsvParser.End
  = {| results := results l; rowCount := rowCount l;
       out := {| uploads := uploads (fs_unlink (out l) name);
                 log := log (fs_unlink (out l) name);
                 res := Some {| status := 200;
                                body := successBody e (results l) |};
                 exitCode := exitCode (fs_unlink (out l) name) |} |}.
Proof.
  intros H. unfold emit. cbn [listener]. unfold on_end.
  rewrite send_fresh by now rewrite res_fs_unlink. reflexivity.
Qed.

(** The first [error]: the stored file is removed and the failure is
    sent. *)
Lemma emit_error_fresh (e : env) (name message : string) (l : locals) :
  res (out l) = None ->
  emit e name l (CsvParser.Error message)
  = {| results := results l; rowCount := rowCount l;
       out := {| uploads := uploads (fs_unlink (out l) name);
                 log := log (fs_unlink (out l) name);
                 res := Some {| status := 500; body := failureBody |};
                 exitCode := exitCode (fs_unlink (out l) name) |} |}.
Proof.
  intros H. unfold emit. cbn [listener]. unfold on_error.
  rewrite send_fresh by now rewrite res_fs_unlink. reflexivity.
Qed.

(** An [end] or [error] after the response is out: the listener tries
    the removal again, its answer raises and the handler of the process
    runs. *)
Lemma emit_sent (e : env) (name : string) (l : locals)
  (ev : CsvParser.event) (r : response) :
  CsvParser.is_data ev = false ->
  res (out l) = Some r ->
  emit e name l ev
  = {| results := results l; rowCount := rowCount l;
       out := uncaughtException (fs_unlink (out l) name) |}.
Proof.
  intros Hev H. unfold emit.
  destruct ev as [row|message|]; [discriminate Hev| |]; cbn [listener];
    [unfold on_error|unfold on_end];
    rewrite (send_sent _ _ _ r) by (now rewrite res_fs_unlink);
    reflexivity.
Qed.

(** Once a response is out, nothing changes it. *)
Lemma emit_keeps_response (e : env) (name : string)
  (ev : CsvParser.event) (l : locals) (r : response) :
  res (out l) = Some r -> res (out (emit e name l ev)) = Some r.
Proof.
  intros H. destruct (CsvParser.is_data ev) eqn:Hev.
  - destruct ev; try discriminate Hev. exact H.
  - rewrite (emit_sent e name l ev r Hev H). cbn [out].
    unfold uncaughtException. cbn [res]. now rewrite res_fs_unlink.
Qed.

Lemma listen_keeps_response (e : env) (name : string)
  (evs : list CsvParser.event) :
  forall (l : locals) (r : response),
    res (out l) = Some r ->
    res (out (fold_left (emit e name) evs l)) = Some r.
Proof.
  induction evs as [|ev evs IH]; intros l r H; simpl; [assumption|].
  apply IH. now apply emit_keeps_response.
Qed.

(** How a listener changes the response. *)
Lemma res_emit (e : env) (name : string) (l : locals)
  (ev : CsvParser.event) :
  res (out (emit e name l ev))
  = match res (out l), ev with
    | Some r, _ => Some r
    | None, CsvParser.Data _ => None
    | None, CsvParser.Error _ =>
        Some {| status := 500; body := failureBody |}
    | None, CsvParser.End =>
        Some {| status := 200; body := successBody e (results l) |}
    end.
Proof.
  destruct (res (out l)) as [r|] eqn:Hres.
  - now apply emit_keeps_response.
  - destruct ev as [row|message|].
    + exact Hres.
    + now rewrite emit_error_fresh.
    + now rewrite emit_end_fresh.
Qed.

(** Rows and then [end]: the success response carries the rows. *)
Lemma listen_rows_end (e : env) (name : string) (rs : list object)
  (w : world) :
  res w = None ->
  res (out (listen e name (map CsvParser.Data rs ++ [CsvParser.End]) w))
  = Some (ok e rs).
Proof.
  intros H. unfold listen. rewrite fold_left_app, listen_data.
  cbn [fold_left]. now rewrite emit_end_fresh.
Qed.

(** Rows and then [error], whatever is emitted afterwards: the failure
    response, and none of the rows. *)
Lemma listen_rows_error (e : env) (name : string) (rs : list object)
  (message : string) (more : list CsvParser.event) (w : world) :
  res w = None ->
  res (out (listen e name
              (map CsvParser.Data rs ++ CsvParser.Error message :: more) w))
  = Some {| status := 500; body := failureBody |}.
Proof.
  intros H. unfold listen. rewrite fold_left_app, listen_data.
  cbn [fold_left]. apply listen_keeps_response.
  now rewrite emit_error_fresh.
Qed.

Lemma delivered_rows (sent : bool) (rs : list object)
  (evs : list CsvParser.event) :
  delivered sent (map CsvParser.Data rs ++ evs)
  = map CsvParser.Data rs ++ delivered sent evs.
Proof.
  induction rs as [|r rs IH]; [reflexivity|]. simpl. now rewrite IH.
Qed.

(** With at most one [end] or [error], everything is delivered. *)
Lemma delivered_all (evs : list CsvParser.event) :
  CsvParser.answers evs <= 1 -> delivered false evs = evs.
Proof.
  unfold CsvParser.answers.
  induction evs as [|ev evs IH]; intros H; [reflexivity|].
  destruct ev as [row|message|]; cbn [filter CsvParser.is_data negb] in H.
  - cbn [delivered]. now rewrite IH.
  - cbn [delivered]. f_equal. cbn [List.length] in H.
    assert (Hnone : List.length
                      (filter (fun ev => negb (CsvParser.is_data ev)) evs)
                    = 0) by lia.
    clear - Hnone. induction evs as [|ev evs IH]; [reflexivity|].
    destruct ev; cbn [filter CsvParser.is_data negb] in Hnone;
      try discriminate Hnone.
    cbn [delivered]. now rewrite IH.
  - cbn [delivered]. f_equal. cbn [List.length] in H.
    assert (Hnone : List.length
                      (filter (fun ev => negb (CsvParser.is_data ev)) evs)
                    = 0) by lia.
    clear - Hnone. induction evs as [|ev evs IH]; [reflexivity|].
    destruct ev; cbn [filter CsvParser.is_data negb] in Hnone;
      try discriminate Hnone.
    cbn [delivered]. now rewrite IH.
Qed.

(** A decoded upload: the request is the listeners run on the events
    of the stored bytes. *)
Lemma convert_decoded (e : env) (f : file) (disk : Fs.store) :
  decoded e f disk ->
  exists disk1,
    Fs.writeFile (filename e f) (content f) disk = Some disk1
    /\ convert e (Some f) disk
       = out (listen e (filename e f)
                (delivered false (CsvParser.pipe parserOptions (content f)))
                (listening (filename e f) disk1)).
Proof.
  intros (Hname & Hfilter & Hsize & Hdir & Hread).
  destruct (FsFacts.writeFile_succeeds (filename e f) (content f) disk Hdir)
    as [disk1 Hw].
  exists disk1. split; [assumption|].
  unfold convert. apply String.eqb_neq in Hname.
  rewrite Hname, Hfilter, Hw.
  replace (fileSize <? Z.of_nat (List.length (content f)))%Z with false
    by (symmetry; apply Z.ltb_ge; assumption).
  unfold handler, decode. rewrite Hread.
  cbn [logged uploads log res exitCode app sent].
  now rewrite (FsFacts.lookup_writeFile _ _ _ _ Hw).
Qed.

(** A decoded upload for which the parser emits rows and then [end]. *)
Lemma convert_rows_end (e : env) (f : file) (disk : Fs.store)
  (rs : list object) :
  decoded e f disk ->
  CsvParser.pipe parserOptions (content f)
  = map CsvParser.Data rs ++ [CsvParser.End] ->
  res (convert e (Some f) disk) = Some (ok e rs).
Proof.
  intros Hdec Hp.
  destruct (convert_decoded e f disk Hdec) as (disk1 & _ & ->).
  rewrite Hp, delivered_rows. cbn [delivered].
  now apply listen_rows_end.
Qed.

(** A decoded upload for which the parser emits [error] first. *)
Lemma convert_rows_error (e : env) (f : file) (disk : Fs.store)
  (rs : list object) (message : string) (more : list CsvParser.event) :
  decoded e f disk ->
  CsvParser.pipe parserOptions (content f)
  = map CsvParser.Data rs ++ CsvParser.Error message :: more ->
  res (convert e (Some f) disk)
  = Some {| status := 500; body := failureBody |}.
Proof.
  intros Hdec Hp.
  destruct (convert_decoded e f disk Hdec) as (disk1 & _ & ->).
  rewrite Hp, delivered_rows. cbn [delivered].
  now apply listen_rows_error.
Qed.

(** The response to a file of rows of the header's length, however
    many rows there are. *)
Lemma convert_rows (e : env) (f : file) (disk : Fs.store)
  (header : list Csv.cell) (rows : list (list Csv.cell)) :
  decoded e f disk ->
  Csv.encodes (content f) (Csv.spellings header)
    (map Csv.spellings rows) ->
  Forall Csv.rowOk (header :: rows) ->
  Forall (fun r => List.length r = List.length header) rows ->
  Csv.firstRead (content f) (Csv.spellings header) ->
  res (convert e (Some f) disk)
  = Some (ok e (map (fun r => CsvParser.writeRow (Csv.values header)
                                (Csv.values r)) rows)).
Proof.
  intros Hdec Hc Hok Hlen Hfirst.
  apply convert_rows_end; [assumption|].
  rewrite (ChunkFacts.pipe_encoded _ header rows Hc Hok Hlen Hfirst).
  now rewrite map_map.
Qed.

End ServerFacts.

(** ** The claims *)

Import Js Server Upload.

(** *** Start-up purge *)

Lemma forEach_unlinkSync_regular (files : Fs.store) :
  forall rest done,
    Forall (fun p => Fs.is_regular (snd p) = true) files ->
    forEach_unlinkSync (Fs.readdirSync (files ++ rest)) (files ++ rest) done
    = forEach_unlinkSync (Fs.readdirSync rest) rest
        (done ++ map Fs.removed files).
Proof.
  induction files as [|[n e] files IH]; intros rest done H.
  - simpl. now rewrite app_nil_r.
  - pose proof (Forall_inv H) as He. simpl in He.
    cbn [app Fs.readdirSync map fst forEach_unlinkSync].
    unfold unlinkSync. cbn [Fs.unlink]. rewrite String.eqb_refl, He.
    fold (Fs.readdirSync (files ++ rest)).
    rewrite IH by apply (Forall_inv_tail H).
    now rewrite <- app_assoc.
Qed.

(** A directory of regular files is emptied, one removal per entry. *)
Lemma cleanupUploads_regular (st : Fs.store) :
  Forall (fun p => Fs.is_regular (snd p) = true) st ->
  cleanupUploads st = ([], map Fs.removed st).
Proof.
  intros H. unfold cleanupUploads.
  pose proof (forEach_unlinkSync_regular st [] [] H) as E.
  rewrite app_nil_r in E. now rewrite E.
Qed.

Lemma store_split (st : Fs.store) :
  exists files rest,
    st = files ++ rest
    /\ Forall (fun p => Fs.is_regular (snd p) = true) files
    /\ match rest with
       | [] => True
       | (_, e) :: _ => Fs.is_regular e = false
       end.
Proof.
  induction st as [|[n e] st (files & rest & -> & Hf & Hr)].
  - exists [], []. repeat split. constructor.
  - destruct (Fs.is_regular e) eqn:He.
    + exists ((n, e) :: files), rest. repeat split; [|assumption].
      now constructor.
    + exists [], ((n, e) :: files ++ rest). repeat split; [constructor|].
      assumption.
Qed.

Lemma cleanupUploads_split (files rest : Fs.store) :
  Forall (fun p => Fs.is_regular (snd p) = true) files ->
  match rest with
  | [] => True
  | (_, e) :: _ => Fs.is_regular e = false
  end ->
  cleanupUploads (files ++ rest)
  = (rest,
     map Fs.removed files
     ++ match rest with
        | [] => []
        | (n, _) :: _ => [Fs.OpUnlink n false]
        end).
Proof.
  intros Hfiles Hrest. unfold cleanupUploads.
  rewrite forEach_unlinkSync_regular by assumption.
  destruct rest as [|[n e] rest]; [simpl; now rewrite app_nil_r|].
  cbn [Fs.readdirSync map fst forEach_unlinkSync].
  unfold unlinkSync. cbn [Fs.unlink]. now rewrite String.eqb_refl, Hrest.
Qed.

Lemma lookup_app_None (name : string) (st1 st2 : Fs.store) :
  Fs.lookup name (st1 ++ st2) = None ->
  Fs.lookup name st1 = None /\ Fs.lookup name st2 = None.
Proof.
  induction st1 as [|[n e] st1 IH]; intros H; simpl in *; [now split|].
  destruct (String.eqb n name); [discriminate H|]. now apply IH.
Qed.

(** The purge neither brings back a name that is not listed nor
    removes it. *)
Lemma cleanupUploads_absent (name : string) (st : Fs.store) :
  Fs.lookup name st = None ->
  Fs.lookup name (fst (cleanupUploads st)) = None
  /\ Fs.removals name (snd (cleanupUploads st)) = 0.
Proof.
  destruct (store_split st) as (files & rest & -> & Hf & Hr).
  intros H. apply lookup_app_None in H as [Hfiles Hrest].
  rewrite (cleanupUploads_split files rest Hf Hr). cbn [fst snd].
  split; [assumption|].
  rewrite FsFacts.removals_app.
  assert (H0 : Fs.removals name (map Fs.removed files) = 0).
  { clear - Hfiles. unfold Fs.removals.
    induction files as [|[n e] files IH]; [reflexivity|].
    simpl in *. destruct (String.eqb n name); [discriminate Hfiles|].
    now apply IH. }
  rewrite H0. now destruct rest as [|[n e] rest].
Qed.

(** C4 (as the code has it): the purge removes the entries in listing
    order; when every removal succeeds the directory is empty afterwards;
    the first removal that fails ends the purge, the failing entry and
    every entry listed after it stay, and the purge returns normally. *)
Theorem cleanup_removes_until_failure (files rest : Fs.store) :
  Forall (fun p => Fs.is_regular (snd p) = true) files ->
  match rest with
  | [] => True
  | (_, e) :: _ => Fs.is_regular e = false
  end ->
  startup (files ++ rest) = rest.
Proof.
  intros Hfiles Hrest. unfold startup, cleanupUploads.
  rewrite forEach_unlinkSync_regular by assumption.
  destruct rest as [|[n e] rest]; [reflexivity|].
  cbn [Fs.readdirSync map fst forEach_unlinkSync].
  unfold unlinkSync. cbn [Fs.unlink]. now rewrite String.eqb_refl, Hrest.
Qed.

Lemma cleanup_removes_until_failure_witness :
  startup
    ([("1690000000000-a.csv", Fs.RegularFile Sample.table)]
     ++ Sample.leftovers)
  = Sample.leftovers.
Proof.
  apply (cleanup_removes_until_failure
           [("1690000000000-a.csv", Fs.RegularFile Sample.table)]
           Sample.leftovers).
  - repeat constructor.
  - reflexivity.
Defined.

(** C4, counterexample: with a sub-directory listed first, the purge
    removes nothing, although the file listed after it is removable. *)
Lemma cleanup_stops_at_first_failure :
  startup Sample.leftovers = Sample.leftovers
  /\ In ("1690000000000-old.csv", Fs.RegularFile Sample.table)
       (startup Sample.leftovers)
  /\ Fs.unlink "1690000000000-old.csv" Sample.leftovers
     = Some [("0000-archive", Fs.Directory)].
Proof. repeat split. right. now left. Qed.

(** *** Missing file *)

(** C7: a request without a file is answered with status 400 and the
    body [{ error: "No file uploaded" }]; nothing is stored, read or
    removed. *)
Theorem no_file_uploaded (e : env) (disk : Fs.store) :
  convert e None disk
  = {| uploads := disk;
       log := [];
       res := Some {| status := 400;
                      body := JObj [("error", JStr "No file uploaded")] |};
       exitCode := None |}.
Proof. reflexivity. Qed.

(** *** Rejected file type *)

Lemma length_append (s t : string) :
  String.length (s ++ t) = String.length s + String.length t.
Proof. induction s; simpl; [reflexivity|now rewrite IHs]. Qed.

Lemma substring_whole (s : string) : substring 0 (String.length s) s = s.
Proof. induction s; simpl; [reflexivity|now rewrite IHs]. Qed.

Lemma substring_after (p s : string) (k : nat) :
  substring (String.length p) k (p ++ s) = substring 0 k s.
Proof. induction p; simpl; [reflexivity|assumption]. Qed.

Lemma substring_split (s : string) :
  forall m, m <= String.length s ->
    s = (substring 0 m s ++ substring m (String.length s - m) s)%string.
Proof.
  induction s as [|c s IH]; intros m Hm; simpl in Hm.
  - now replace m with 0 by lia.
  - destruct m as [|m].
    + simpl. now rewrite substring_whole.
    + simpl. f_equal. apply IH. lia.
Qed.

(** [endsWith] is the suffix test. *)
Lemma endsWith_spec (s suffix : string) :
  endsWith s suffix = true <-> exists p, s = (p ++ suffix)%string.
Proof.
  unfold endsWith. rewrite andb_true_iff, Nat.leb_le, String.eqb_eq.
  split.
  - intros [Hle Hsub].
    exists (substring 0 (String.length s - String.length suffix) s).
    rewrite <- Hsub at 2.
    rewrite (substring_split s (String.length s - String.length suffix))
      at 1 by lia.
    do 2 f_equal. lia.
  - intros [p ->]. rewrite length_append. split; [lia|].
    replace (String.length p + String.length suffix - String.length suffix)
      with (String.length p) by lia.
    rewrite substring_after. apply substring_whole.
Qed.

(** C3 (as the code has it): a file that neither declares [text/csv] nor
    has a name ending in [.csv] is turned down by the filter before
    anything is stored; the error reaches the error middleware, which
    answers with status 500 and its generic body.  The uploads directory
    is left as it was and no file operation takes place. *)
Theorem rejected_type_response (e : env) (f : file) (disk : Fs.store) :
  originalname f <> "" ->
  mimetype f <> "text/csv" ->
  endsWith (originalname f) ".csv" = false ->
  convert e (Some f) disk
  = {| uploads := disk;
       log := [];
       res := Some
         {| status := 500;
            body :=
              JObj [("error", JStr "Server encountered an unexpected error");
                    ("message",
                     JStr (if production e then "Please try again later"
                           else "Only CSV files are allowed"))] |};
       exitCode := None |}.
Proof.
  intros Hn Hm He. unfold convert, fileFilter.
  apply String.eqb_neq in Hn. apply String.eqb_neq in Hm.
  now rewrite Hn, Hm, He.
Qed.

Lemma rejected_type_response_witness :
  convert Sample.env0
    (Some (Sample.upload "notes.txt" "text/plain" Sample.table))
    Sample.leftovers
  = {| uploads := Sample.leftovers;
       log := [];
       res := Some
         {| status := 500;
            body :=
              JObj [("error", JStr "Server encountered an unexpected error");
                    ("message", JStr "Only CSV files are allowed")] |};
       exitCode := None |}.
Proof.
  apply (rejected_type_response Sample.env0
           (Sample.upload "notes.txt" "text/plain" Sample.table)
           Sample.leftovers).
  - simpl. discriminate.
  - simpl. discriminate.
  - reflexivity.
Defined.

(** C3, counterexample: a text file declared as [text/plain] is answered
    with status 500, which is not a client-error status. *)
Lemma rejected_type_is_server_error :
  exists r,
    res (convert Sample.env0
           (Some (Sample.upload "notes.txt" "text/plain" Sample.table)) [])
    = Some r
    /\ status r = 500%Z
    /\ ~ (400 <= status r < 500)%Z.
Proof.
  eexists. split; [reflexivity|]. split; [reflexivity|]. simpl. lia.
Qed.

(** *** Well-formed files *)

Lemma map_fst_combine_same {A B : Type} (l : list A) :
  forall (l' : list B),
    List.length l' = List.length l -> map fst (combine l l') = l.
Proof.
  induction l as [|x l IH]; intros [|y l'] H; simpl in *;
    try reflexivity; try discriminate.
  f_equal. apply IH. lia.
Qed.




(** *** A header line that ends at the end of the first chunk *)

Lemma toString_ascii (x : byte) (b : buffer) :
  between 0 127 x = true ->
  toString (x :: b) = String (ascii_of_byte x) (toString b).
Proof.
  intros H. unfold toString. cbn [utf8_decode]. unfold utf8_lead.
  now rewrite H.
Qed.

Lemma wideName_ordinary : ordinaryName (toString Sample.wideName).
Proof.
  assert (E : Sample.wideName
              = "a"%byte :: repeat "a"%byte (N.to_nat 65534)).
  { unfold Sample.wideName.
    replace (N.to_nat 65535) with (S (N.to_nat 65534)) by lia.
    reflexivity. }
  rewrite E, toString_ascii by reflexivity.
  generalize (toString (repeat "a"%byte (N.to_nat 65534))). intros s.
  split; [|reflexivity].
  unfold Js.arrayIndex. cbn [NilEmpty.uint_of_string].
  now destruct (NilEmpty.uint_of_string s).
Qed.

(** A record under the one wide column name. *)
Lemma wide_record (v : string) :
  json_of_object (CsvParser.writeRow [toString Sample.wideName] [v])
  = JObj [(toString Sample.wideName, JStr v)].
Proof.
  apply (JsFacts.json_of_writeRow [toString Sample.wideName] [v]).
  - reflexivity.
  - constructor; [intros []|constructor].
  - constructor; [apply wideName_ordinary|constructor].
Qed.

Lemma wideName_size : Z.of_nat (List.length Sample.wideName) = 65535%Z.
Proof. unfold Sample.wideName. rewrite repeat_length. apply N_nat_Z. Qed.

Lemma wideTable_size : Z.of_nat (List.length Sample.wideTable) = 65543%Z.
Proof.
  rewrite ChunkFacts.wideTable_bytes, length_app, Nat2Z.inj_add.
  rewrite wideName_size. reflexivity.
Qed.

Lemma wideHeader_size : Z.of_nat (List.length Sample.wideHeader) = 65537%Z.
Proof.
  rewrite ChunkFacts.wideHeader_bytes, length_app, Nat2Z.inj_add.
  rewrite wideName_size. reflexivity.
Qed.

Lemma wideTable_decoded :
  decoded Sample.env0
    (Sample.upload "wide.csv" "text/csv" Sample.wideTable) [].
Proof.
  split; [discriminate|]. split; [reflexivity|].
  split; [|split; [discriminate|reflexivity]].
  cbn [content Sample.upload]. rewrite wideTable_size.
  unfold fileSize. lia.
Qed.

Lemma wideHeader_decoded :
  decoded Sample.env0
    (Sample.upload "wide.csv" "text/csv" Sample.wideHeader) [].
Proof.
  split; [discriminate|]. split; [reflexivity|].
  split; [|split; [discriminate|reflexivity]].
  cbn [content Sample.upload]. rewrite wideHeader_size.
  unfold fileSize. lia.
Qed.

(** C1, at the failing input: a file of 65,543 bytes, namely a header
    line with one column name of 65,535 bytes and the two data lines
    [1] and [2], every line ended by carriage return and line feed, is
    answered with three records and [rowCount] 3.  The carriage return
    of the header line is the last byte of the first chunk of the file
    stream; the decoder sees no byte after it and takes the carriage
    return alone for the line terminator of the file, so that every
    line feed starts the next cell and the last one is a line of its
    own.  The example of the claim is answered as the claim says. *)
Theorem chunk_boundary_adds_row :
  Csv.encodes Sample.wideTable [Sample.wideName]
    [[Buffer_from "1"]; [Buffer_from "2"]]
  /\ Forall Csv.wellFormed
       [[Sample.wideName]; [Buffer_from "1"]; [Buffer_from "2"]]
  /\ Z.of_nat (List.length Sample.wideTable) = 65543%Z
  /\ res (convert Sample.env0
            (Some (Sample.upload "wide.csv" "text/csv" Sample.wideTable))
            [])
     = Some
         {| status := 200;
            body :=
              JObj [("data",
                     JArr [JObj [(toString Sample.wideName,
                                  JStr (Sample.LF ++ "1"))];
                           JObj [(toString Sample.wideName,
                                  JStr (Sample.LF ++ "2"))];
                           JObj [(toString Sample.wideName,
                                  JStr Sample.LF)]]);
                    ("rowCount", JNum 3);
                    ("processingTime", JStr "12ms")] |}
  /\ res (convert Sample.env0
            (Some (Sample.upload "t.csv" "text/csv" Sample.table)) [])
     = Some
         {| status := 200;
            body :=
              JObj [("data",
                     JArr [JObj [("a", JStr "1"); ("b", JStr "2")];
                           JObj [("a", JStr "3"); ("b", JStr "4")]]);
                    ("rowCount", JNum 2);
                    ("processingTime", JStr "12ms")] |}.
Proof.
  split; [exists true; left; reflexivity|].
  split.
  { constructor.
    - split; [constructor; [apply ChunkFacts.wideName_plain|constructor]|].
      intros H. apply ChunkFacts.wideName_nonempty. congruence.
    - repeat constructor; discriminate. }
  split; [apply wideTable_size|].
  split; [|reflexivity].
  rewrite (ServerFacts.convert_rows_end _ _ _
             [CsvParser.writeRow [toString Sample.wideName]
                [(Sample.LF ++ "1")%string];
              CsvParser.writeRow [toString Sample.wideName]
                [(Sample.LF ++ "2")%string];
              CsvParser.writeRow [toString Sample.wideName] [Sample.LF]]
             wideTable_decoded).
  - unfold ok, successBody. cbn [map List.length].
    now rewrite !wide_record.
  - exact ChunkFacts.pipe_wideTable.
Qed.

(** C10, at the failing input: a file that holds nothing but a header
    line, one column name of 65,535 bytes ended by carriage return and
    line feed (65,537 bytes), is answered with one record, whose value
    is a line feed.  The cause is the one of
    [chunk_boundary_adds_row]: the carriage return is the last byte of
    the first chunk, and the line feed that follows it is read as a
    data line. *)
Theorem chunk_boundary_header_record :
  Sample.wideHeader = Csv.file true [Sample.wideName] []
  /\ forallb Csv.plain Sample.wideName = true
  /\ Z.of_nat (List.length Sample.wideHeader) = 65537%Z
  /\ res (convert Sample.env0
            (Some (Sample.upload "wide.csv" "text/csv" Sample.wideHeader))
            [])
     = Some
         {| status := 200;
            body :=
              JObj [("data",
                     JArr [JObj [(toString Sample.wideName,
                                  JStr Sample.LF)]]);
                    ("rowCount", JNum 1);
                    ("processingTime", JStr "12ms")] |}.
Proof.
  split; [reflexivity|].
  split; [apply ChunkFacts.wideName_plain|].
  split; [apply wideHeader_size|].
  rewrite (ServerFacts.convert_rows_end _ _ _
             [CsvParser.writeRow [toString Sample.wideName] [Sample.LF]]
             wideHeader_decoded).
  - unfold ok, successBody. cbn [map List.length].
    now rewrite !wide_record.
  - exact ChunkFacts.pipe_wideHeader.
Qed.

(** An empty file is answered with no record. *)
Lemma empty_file_answered (e : env) (f : file) (disk : Fs.store) :
  decoded e f disk ->
  content f = [] ->
  res (convert e (Some f) disk) = Some (ok e []).
Proof.
  intros Hdec Hc. apply ServerFacts.convert_rows_end; [assumption|].
  rewrite Hc. apply ChunkFacts.pipe_nil.
Qed.

(** *** The row cap *)

Lemma length_lines_repeat (crlf : bool) (r : Csv.row) (n : nat) :
  List.length (Csv.lines crlf (repeat r n))
  = n * List.length (Csv.line crlf r).
Proof.
  unfold Csv.lines. induction n as [|n IH]; [reflexivity|].
  cbn [repeat map List.concat]. rewrite length_app, IH. lia.
Qed.

Lemma manyRows_length : List.length Sample.manyRows = N.to_nat 100001.
Proof. apply repeat_length. Qed.

Lemma tooLong_decoded :
  decoded Sample.env0 (Sample.upload "big.csv" "text/csv" Sample.tooLong) [].
Proof.
  split; [discriminate|]. split; [reflexivity|].
  split; [|split; [discriminate|reflexivity]].
  cbn [content Sample.upload]. unfold Sample.tooLong, Csv.file.
  change (Csv.lines false ([Buffer_from "a"] :: Sample.manyRows))
    with (Csv.line false [Buffer_from "a"]
          ++ Csv.lines false Sample.manyRows).
  rewrite length_app.
  unfold Sample.manyRows. rewrite length_lines_repeat.
  change (List.length (Csv.line false [Buffer_from "a"])) with 2.
  change (List.length (Csv.line false [Buffer_from "1"])) with 2.
  unfold fileSize. lia.
Qed.

(** C2, at the failing input: a header line and 100,001 data lines are
    answered with 100,001 records.  Nothing in the handler compares the
    number of collected rows with [MAX_ROWS], and the decoder has no
    reader for the [maxRows] field: what it emits does not depend on
    that field (see [CsvParser.transform_loop]). *)
Theorem max_rows_not_enforced :
  exists data,
    res (convert Sample.env0
           (Some (Sample.upload "big.csv" "text/csv" Sample.tooLong)) [])
    = Some
        {| status := 200;
           body := JObj [("data", JArr data);
                         ("rowCount", JNum 100001);
                         ("processingTime", JStr "12ms")] |}
    /\ Z.of_nat (List.length data) = 100001%Z
    /\ (MAX_ROWS < Z.of_nat (List.length data))%Z.
Proof.
  set (header := [Csv.Bare (Buffer_from "a")]).
  set (rows := repeat [Csv.Bare (Buffer_from "1")] (N.to_nat 100001)).
  exists (map json_of_object
            (map (fun r => CsvParser.writeRow (Csv.values header)
                             (Csv.values r)) rows)).
  assert (Hlen : Z.of_nat (List.length rows) = 100001%Z)
    by (unfold rows; rewrite repeat_length; apply N_nat_Z).
  split; [|split].
  - rewrite (ServerFacts.convert_rows Sample.env0 _ [] header rows
               tooLong_decoded).
    + unfold ok, successBody. rewrite length_map, Hlen. reflexivity.
    + exists false. left. unfold rows. rewrite map_repeat. reflexivity.
    + constructor; [split; [reflexivity|discriminate]|].
      apply Forall_forall. intros r Hr.
      apply repeat_spec in Hr. subst r.
      split; [reflexivity|discriminate].
    + apply Forall_forall. intros r Hr.
      apply repeat_spec in Hr. now subst r.
    + right. apply ChunkFacts.fits. reflexivity.
  - now rewrite !length_map.
  - rewrite !length_map, Hlen. unfold MAX_ROWS. lia.
Qed.

(** *** The success body *)

Lemma all_digits_uint (u : Decimal.uint) :
  all_digits (NilEmpty.string_of_uint u) = true.
Proof. induction u; simpl; try rewrite IHu; reflexivity. Qed.

Lemma decimal_uint (u : Decimal.uint) :
  exists c s, NilZero.string_of_uint u = String c s
              /\ is_digit c = true /\ all_digits s = true.
Proof.
  destruct u; simpl; eexists; eexists;
    (split; [reflexivity|split; [reflexivity|]]);
    try reflexivity; apply all_digits_uint.
Qed.

(** [`${n}`] of an integer is a decimal integer that denotes it. *)
Lemma string_of_Z_decimal (z : Z) :
  is_decimal_integer (string_of_Z z) = true
  /\ exists d, string_of_Z z = NilZero.string_of_int d /\ Z.of_int d = z.
Proof.
  split.
  - unfold string_of_Z. destruct (Z.to_int z) as [u|u]; simpl.
    + destruct (decimal_uint u) as (c & s & -> & Hc & Hs).
      unfold is_decimal_integer.
      destruct (Ascii.eqb_spec c "-") as [->|_]; [discriminate Hc|].
      simpl. now rewrite Hc, Hs.
    + destruct (decimal_uint u) as (c & s & -> & Hc & Hs).
      simpl. now rewrite Hc, Hs.
  - exists (Z.to_int z). split; [reflexivity|apply DecimalZ.of_to].
Qed.

(** Whatever is emitted, a response with status 200 carries the
    success body. *)
Lemma listen_success_shape (e : env) (name : string)
  (evs : list CsvParser.event) :
  forall l,
    (forall r, res (out l) = Some r -> status r = 200%Z ->
               exists rs, body r = successBody e rs) ->
    forall r,
      res (out (fold_left (emit e name) evs l)) = Some r ->
      status r = 200%Z ->
      exists rs, body r = successBody e rs.
Proof.
  induction evs as [|ev evs IH]; intros l Hl; [exact Hl|].
  cbn [fold_left]. apply IH. intros r Hr Hs.
  rewrite ServerFacts.res_emit in Hr.
  destruct (res (out l)) as [r0|] eqn:E.
  - injection Hr as <-. now apply Hl.
  - destruct ev as [row|message|]; [discriminate Hr| |];
      injection Hr as <-; [discriminate Hs|].
    now exists (results l).
Qed.

(** C9: a response with status 200 has exactly the fields [data],
    [rowCount] and [processingTime], in this order; [rowCount] is the
    length of [data] and [processingTime] is the decimal integer
    [endTime - startTime] (milliseconds between the clock reading taken
    before the stream is opened and the one taken in the [end] listener
    before the response is sent) followed by ["ms"]. *)
Theorem success_body_fields (e : env) (req : option file) (disk : Fs.store)
  (r : response) :
  res (convert e req disk) = Some r ->
  status r = 200%Z ->
  (exists data,
      body r
      = JObj [("data", JArr data);
              ("rowCount", JNum (Z.of_nat (List.length data)));
              ("processingTime",
               JStr (string_of_Z (endTime e - startTime e) ++ "ms"))])
  /\ is_decimal_integer (string_of_Z (endTime e - startTime e)) = true
  /\ exists d, string_of_Z (endTime e - startTime e)
               = NilZero.string_of_int d
               /\ Z.of_int d = (endTime e - startTime e)%Z.
Proof.
  intros Hr Hs. split; [|apply string_of_Z_decimal].
  assert (Hmw : forall w message,
             res w = None ->
             res (errorMiddleware e w message) = Some r -> False).
  { intros w message Hw H. unfold errorMiddleware in H.
    rewrite ServerFacts.res_routed_send, Hw in H.
    injection H as <-. discriminate Hs. }
  assert (H : exists rs, body r = successBody e rs).
  { unfold convert in Hr. destruct req as [f|].
    - destruct (String.eqb (originalname f) "").
      { injection Hr as <-. discriminate Hs. }
      destruct (fileFilter f);
        [|exfalso; refine (Hmw _ _ _ Hr); reflexivity].
      destruct (Fs.writeFile (filename e f) (content f) disk) as [disk1|];
        [|exfalso; refine (Hmw _ _ _ Hr); reflexivity].
      destruct (fileSize <? Z.of_nat (List.length (content f)))%Z.
      { exfalso. refine (Hmw _ _ _ Hr).
        now rewrite ServerFacts.res_fs_unlink. }
      unfold handler, decode in Hr.
      destruct (if readFault e then None
                else Fs.lookup (filename e f) _) as [[stored|]|];
        try discriminate Hr.
      revert Hr Hs. apply listen_success_shape. discriminate.
    - injection Hr as <-. discriminate Hs. }
  destruct H as [rs ->]. exists (map json_of_object rs).
  unfold successBody. now rewrite length_map.
Qed.

Lemma success_body_fields_witness :
  (exists data,
      JObj [("data",
             JArr [JObj [("a", JStr "1"); ("b", JStr "2")];
                   JObj [("a", JStr "3"); ("b", JStr "4")]]);
            ("rowCount", JNum 2);
            ("processingTime", JStr "12ms")]
      = JObj [("data", JArr data);
              ("rowCount", JNum (Z.of_nat (List.length data)));
              ("processingTime", JStr "12ms")])
  /\ is_decimal_integer "12" = true
  /\ exists d, "12" = NilZero.string_of_int d /\ Z.of_int d = 12%Z.
Proof.
  apply (success_body_fields Sample.env0
           (Some (Sample.upload "t.csv" "text/csv" Sample.table)) []
           {| status := 200;
              body :=
                JObj [("data",
                       JArr [JObj [("a", JStr "1"); ("b", JStr "2")];
                             JObj [("a", JStr "3"); ("b", JStr "4")]]);
                      ("rowCount", JNum 2);
                      ("processingTime", JStr "12ms")] |}).
  - reflexivity.
  - reflexivity.
Defined.

(** *** Decode failures *)

(** X17: a data row of another length than the header (a blank line
    under a non-empty header is one) is answered with status 500 and the
    body [{ error: "Failed to convert file" }], whatever follows the row
    in the file; the rows collected before it are not part of the
    response.  Cells are bare or between quotes, and the header line
    lies within the first read of the file. *)
Lemma strict_mismatch_answered (e : env) (f : file) (disk : Fs.store)
  (crlf : bool) (header : list Csv.cell) (rows : list (list Csv.cell))
  (bad : list Csv.cell) (rest : buffer) :
  decoded e f disk ->
  content f
  = Csv.file crlf (Csv.spellings header) (map Csv.spellings rows)
    ++ Csv.line crlf (Csv.spellings bad) ++ rest ->
  Forall Csv.rowOk (header :: bad :: rows) ->
  Forall (fun r => List.length r = List.length header) rows ->
  List.length bad <> List.length header ->
  Csv.firstRead (content f) (Csv.spellings header) ->
  res (convert e (Some f) disk)
  = Some {| status := 500;
            body := JObj [("error", JStr "Failed to convert file")] |}.
Proof.
  intros Hdec Hc Hok Hlen Hbad Hfirst. rewrite Hc in Hfirst.
  destruct (ChunkFacts.pipe_qmismatch crlf header rows bad rest
              Hok Hlen Hbad Hfirst) as [more Hp].
  apply (ServerFacts.convert_rows_error e f disk
           (map (fun r => CsvParser.writeRow (Csv.values header)
                            (Csv.values r)) rows)
           CsvParser.rowLengthError more Hdec).
  rewrite Hc, map_map. exact Hp.
Qed.

Lemma strict_mismatch_answered_witness :
  res (convert Sample.env0
         (Some (Sample.upload "t.csv" "text/csv" Sample.shortRow)) [])
  = Some {| status := 500;
            body := JObj [("error", JStr "Failed to convert file")] |}.
Proof.
  apply (strict_mismatch_answered Sample.env0
           (Sample.upload "t.csv" "text/csv" Sample.shortRow) [] false
           [Csv.Bare (Buffer_from "a"); Csv.Bare (Buffer_from "b")]
           [[Csv.Bare (Buffer_from "1"); Csv.Bare (Buffer_from "2")]]
           [Csv.Bare (Buffer_from "3")] []).
  - repeat split; simpl; (lia || discriminate).
  - reflexivity.
  - repeat constructor; discriminate.
  - repeat constructor.
  - simpl. lia.
  - left. apply ChunkFacts.fits. reflexivity.
Defined.

(** The file [a,b / 1,2 / 3]: the row collected before the short one
    is not returned, and the stored file is removed. *)
Example short_row_answered :
  convert Sample.env0
    (Some (Sample.upload "t.csv" "text/csv" Sample.shortRow)) []
  = {| uploads := [];
       log := [Fs.OpWrite "1700000000000-t.csv";
               Fs.OpRead "1700000000000-t.csv";
               Fs.OpUnlink "1700000000000-t.csv" true];
       res := Some {| status := 500;
                      body := JObj [("error",
                                     JStr "Failed to convert file")] |};
       exitCode := None |}.
Proof. reflexivity. Qed.

(** X18: every decoded upload is answered, and in one of two ways:
    with status 200 and exactly the rows the parser emitted before
    [end], or, when the parser emits [error] first, with status 500 and
    the failure body, which carries no row. *)
Lemma decoded_answer (e : env) (f : file) (disk : Fs.store) :
  decoded e f disk ->
  (exists rs,
      CsvParser.pipe parserOptions (content f)
      = map CsvParser.Data rs ++ [CsvParser.End]
      /\ res (convert e (Some f) disk) = Some (ok e rs))
  \/ (exists rs message more,
         CsvParser.pipe parserOptions (content f)
         = map CsvParser.Data rs ++ CsvParser.Error message :: more
         /\ res (convert e (Some f) disk)
            = Some {| status := 500; body := failureBody |}).
Proof.
  intros Hdec.
  destruct (PipeFacts.pipe_cases parserOptions (content f))
    as [[rs Hp]|(rs & message & more & Hp)].
  - left. exists rs. split; [assumption|].
    now apply ServerFacts.convert_rows_end.
  - right. exists rs, message, more. split; [assumption|].
    now apply (ServerFacts.convert_rows_error e f disk rs message more).
Qed.

Lemma decoded_answer_witness :
  (exists rs,
      CsvParser.pipe parserOptions
        (content (Sample.upload "t.csv" "text/csv" Sample.table))
      = map CsvParser.Data rs ++ [CsvParser.End]
      /\ res (convert Sample.env0
                (Some (Sample.upload "t.csv" "text/csv" Sample.table)) [])
         = Some (ok Sample.env0 rs))
  \/ (exists rs message more,
         CsvParser.pipe parserOptions
           (content (Sample.upload "t.csv" "text/csv" Sample.table))
         = map CsvParser.Data rs ++ CsvParser.Error message :: more
         /\ res (convert Sample.env0
                   (Some (Sample.upload "t.csv" "text/csv" Sample.table)) [])
            = Some {| status := 500; body := failureBody |}).
Proof.
  apply (decoded_answer Sample.env0
           (Sample.upload "t.csv" "text/csv" Sample.table) []).
  repeat split; simpl; (lia || discriminate).
Defined.

(** C6, at the failing input: when the file stream fails, neither the
    [end] nor the [error] listener runs (the [error] listener sits on
    the parser, and [pipe] does not forward the faults of its source);
    the fault becomes an uncaught exception, no response is sent and
    the process is scheduled to exit with code 1. *)
Theorem read_fault_not_answered :
  res (convert Sample.faulty
         (Some (Sample.upload "t.csv" "text/csv" Sample.table)) [])
  = None
  /\ exitCode (convert Sample.faulty
                 (Some (Sample.upload "t.csv" "text/csv" Sample.table)) [])
     = Some 1%Z.
Proof. split; reflexivity. Qed.

(** *** The temp file *)

Lemma pipe_terminates (opts : CsvParser.options) (c : buffer) :
  existsb (fun ev => negb (CsvParser.is_data ev)) (CsvParser.pipe opts c)
  = true.
Proof. apply PipeFacts.piped_terminates. Qed.

(** What is delivered starts with rows and the first [end] or
    [error]. *)
Lemma delivered_first (evs : list CsvParser.event) :
  existsb (fun ev => negb (CsvParser.is_data ev)) evs = true ->
  exists rs t post,
    delivered false evs = map CsvParser.Data rs ++ t :: post
    /\ CsvParser.is_data t = false.
Proof.
  intros H.
  destruct (PipeFacts.first_terminal evs H) as (rs & t & post & -> & Ht).
  exists rs, t, (delivered true post). split; [|assumption].
  rewrite ServerFacts.delivered_rows.
  now destruct t; [discriminate Ht| |].
Qed.

Lemma fs_unlink_missing (w : world) (name : string) :
  Fs.lookup name (uploads w) = None ->
  uploads (fs_unlink w name) = uploads w
  /\ log (fs_unlink w name) = log w ++ [Fs.OpUnlink name false].
Proof.
  intros H. unfold fs_unlink.
  now rewrite (FsFacts.unlink_missing _ _ H).
Qed.

Lemma fs_unlink_present (w : world) (name : string) (st : Fs.store) :
  Fs.unlink name (uploads w) = Some st ->
  uploads (fs_unlink w name) = st
  /\ log (fs_unlink w name) = log w ++ [Fs.OpUnlink name true].
Proof. intros H. unfold fs_unlink. now rewrite H. Qed.

(** The first [end] or [error]: the listener tries the removal and
    answers. *)
Lemma emit_first (e : env) (name : string) (l : locals)
  (t : CsvParser.event) :
  CsvParser.is_data t = false ->
  res (out l) = None ->
  uploads (out (emit e name l t)) = uploads (fs_unlink (out l) name)
  /\ log (out (emit e name l t)) = log (fs_unlink (out l) name)
  /\ exitCode (out (emit e name l t)) = exitCode (out l)
  /\ exists r, res (out (emit e name l t)) = Some r.
Proof.
  intros Ht Hres.
  assert (Hexit : exitCode (fs_unlink (out l) name) = exitCode (out l)).
  { unfold fs_unlink. now destruct (Fs.unlink name (uploads (out l))). }
  destruct t as [row|message|]; [discriminate Ht| |].
  - rewrite ServerFacts.emit_error_fresh by assumption. cbn [out uploads
      log exitCode res]. repeat split; [assumption|]. eauto.
  - rewrite ServerFacts.emit_end_fresh by assumption. cbn [out uploads
      log exitCode res]. repeat split; [assumption|]. eauto.
Qed.

(** Once the file is gone, it stays away and no further removal of it
    succeeds, whatever is emitted and also when a listener raises. *)
Lemma emit_after_removal (e : env) (name : string)
  (ev : CsvParser.event) (l : locals) :
  Fs.lookup name (uploads (out l)) = None ->
  Fs.removals name (log (out l)) = 1 ->
  Fs.lookup name (uploads (out (emit e name l ev))) = None
  /\ Fs.removals name (log (out (emit e name l ev))) = 1.
Proof.
  intros Hgone Hone.
  destruct (fs_unlink_missing (out l) name Hgone) as [Hu Hl].
  assert (Hone' : Fs.removals name (log (fs_unlink (out l) name)) = 1).
  { rewrite Hl, FsFacts.removals_app, Hone. unfold Fs.removals. simpl.
    reflexivity. }
  destruct (CsvParser.is_data ev) eqn:Hev.
  - destruct ev; try discriminate Hev. now split.
  - destruct (res (out l)) as [r|] eqn:Hres.
    + rewrite (ServerFacts.emit_sent e name l ev r Hev Hres).
      cbn [out]. unfold uncaughtException. cbn [uploads log].
      rewrite <- Hu in Hgone.
      destruct (cleanupUploads_absent name _ Hgone) as [H1 H2].
      split; [assumption|].
      now rewrite FsFacts.removals_app, Hone', H2.
    + destruct (emit_first e name l ev Hev Hres) as (-> & -> & _).
      rewrite Hu. now split.
Qed.

Lemma listen_after_removal (e : env) (name : string)
  (evs : list CsvParser.event) :
  forall l,
    Fs.lookup name (uploads (out l)) = None ->
    Fs.removals name (log (out l)) = 1 ->
    Fs.lookup name (uploads (out (fold_left (emit e name) evs l))) = None
    /\ Fs.removals name
         (log (out (fold_left (emit e name) evs l))) = 1.
Proof.
  induction evs as [|ev evs IH]; intros l Hgone Hone; [now split|].
  cbn [fold_left].
  destruct (emit_after_removal e name ev l Hgone Hone) as [H1 H2].
  now apply IH.
Qed.

(** When the stored file is read without fault, the request leaves no
    file of its own behind, and exactly one removal of that file
    succeeds: in the [end] or [error] listener that runs first, or, for
    an oversize file, in the upload middleware. *)
Lemma temp_file_removed_once (e : env) (f : file) (disk : Fs.store) :
  originalname f <> "" ->
  fileFilter f = true ->
  Fs.lookup (filename e f) disk <> Some Fs.Directory ->
  readFault e = false ->
  NoDup (Fs.readdirSync disk) ->
  Fs.lookup (filename e f) (uploads (convert e (Some f) disk)) = None
  /\ Fs.removals (filename e f) (log (convert e (Some f) disk)) = 1.
Proof.
  intros Hname Hfilter Hdir Hread Hnd.
  apply String.eqb_neq in Hname.
  set (name := filename e f).
  destruct (FsFacts.writeFile_succeeds name (content f) disk Hdir)
    as [disk1 Hw].
  pose proof (FsFacts.lookup_writeFile _ _ _ _ Hw) as Hl.
  pose proof (FsFacts.writeFile_NoDup _ _ _ _ Hnd Hw) as Hnd1.
  destruct (FsFacts.unlink_regular _ _ _ Hl) as [disk2 Hu].
  destruct (FsFacts.unlink_removes _ _ _ Hnd1 Hu) as [Hgone _].
  unfold convert. fold name. rewrite Hname, Hfilter, Hw.
  destruct (fileSize <? Z.of_nat (List.length (content f)))%Z.
  - unfold errorMiddleware.
    rewrite ServerFacts.uploads_routed_send, ServerFacts.log_routed_send.
    unfold fs_unlink. cbn [uploads log].
    rewrite Hu. cbn [uploads log].
    split; [assumption|]. unfold Fs.removals. simpl.
    now rewrite String.eqb_refl.
  - unfold handler, decode. rewrite Hread.
    cbn [logged uploads log res exitCode app sent]. rewrite Hl.
    destruct (delivered_first _ (pipe_terminates parserOptions (content f)))
      as (rs & t & post & -> & Ht).
    unfold listen. rewrite fold_left_app, ServerFacts.listen_data.
    cbn [fold_left].
    match goal with
    | |- context [emit e name ?l0 t] =>
        destruct (emit_first e name l0 t Ht eq_refl) as (Eu & El & _);
        destruct (fs_unlink_present (out l0) name disk2 Hu) as [Fu Fl]
    end.
    apply listen_after_removal.
    + rewrite Eu, Fu. exact Hgone.
    + rewrite El, Fl. cbn [out log]. unfold Fs.removals. simpl.
      now rewrite String.eqb_refl.
Qed.

(** C5, at the failing input: the uploads directory holds a
    sub-directory that is listed before the stored file, and the file
    stream fails.  The handler has no listener for the fault and never
    calls [fs.unlink]; the purge of the [uncaughtException] handler
    stops at the sub-directory; the stored file stays, and no removal
    of it is ever tried. *)
Theorem read_fault_leaves_temp_file :
  filename Sample.faulty (Sample.upload "t.csv" "text/csv" Sample.table)
  = "1700000000000-t.csv"
  /\ convert Sample.faulty
       (Some (Sample.upload "t.csv" "text/csv" Sample.table))
       [("0000-archive", Fs.Directory)]
     = {| uploads := [("0000-archive", Fs.Directory);
                      ("1700000000000-t.csv", Fs.RegularFile Sample.table)];
          log := [Fs.OpWrite "1700000000000-t.csv";
                  Fs.OpRead "1700000000000-t.csv";
                  Fs.OpUnlink "0000-archive" false];
          res := None;
          exitCode := Some 1%Z |}
  /\ Fs.lookup "1700000000000-t.csv"
       (uploads (convert Sample.faulty
                   (Some (Sample.upload "t.csv" "text/csv" Sample.table))
                   [("0000-archive", Fs.Directory)]))
     = Some (Fs.RegularFile Sample.table)
  /\ Fs.removals "1700000000000-t.csv"
       (log (convert Sample.faulty
               (Some (Sample.upload "t.csv" "text/csv" Sample.table))
               [("0000-archive", Fs.Directory)]))
     = 0.
Proof. repeat split. Qed.

(** ** Further properties *)

(** *** Stored names *)

Lemma digits_dash_split (d1 : string) :
  forall d2 n1 n2,
    all_digits d1 = true -> all_digits d2 = true ->
    (d1 ++ String "-" n1)%string = (d2 ++ String "-" n2)%string ->
    d1 = d2 /\ n1 = n2.
Proof.
  induction d1 as [|c d1 IH]; intros [|c2 d2] n1 n2 H1 H2 E; simpl in *.
  - injection E as ->. now split.
  - injection E as <- _. discriminate H2.
  - injection E as -> _. discriminate H1.
  - injection E as -> E.
    apply andb_true_iff in H1 as [_ H1]. apply andb_true_iff in H2 as [_ H2].
    destruct (IH _ _ _ H1 H2 E) as [-> ->]. now split.
Qed.

Lemma decimal_dash_split (s1 s2 n1 n2 : string) :
  is_decimal_integer s1 = true -> is_decimal_integer s2 = true ->
  (s1 ++ String "-" n1)%string = (s2 ++ String "-" n2)%string ->
  s1 = s2 /\ n1 = n2.
Proof.
  destruct s1 as [|c1 s1]; [discriminate|].
  destruct s2 as [|c2 s2]; [discriminate|].
  intros H1 H2 E. simpl in E. injection E as -> E. simpl in H1, H2.
  destruct (Ascii.eqb c2 "-").
  - apply andb_true_iff in H1 as [_ H1]. apply andb_true_iff in H2 as [_ H2].
    destruct (digits_dash_split _ _ _ _ H1 H2 E) as [-> ->]. now split.
  - apply andb_true_iff in H1 as [_ H1]. apply andb_true_iff in H2 as [_ H2].
    destruct (digits_dash_split _ _ _ _ H1 H2 E) as [-> ->]. now split.
Qed.

Lemma string_of_Z_inj (z1 z2 : Z) :
  string_of_Z z1 = string_of_Z z2 -> z1 = z2.
Proof.
  unfold string_of_Z. intros E.
  assert (H : forall z,
             NilZero.int_of_string (NilZero.string_of_int (Z.to_int z))
             = Some (Z.to_int z)).
  { intros z. apply NilZero.isi; destruct z; simpl; try discriminate.
    - intros F. injection F as F. now apply DecimalPos.Unsigned.to_uint_nonnil in F.
    - intros F. injection F as F. now apply DecimalPos.Unsigned.to_uint_nonnil in F. }
  pose proof (H z1) as H1. rewrite E, H in H1. injection H1 as H1.
  rewrite <- (DecimalZ.of_to z1), <- (DecimalZ.of_to z2). now rewrite H1.
Qed.

(** X1: the stored name [`${Date.now()}-${file.originalname}`] determines
    both the clock reading and the original name: two uploads share a
    stored file exactly when they carry the same original name and are
    named in the same millisecond. *)
Theorem stored_name_collision (e1 e2 : env) (f1 f2 : file) :
  filename e1 f1 = filename e2 f2
  <-> Date_now e1 = Date_now e2 /\ originalname f1 = originalname f2.
Proof.
  unfold filename. split.
  - intros E.
    destruct (decimal_dash_split _ _ _ _
                (proj1 (string_of_Z_decimal (Date_now e1)))
                (proj1 (string_of_Z_decimal (Date_now e2))) E) as [Ht Hn].
    split; [now apply string_of_Z_inj|assumption].
  - now intros [-> ->].
Qed.

(** *** The upload filter *)

(** X2: the filter looks at the declared media type and at the end of
    the original name, and at nothing else: a part is accepted exactly
    when its type is [text/csv] or its name is some prefix followed by
    [.csv] (the comparison is case-sensitive and the bytes of the file
    play no role). *)
Theorem fileFilter_accepts (f : file) :
  fileFilter f = true
  <-> mimetype f = "text/csv"
      \/ exists stem, originalname f = (stem ++ ".csv")%string.
Proof.
  unfold fileFilter. rewrite orb_true_iff, String.eqb_eq, endsWith_spec.
  reflexivity.
Qed.

(** *** The listeners *)

(** Only the [data] listener touches [results] and [rowCount]. *)
Lemma emit_results (e : env) (name : string) (l : locals)
  (ev : CsvParser.event) :
  results (emit e name l ev)
  = match ev with
    | CsvParser.Data data => results l ++ [data]
    | _ => results l
    end
  /\ rowCount (emit e name l ev)
     = match ev with
       | CsvParser.Data data => S (rowCount l)
       | _ => rowCount l
       end.
Proof.
  unfold emit. destruct ev as [row|message|]; cbn [listener].
  - now split.
  - unfold on_error. now destruct (send _ _ _).
  - unfold on_end. now destruct (send _ _ _).
Qed.

(** X3: the counter and the array of the handler move together:
    whatever the parser emits, [results] holds every emitted row in
    emission order and [rowCount] is its length. *)
Theorem rowCount_counts_results (e : env) (name : string)
  (evs : list CsvParser.event) (w : world) :
  results (listen e name evs w) = CsvParser.rows evs
  /\ rowCount (listen e name evs w) = List.length (CsvParser.rows evs).
Proof.
  unfold listen.
  assert (H : forall l,
             results (fold_left (emit e name) evs l)
             = results l ++ CsvParser.rows evs
             /\ rowCount (fold_left (emit e name) evs l)
                = rowCount l + List.length (CsvParser.rows evs)).
  { induction evs as [|ev evs IH]; intros l.
    - simpl. now rewrite app_nil_r, Nat.add_0_r.
    - cbn [fold_left]. destruct (IH (emit e name l ev)) as [-> ->].
      destruct (emit_results e name l ev) as [-> ->].
      destruct ev; simpl.
      + rewrite <- app_assoc. split; [reflexivity|lia].
      + now split.
      + now split. }
  destruct (H {| results := []; rowCount := 0; out := w |}) as [-> ->].
  now split.
Qed.

(** *** Responses *)

(** The listeners answer with the success body or with the failure
    body, and with nothing else. *)
Lemma listen_response_cases (e : env) (name : string)
  (evs : list CsvParser.event) :
  forall l r,
    res (out l) = None ->
    res (out (fold_left (emit e name) evs l)) = Some r ->
    (status r = 200%Z /\ exists rs, body r = successBody e rs)
    \/ (status r = 500%Z /\ body r = failureBody).
Proof.
  induction evs as [|ev evs IH]; intros l r Hl Hr; cbn [fold_left] in Hr.
  - congruence.
  - destruct ev as [row|message|].
    + apply (IH (emit e name l (CsvParser.Data row)) r); assumption.
    + rewrite (ServerFacts.listen_keeps_response e name evs _
                 {| status := 500; body := failureBody |}) in Hr.
      * injection Hr as <-. right. now split.
      * now rewrite ServerFacts.emit_error_fresh.
    + rewrite (ServerFacts.listen_keeps_response e name evs _
                 {| status := 200; body := successBody e (results l) |}) in Hr.
      * injection Hr as <-. left. split; [reflexivity|]. now exists (results l).
      * now rewrite ServerFacts.emit_end_fresh.
Qed.

(** X4: the service answers in four ways and no other: 200 with the
    success body, 400 with the missing-file body, 500 with the decode
    failure body, or 500 with the body of the error middleware, whose
    [message] is the fixed text in production mode. *)
Theorem response_shapes (e : env) (req : option file) (disk : Fs.store)
  (r : response) :
  res (convert e req disk) = Some r ->
  (status r = 200%Z /\ exists rs, body r = successBody e rs)
  \/ (status r = 400%Z /\ body r = JObj [("error", JStr "No file uploaded")])
  \/ (status r = 500%Z
      /\ body r = JObj [("error", JStr "Failed to convert file")])
  \/ (status r = 500%Z
      /\ exists message,
           body r
           = JObj [("error", JStr "Server encountered an unexpected error");
                   ("message", JStr message)]
           /\ (production e = true -> message = "Please try again later")).
Proof.
  intros Hr.
  assert (Hmw : forall w message,
             res w = None ->
             res (errorMiddleware e w message) = Some r ->
             status r = 500%Z
             /\ exists m,
                  body r
                  = JObj [("error",
                           JStr "Server encountered an unexpected error");
                          ("message", JStr m)]
                  /\ (production e = true -> m = "Please try again later")).
  { intros w message Hw H. unfold errorMiddleware in H.
    rewrite ServerFacts.res_routed_send, Hw in H.
    injection H as <-. split; [reflexivity|].
    eexists. split; [reflexivity|]. now intros ->. }
  assert (Hnone : res (handler e None
                         {| uploads := disk; log := []; res := None;
                            exitCode := None |}) = Some r ->
                  status r = 400%Z
                  /\ body r = JObj [("error", JStr "No file uploaded")]).
  { intros H. injection H as <-. now split. }
  unfold convert in Hr. destruct req as [f|]; [|right; left; now apply Hnone].
  destruct (String.eqb (originalname f) ""); [right; left; now apply Hnone|].
  destruct (fileFilter f).
  - destruct (Fs.writeFile (filename e f) (content f) disk) as [disk1|].
    + destruct (fileSize <? Z.of_nat (List.length (content f)))%Z.
      * right. right. right.
        refine (Hmw _ _ _ Hr). now rewrite ServerFacts.res_fs_unlink.
      * unfold handler, decode in Hr.
        destruct (if readFault e then None
                  else Fs.lookup (filename e f) _) as [[stored|]|];
          try discriminate Hr.
        unfold listen in Hr.
        apply listen_response_cases in Hr; [|reflexivity].
        destruct Hr as [H|H].
        -- now left.
        -- right. right. now left.
    + right. right. right. now refine (Hmw _ _ _ Hr).
  - right. right. right. now refine (Hmw _ _ _ Hr).
Qed.

Lemma response_shapes_witness :
  (200%Z = 200%Z
   /\ exists rs,
        successBody Sample.env0
          [[("a", "1"); ("b", "2")]; [("a", "3"); ("b", "4")]]
        = successBody Sample.env0 rs)
  \/ (200%Z = 400%Z
      /\ successBody Sample.env0
          [[("a", "1"); ("b", "2")]; [("a", "3"); ("b", "4")]]
         = JObj [("error", JStr "No file uploaded")])
  \/ (200%Z = 500%Z
      /\ successBody Sample.env0
          [[("a", "1"); ("b", "2")]; [("a", "3"); ("b", "4")]]
         = JObj [("error", JStr "Failed to convert file")])
  \/ (200%Z = 500%Z
      /\ exists message,
           successBody Sample.env0
             [[("a", "1"); ("b", "2")]; [("a", "3"); ("b", "4")]]
           = JObj [("error", JStr "Server encountered an unexpected error");
                   ("message", JStr message)]
           /\ (production Sample.env0 = true
               -> message = "Please try again later")).
Proof.
  apply (response_shapes Sample.env0
           (Some (Sample.upload "t.csv" "text/csv" Sample.table)) []
           {| status := 200;
              body := successBody Sample.env0
                        [[("a", "1"); ("b", "2")];
                         [("a", "3"); ("b", "4")]] |}).
  reflexivity.
Defined.

(** *** The uploads directory across a request *)

Lemma lookup_fs_unlink_other (n name : string) (w : world) :
  n <> name ->
  Fs.lookup n (uploads (fs_unlink w name)) = Fs.lookup n (uploads w).
Proof.
  intros Hn. unfold fs_unlink.
  destruct (Fs.unlink name (uploads w)) as [st'|] eqn:E; [|reflexivity].
  apply (FsFacts.lookup_unlink_other n name _ _ Hn E).
Qed.

Lemma answers_rows (rs : list object) (evs : list CsvParser.event) :
  CsvParser.answers (map CsvParser.Data rs ++ evs) = CsvParser.answers evs.
Proof.
  unfold CsvParser.answers. induction rs as [|r rs IH]; [reflexivity|].
  exact IH.
Qed.

Lemma answers_none (evs : list CsvParser.event) :
  CsvParser.answers evs = 0 -> evs = map CsvParser.Data (CsvParser.rows evs).
Proof.
  unfold CsvParser.answers. induction evs as [|ev evs IH]; intros H;
    [reflexivity|].
  destruct ev; cbn [filter CsvParser.is_data negb] in H;
    try discriminate H.
  cbn [CsvParser.rows map]. now rewrite <- IH.
Qed.

(** A parser that emits [end] or [error] once emits rows around it. *)
Lemma answers_once (evs : list CsvParser.event) :
  CsvParser.answers evs <= 1 ->
  existsb (fun ev => negb (CsvParser.is_data ev)) evs = true ->
  exists rs t rs',
    evs = map CsvParser.Data rs ++ t :: map CsvParser.Data rs'
    /\ CsvParser.is_data t = false.
Proof.
  intros Hle Hex.
  destruct (PipeFacts.first_terminal evs Hex) as (rs & t & post & -> & Ht).
  rewrite answers_rows in Hle. unfold CsvParser.answers in Hle.
  cbn [filter] in Hle. rewrite Ht in Hle. cbn [negb List.length] in Hle.
  exists rs, t, (CsvParser.rows post). split; [|assumption].
  do 2 f_equal. apply answers_none. unfold CsvParser.answers. lia.
Qed.

(** One answer: all the listeners do to the directory is the removal
    of the stored file, tried once. *)
Lemma listen_once (e : env) (name : string) (evs : list CsvParser.event)
  (w : world) :
  CsvParser.answers evs <= 1 ->
  existsb (fun ev => negb (CsvParser.is_data ev)) evs = true ->
  res w = None ->
  uploads (out (listen e name evs w)) = uploads (fs_unlink w name).
Proof.
  intros Hle Hex Hres.
  destruct (answers_once evs Hle Hex) as (rs & t & rs' & -> & Ht).
  unfold listen. rewrite fold_left_app, ServerFacts.listen_data.
  cbn [fold_left]. rewrite ServerFacts.listen_data. cbn [out].
  match goal with
  | |- context [emit e name ?l0 t] =>
      destruct (emit_first e name l0 t Ht Hres) as (-> & _)
  end.
  reflexivity.
Qed.

(** X5: a request whose stored file is read without fault and makes
    the parser emit [end] or [error] once (at a second one the listener
    answers again, which raises and sets off the purge) touches no
    entry of the uploads directory but its own: under every other name
    the directory holds afterwards what it held before, whether the
    request was answered with 200, 400 or 500. *)
Theorem other_uploads_untouched (e : env) (req : option file)
  (disk : Fs.store) (n : string) :
  readFault e = false ->
  (forall f, req = Some f ->
     CsvParser.answers (CsvParser.pipe parserOptions (content f)) <= 1) ->
  (forall f, req = Some f -> n <> filename e f) ->
  Fs.lookup n (uploads (convert e req disk)) = Fs.lookup n disk.
Proof.
  intros Hread Hans Hn. unfold convert.
  destruct req as [f|]; [|reflexivity].
  specialize (Hn f eq_refl). specialize (Hans f eq_refl).
  destruct (String.eqb (originalname f) ""); [reflexivity|].
  destruct (fileFilter f); [|reflexivity].
  destruct (Fs.writeFile (filename e f) (content f) disk) as [disk1|] eqn:Hw;
    [|reflexivity].
  pose proof (FsFacts.lookup_writeFile_other n _ _ _ _ Hn Hw) as H1.
  destruct (fileSize <? Z.of_nat (List.length (content f)))%Z.
  - unfold errorMiddleware. rewrite ServerFacts.uploads_routed_send.
    now rewrite lookup_fs_unlink_other.
  - unfold handler, decode. rewrite Hread.
    cbn [logged uploads log res exitCode sent].
    rewrite (FsFacts.lookup_writeFile _ _ _ _ Hw).
    rewrite (ServerFacts.delivered_all _ Hans).
    rewrite listen_once;
      [|exact Hans|apply pipe_terminates|reflexivity].
    now rewrite lookup_fs_unlink_other.
Qed.

Lemma other_uploads_untouched_witness :
  Fs.lookup "1690000000000-old.csv"
    (uploads (convert Sample.env0
                (Some (Sample.upload "t.csv" "text/csv" Sample.table))
                Sample.leftovers))
  = Fs.lookup "1690000000000-old.csv" Sample.leftovers.
Proof.
  apply (other_uploads_untouched Sample.env0
           (Some (Sample.upload "t.csv" "text/csv" Sample.table))
           Sample.leftovers "1690000000000-old.csv").
  - reflexivity.
  - intros f Hf. injection Hf as <-. vm_compute. lia.
  - intros f Hf. injection Hf as <-. simpl. discriminate.
Defined.

(** X6: when no entry of the uploads directory bears the name the
    upload is stored under, the stored file is read without fault and
    the parser emits [end] or [error] once, the request leaves the
    directory exactly as it found it, whatever the file holds and
    however the request is answered. *)
Theorem directory_restored (e : env) (req : option file) (disk : Fs.store) :
  readFault e = false ->
  (forall f, req = Some f ->
     CsvParser.answers (CsvParser.pipe parserOptions (content f)) <= 1) ->
  (forall f, req = Some f -> Fs.lookup (filename e f) disk = None) ->
  uploads (convert e req disk) = disk.
Proof.
  intros Hread Hans Habsent. unfold convert.
  destruct req as [f|]; [|reflexivity].
  specialize (Habsent f eq_refl). specialize (Hans f eq_refl).
  destruct (String.eqb (originalname f) ""); [reflexivity|].
  destruct (fileFilter f); [|reflexivity].
  rewrite (FsFacts.writeFile_absent _ (content f) _ Habsent).
  pose proof (FsFacts.unlink_insert _ (content f) _ Habsent) as Hu.
  destruct (fileSize <? Z.of_nat (List.length (content f)))%Z.
  - unfold errorMiddleware. rewrite ServerFacts.uploads_routed_send.
    match goal with
    | |- context [fs_unlink ?w ?nm] =>
        exact (proj1 (fs_unlink_present w nm disk Hu))
    end.
  - unfold handler, decode. rewrite Hread.
    cbn [logged uploads log res exitCode sent].
    rewrite (FsFacts.lookup_insert _ _ _ Habsent).
    rewrite (ServerFacts.delivered_all _ Hans).
    rewrite listen_once;
      [|exact Hans|apply pipe_terminates|reflexivity].
    match goal with
    | |- context [fs_unlink ?w ?nm] =>
        exact (proj1 (fs_unlink_present w nm disk Hu))
    end.
Qed.

Lemma directory_restored_witness :
  uploads (convert Sample.env0
             (Some (Sample.upload "t.csv" "text/csv" Sample.shortRow))
             Sample.leftovers)
  = Sample.leftovers.
Proof.
  apply (directory_restored Sample.env0
           (Some (Sample.upload "t.csv" "text/csv" Sample.shortRow))
           Sample.leftovers).
  - reflexivity.
  - intros f Hf. injection Hf as <-. vm_compute. lia.
  - intros f Hf. injection Hf as <-. reflexivity.
Defined.

(** The file [a,b / 1,2 / 3] without a line end after the short row:
    the parser reports the row when the stream ends and then emits
    [end]; the second answer raises, and the purge of the
    [uncaughtException] handler removes the file another request has
    stored. *)
Example second_answer_purges :
  CsvParser.pipe parserOptions
    (Buffer_from ("a,b" ++ Sample.LF ++ "1,2" ++ Sample.LF ++ "3"))
  = [CsvParser.Data [("a", "1"); ("b", "2")];
     CsvParser.Error CsvParser.rowLengthError;
     CsvParser.End]
  /\ convert Sample.env0
       (Some (Sample.upload "t.csv" "text/csv"
                (Buffer_from ("a,b" ++ Sample.LF ++ "1,2" ++ Sample.LF
                              ++ "3"))))
       [("1690000000000-old.csv", Fs.RegularFile Sample.table)]
     = {| uploads := [];
          log := [Fs.OpWrite "1700000000000-t.csv";
                  Fs.OpRead "1700000000000-t.csv";
                  Fs.OpUnlink "1700000000000-t.csv" true;
                  Fs.OpUnlink "1700000000000-t.csv" false;
                  Fs.OpUnlink "1690000000000-old.csv" true];
          res := Some {| status := 500; body := failureBody |};
          exitCode := Some 1%Z |}.
Proof. split; reflexivity. Qed.

(** In an empty directory nothing a listener does leaves an entry. *)
Lemma emit_empty (e : env) (name : string) (ev : CsvParser.event)
  (l : locals) :
  uploads (out l) = [] -> uploads (out (emit e name l ev)) = [].
Proof.
  intros H.
  assert (Hu : uploads (fs_unlink (out l) name) = []).
  { unfold fs_unlink. now rewrite H. }
  destruct (CsvParser.is_data ev) eqn:Hev.
  - destruct ev; try discriminate Hev. exact H.
  - destruct (res (out l)) as [r|] eqn:Hres.
    + rewrite (ServerFacts.emit_sent e name l ev r Hev Hres).
      cbn [out]. unfold uncaughtException. cbn [uploads].
      now rewrite Hu.
    + now destruct (emit_first e name l ev Hev Hres) as (-> & _).
Qed.

Lemma listen_empty (e : env) (name : string) (evs : list CsvParser.event) :
  forall l,
    uploads (out l) = [] ->
    uploads (out (fold_left (emit e name) evs l)) = [].
Proof.
  induction evs as [|ev evs IH]; intros l H; [exact H|].
  cbn [fold_left]. apply IH. now apply emit_empty.
Qed.

(** X7: requests handled one after the other never leave anything in
    an uploads directory that was empty: whatever is uploaded, accepted
    or not, decoded or not, and also when a file stream fails (a
    process that is set to exit serves until it exits), the directory
    is empty again after each request. *)
Theorem uploads_stay_empty (reqs : list (env * option file)) :
  serve [] reqs = [].
Proof.
  unfold serve.
  assert (H : forall e req, uploads (convert e req []) = []).
  { intros e req. unfold convert. destruct req as [f|]; [|reflexivity].
    destruct (String.eqb (originalname f) ""); [reflexivity|].
    destruct (fileFilter f); [|reflexivity].
    cbn [Fs.writeFile Fs.lookup Fs.insert].
    destruct (fileSize <? Z.of_nat (List.length (content f)))%Z.
    - unfold errorMiddleware. rewrite ServerFacts.uploads_routed_send.
      unfold fs_unlink.
      cbn [uploads Fs.unlink Fs.is_regular].
      now rewrite String.eqb_refl.
    - unfold handler, decode. destruct (readFault e).
      + unfold uncaughtException, logged. cbn [uploads].
        rewrite cleanupUploads_regular; [reflexivity|].
        repeat constructor.
      + cbn [logged uploads log res exitCode sent Fs.lookup].
        rewrite String.eqb_refl.
        destruct (delivered_first _
                    (pipe_terminates parserOptions (content f)))
          as (rs & t & post & -> & Ht).
        unfold listen. rewrite fold_left_app, ServerFacts.listen_data.
        cbn [fold_left]. apply listen_empty.
        match goal with
        | |- context [emit e ?name ?l0 t] =>
            destruct (emit_first e name l0 t Ht eq_refl) as (-> & _)
        end.
        unfold fs_unlink, logged.
        cbn [out uploads Fs.unlink Fs.is_regular].
        now rewrite String.eqb_refl. }
  induction reqs as [|[e req] reqs IH]; [reflexivity|].
  cbn [fold_left fst snd]. now rewrite H.
Qed.

(** X8: when the stream of the stored file fails, the request is never
    answered, the process is set to exit with code 1, and the purge of
    the [uncaughtException] handler empties an uploads directory of
    regular files: the files other requests have stored are removed
    with the one that failed. *)
Theorem read_fault_takes_all (e : env) (f : file) (disk : Fs.store) :
  originalname f <> "" ->
  fileFilter f = true ->
  (Z.of_nat (List.length (content f)) <= fileSize)%Z ->
  readFault e = true ->
  Forall (fun p => Fs.is_regular (snd p) = true) disk ->
  uploads (convert e (Some f) disk) = []
  /\ res (convert e (Some f) disk) = None
  /\ exitCode (convert e (Some f) disk) = Some 1%Z.
Proof.
  intros Hname Hfilter Hsize Hread Hreg.
  apply String.eqb_neq in Hname.
  destruct (FsFacts.writeFile_succeeds (filename e f) (content f) disk
              (FsFacts.lookup_regular _ disk Hreg)) as [disk1 Hw].
  pose proof (FsFacts.writeFile_regular _ _ _ _ Hreg Hw) as Hreg1.
  unfold convert. rewrite Hname, Hfilter, Hw.
  replace (fileSize <? Z.of_nat (List.length (content f)))%Z with false
    by (symmetry; apply Z.ltb_ge; assumption).
  unfold handler, decode. rewrite Hread.
  unfold uncaughtException, logged. cbn [uploads res exitCode].
  now rewrite (cleanupUploads_regular disk1 Hreg1).
Qed.

Lemma read_fault_takes_all_witness :
  uploads (convert Sample.faulty
             (Some (Sample.upload "t.csv" "text/csv" Sample.table))
             [("1690000000000-old.csv", Fs.RegularFile Sample.table)])
  = []
  /\ res (convert Sample.faulty
            (Some (Sample.upload "t.csv" "text/csv" Sample.table))
            [("1690000000000-old.csv", Fs.RegularFile Sample.table)])
     = None
  /\ exitCode (convert Sample.faulty
                 (Some (Sample.upload "t.csv" "text/csv" Sample.table))
                 [("1690000000000-old.csv", Fs.RegularFile Sample.table)])
     = Some 1%Z.
Proof.
  apply (read_fault_takes_all Sample.faulty
           (Sample.upload "t.csv" "text/csv" Sample.table)
           [("1690000000000-old.csv", Fs.RegularFile Sample.table)]).
  - simpl. discriminate.
  - reflexivity.
  - simpl. unfold fileSize. lia.
  - reflexivity.
  - repeat constructor.
Defined.

(** X9: a part larger than 10 MiB is never decoded: the upload
    middleware removes what it stored and the error middleware answers
    with status 500 (message [File too large] outside production mode);
    the stored file is written and removed, and never read. *)
Theorem oversize_rejected (e : env) (f : file) (disk : Fs.store) :
  originalname f <> "" ->
  fileFilter f = true ->
  (fileSize < Z.of_nat (List.length (content f)))%Z ->
  Fs.lookup (filename e f) disk <> Some Fs.Directory ->
  res (convert e (Some f) disk)
  = Some {| status := 500;
            body :=
              JObj [("error", JStr "Server encountered an unexpected error");
                    ("message",
                     JStr (if production e then "Please try again later"
                           else "File too large"))] |}
  /\ log (convert e (Some f) disk)
     = [Fs.OpWrite (filename e f); Fs.OpUnlink (filename e f) true].
Proof.
  intros Hname Hfilter Hsize Hdir.
  apply String.eqb_neq in Hname. apply Z.ltb_lt in Hsize.
  destruct (FsFacts.writeFile_succeeds (filename e f) (content f) disk Hdir)
    as [disk1 Hw].
  destruct (FsFacts.unlink_regular _ _ _
              (FsFacts.lookup_writeFile _ _ _ _ Hw)) as [disk2 Hu].
  unfold convert. rewrite Hname, Hfilter, Hw, Hsize.
  unfold errorMiddleware.
  rewrite ServerFacts.log_routed_send, ServerFacts.res_routed_send.
  rewrite ServerFacts.res_fs_unlink. cbn [res].
  split; [reflexivity|].
  unfold fs_unlink. cbn [uploads log]. now rewrite Hu.
Qed.

Lemma oversize_rejected_witness :
  res (convert Sample.env0
         (Some (Sample.upload "big.csv" "text/csv" Sample.oversize)) [])
  = Some {| status := 500;
            body :=
              JObj [("error", JStr "Server encountered an unexpected error");
                    ("message", JStr "File too large")] |}
  /\ log (convert Sample.env0
            (Some (Sample.upload "big.csv" "text/csv" Sample.oversize)) [])
     = [Fs.OpWrite "1700000000000-big.csv";
        Fs.OpUnlink "1700000000000-big.csv" true].
Proof.
  apply (oversize_rejected Sample.env0
           (Sample.upload "big.csv" "text/csv" Sample.oversize) []).
  - unfold Sample.upload. cbn [originalname]. discriminate.
  - reflexivity.
  - unfold Sample.upload, Sample.oversize, fileSize. cbn [content].
    rewrite repeat_length, N_nat_Z. reflexivity.
  - cbn [Fs.lookup]. discriminate.
Defined.

(** *** The purge and the ways out *)

(** X10: the purge is idempotent: a second run leaves the directory as
    the first run left it and removes nothing, because the first run
    stopped either on an empty directory or at an entry that cannot be
    removed and that is still listed first. *)
Theorem purge_idempotent (st : Fs.store) :
  startup (startup st) = startup st
  /\ forall n, Fs.removals n (snd (cleanupUploads (startup st))) = 0.
Proof.
  destruct (store_split st) as (files & rest & -> & Hf & Hr).
  unfold startup. rewrite (cleanupUploads_split files rest Hf Hr).
  cbn [fst].
  pose proof (cleanupUploads_split [] rest (Forall_nil _) Hr) as E.
  cbn [app map] in E. rewrite E.
  split; [reflexivity|]. intros n. cbn [snd].
  now destruct rest as [|[n0 e0] rest].
Qed.

(** X11: the two ways out of the process purge the uploads as start-up
    does and leave the same directory; the start-up purge of the next
    run finds nothing more that it can remove.  Neither sends a
    response.  [gracefulShutdown] exits with code 0 exactly when the
    server closed before the 10 s timer, the [uncaughtException]
    handler always with code 1. *)
Theorem exits_purge_like_startup (closed : bool) (w : world) :
  uploads (gracefulShutdown closed w) = uploads (uncaughtException w)
  /\ startup (uploads (gracefulShutdown closed w))
     = uploads (gracefulShutdown closed w)
  /\ res (gracefulShutdown closed w) = res w
  /\ res (uncaughtException w) = res w
  /\ (exitCode (gracefulShutdown closed w) = Some 0%Z <-> closed = true)
  /\ exitCode (uncaughtException w) = Some 1%Z.
Proof.
  split; [reflexivity|]. split.
  - cbn [gracefulShutdown uploads].
    destruct (store_split (uploads w)) as (files & rest & -> & Hf & Hr).
    unfold startup. rewrite (cleanupUploads_split files rest Hf Hr).
    cbn [fst].
    pose proof (cleanupUploads_split [] rest (Forall_nil _) Hr) as E.
    cbn [app map] in E. now rewrite E.
  - split; [reflexivity|]. split; [reflexivity|]. split; [|reflexivity].
    simpl. destruct closed; split; intros H; try reflexivity;
      discriminate H.
Qed.

(** *** The response and the directory *)

(** X12: the response depends on the events of the parser alone: not on
    what the uploads directory holds, not on the name of the stored
    file, and not on whether [fs.unlink] succeeds (its callback only
    logs the error). *)
Theorem response_ignores_directory (e : env) (name1 name2 : string)
  (evs : list CsvParser.event) (w1 w2 : world) :
  res w1 = res w2 ->
  res (out (listen e name1 evs w1)) = res (out (listen e name2 evs w2)).
Proof.
  intros H. unfold listen.
  assert (G : forall l1 l2,
             results l1 = results l2 ->
             res (out l1) = res (out l2) ->
             res (out (fold_left (emit e name1) evs l1))
             = res (out (fold_left (emit e name2) evs l2))).
  { induction evs as [|ev evs IH]; intros l1 l2 Hr Ho; [assumption|].
    cbn [fold_left]. apply IH.
    - destruct (emit_results e name1 l1 ev) as [-> _].
      destruct (emit_results e name2 l2 ev) as [-> _].
      now rewrite Hr.
    - now rewrite !ServerFacts.res_emit, Ho, Hr. }
  now apply G.
Qed.

Lemma response_ignores_directory_witness :
  res (out (listen Sample.env0 "1700000000000-t.csv"
              [CsvParser.Data [("a", "1")]; CsvParser.End]
              (listening "1700000000000-t.csv"
                 [("1700000000000-t.csv", Fs.RegularFile Sample.table)])))
  = res (out (listen Sample.env0 "1700000000000-t.csv"
                [CsvParser.Data [("a", "1")]; CsvParser.End]
                (listening "1700000000000-t.csv" []))).
Proof.
  apply (response_ignores_directory Sample.env0
           "1700000000000-t.csv" "1700000000000-t.csv"
           [CsvParser.Data [("a", "1")]; CsvParser.End]
           (listening "1700000000000-t.csv"
              [("1700000000000-t.csv", Fs.RegularFile Sample.table)])
           (listening "1700000000000-t.csv" [])).
  reflexivity.
Defined.

(** *** The records of a response *)

(** A response with status 200 carries the rows the parser emitted for
    the uploaded bytes before [end]. *)
Lemma success_rows (e : env) (req : option file) (disk : Fs.store)
  (r : response) :
  res (convert e req disk) = Some r ->
  status r = 200%Z ->
  exists f rs,
    req = Some f
    /\ CsvParser.pipe parserOptions (content f)
       = map CsvParser.Data rs ++ [CsvParser.End]
    /\ body r = successBody e rs.
Proof.
  intros Hr Hs.
  assert (Hmw : forall w message,
             res w = None ->
             res (errorMiddleware e w message) = Some r -> False).
  { intros w message Hw H. unfold errorMiddleware in H.
    rewrite ServerFacts.res_routed_send, Hw in H.
    injection H as <-. discriminate Hs. }
  unfold convert in Hr. destruct req as [f|].
  - destruct (String.eqb (originalname f) "").
    { injection Hr as <-. discriminate Hs. }
    destruct (fileFilter f);
      [|exfalso; refine (Hmw _ _ _ Hr); reflexivity].
    destruct (Fs.writeFile (filename e f) (content f) disk)
      as [disk1|] eqn:Hw;
      [|exfalso; refine (Hmw _ _ _ Hr); reflexivity].
    destruct (fileSize <? Z.of_nat (List.length (content f)))%Z.
    { exfalso. refine (Hmw _ _ _ Hr).
      now rewrite ServerFacts.res_fs_unlink. }
    unfold handler, decode in Hr.
    cbn [logged uploads log res exitCode sent] in Hr.
    rewrite (FsFacts.lookup_writeFile _ _ _ _ Hw) in Hr.
    destruct (readFault e); [discriminate Hr|].
    exists f.
    destruct (PipeFacts.pipe_cases parserOptions (content f))
      as [[rs Hp]|(rs & message & more & Hp)];
      rewrite Hp, ServerFacts.delivered_rows in Hr; cbn [delivered] in Hr.
    + rewrite ServerFacts.listen_rows_end in Hr by reflexivity.
      injection Hr as <-. now exists rs.
    + rewrite ServerFacts.listen_rows_error in Hr by reflexivity.
      injection Hr as <-. discriminate Hs.
  - injection Hr as <-. discriminate Hs.
Qed.

(** **** Keys of an object *)

Lemma assign_names (o1 : object) :
  forall o2 k v1 v2,
    map fst o1 = map fst o2 ->
    map fst (assign o1 k v1) = map fst (assign o2 k v2).
Proof.
  induction o1 as [|[k1 x1] o1 IH]; intros [|[k2 x2] o2] k v1 v2 H;
    try discriminate H; [reflexivity|].
  simpl in H. injection H as -> H. simpl.
  destruct (String.eqb k2 k); simpl; [now rewrite H|].
  now rewrite (IH o2 k v1 v2 H).
Qed.

Lemma set_names (o1 o2 : object) (k v1 v2 : string) :
  map fst o1 = map fst o2 ->
  map fst (set o1 k v1) = map fst (set o2 k v2).
Proof.
  intros H. unfold set. destruct (String.eqb k "__proto__"); [assumption|].
  now apply assign_names.
Qed.

Lemma writeRow_from_names (hs : list string) :
  forall c1 c2 index o1 o2,
    List.length c1 = List.length hs ->
    List.length c2 = List.length hs ->
    map fst o1 = map fst o2 ->
    map fst (CsvParser.writeRow_from index hs c1 o1)
    = map fst (CsvParser.writeRow_from index hs c2 o2).
Proof.
  induction hs as [|h hs IH]; intros [|x1 c1] [|x2 c2] index o1 o2 H1 H2 Ho;
    try discriminate; [assumption|].
  cbn [CsvParser.writeRow_from]. apply IH.
  - now injection H1.
  - now injection H2.
  - destruct (CsvParser.reserved h); [assumption|now apply set_names].
Qed.

Lemma insertIndex_names (n : N) (k v1 v2 : string) :
  forall l1 l2,
    map (fun x => (fst x, fst (snd x))) l1
    = map (fun x => (fst x, fst (snd x))) l2 ->
    map (fun x => (fst x, fst (snd x))) (insertIndex n (k, v1) l1)
    = map (fun x => (fst x, fst (snd x))) (insertIndex n (k, v2) l2).
Proof.
  induction l1 as [|[m1 [k1 x1]] l1 IH]; intros [|[m2 [k2 x2]] l2] H;
    try discriminate H; [reflexivity|].
  simpl in H. injection H as -> -> H. simpl.
  destruct (n <? m2)%N; simpl; [now rewrite H|].
  now rewrite (IH l2 H).
Qed.

Lemma indexProps_names (o1 : object) :
  forall o2,
    map fst o1 = map fst o2 ->
    map (fun x => (fst x, fst (snd x))) (indexProps o1)
    = map (fun x => (fst x, fst (snd x))) (indexProps o2).
Proof.
  induction o1 as [|[k1 x1] o1 IH]; intros [|[k2 x2] o2] H;
    try discriminate H; [reflexivity|].
  simpl in H. injection H as -> H. simpl.
  destruct (arrayIndex k2); [|now apply IH].
  apply insertIndex_names. now apply IH.
Qed.

Lemma namedProps_names (o : object) :
  map fst (namedProps o)
  = filter (fun k => negb (isIndex k)) (map fst o).
Proof.
  unfold namedProps, isIndex.
  induction o as [|[k v] o IH]; [reflexivity|].
  simpl. destruct (arrayIndex k); simpl; now rewrite IH.
Qed.

(** The keys of an object and their order depend on the names of its
    properties alone. *)
Lemma keys_names (o1 o2 : object) :
  map fst o1 = map fst o2 -> keys o1 = keys o2.
Proof.
  intros H. unfold keys, entries. rewrite !map_app, !namedProps_names, H.
  f_equal. rewrite !map_map.
  pose proof (indexProps_names o1 o2 H) as Hi.
  apply (f_equal (map snd)) in Hi. rewrite !map_map in Hi. exact Hi.
Qed.

(** X13: the records of one response all have the same keys in the
    same order: whatever bytes are uploaded, every row the parser emits
    is built on the one header line, from as many cells as the header
    has names. *)
Theorem records_share_keys (e : env) (req : option file) (disk : Fs.store)
  (r : response) :
  res (convert e req disk) = Some r ->
  status r = 200%Z ->
  exists rs,
    body r = successBody e rs
    /\ forall o1 o2, In o1 rs -> In o2 rs -> keys o1 = keys o2.
Proof.
  intros Hr Hs.
  destruct (success_rows e req disk r Hr Hs) as (f & rs & _ & Hp & Hb).
  exists rs. split; [assumption|].
  destruct (PipeFacts.pipe_uniform (content f)) as [hs Hhs].
  rewrite Hp in Hhs. apply Forall_app in Hhs as [Hhs _].
  rewrite Forall_forall in Hhs.
  intros o1 o2 H1 H2.
  destruct (Hhs (CsvParser.Data o1) (in_map _ _ _ H1)) as (c1 & L1 & ->).
  destruct (Hhs (CsvParser.Data o2) (in_map _ _ _ H2)) as (c2 & L2 & ->).
  apply keys_names. now apply writeRow_from_names.
Qed.

Lemma records_share_keys_witness :
  exists rs,
    successBody Sample.env0
      [[("a", "1"); ("b", "2")]; [("a", "3"); ("b", "4")]]
    = successBody Sample.env0 rs
    /\ forall o1 o2, In o1 rs -> In o2 rs -> keys o1 = keys o2.
Proof.
  apply (records_share_keys Sample.env0
           (Some (Sample.upload "t.csv" "text/csv" Sample.table)) []
           {| status := 200;
              body := successBody Sample.env0
                        [[("a", "1"); ("b", "2")];
                         [("a", "3"); ("b", "4")]] |}).
  - reflexivity.
  - reflexivity.
Defined.

Lemma assign_present (o : object) (k v : string) :
  In k (map fst o) -> map fst (assign o k v) = map fst o.
Proof.
  induction o as [|[k' v'] o IH]; intros H; [destruct H|].
  simpl. destruct (String.eqb_spec k' k) as [->|Hne]; [reflexivity|].
  simpl. f_equal. apply IH. destruct H as [H|H]; [contradiction|assumption].
Qed.

Lemma set_NoDup (o : object) (k v : string) :
  NoDup (map fst o) /\ ~ In "__proto__" (map fst o) ->
  NoDup (map fst (set o k v)) /\ ~ In "__proto__" (map fst (set o k v)).
Proof.
  intros [Hnd Hp]. unfold set.
  destruct (String.eqb_spec k "__proto__") as [->|Hk]; [now split|].
  destruct (in_dec string_dec k (map fst o)) as [Hin|Hout].
  - rewrite (assign_present o k v Hin). now split.
  - rewrite (JsFacts.assign_fresh o k v Hout), map_app. simpl. split.
    + apply NoDup_app.
      * assumption.
      * repeat constructor. intros [].
      * intros x Hx [<-|[]]. contradiction.
    + rewrite in_app_iff. simpl. intros [H|[H|[]]]; [contradiction|].
      now apply Hk.
Qed.

Lemma writeRow_from_NoDup (cells : list string) :
  forall hs index o,
    NoDup (map fst o) /\ ~ In "__proto__" (map fst o) ->
    NoDup (map fst (CsvParser.writeRow_from index hs cells o))
    /\ ~ In "__proto__" (map fst (CsvParser.writeRow_from index hs cells o)).
Proof.
  induction cells as [|cell cells IH]; intros hs index o H; [exact H|].
  destruct hs as [|h hs]; cbn [CsvParser.writeRow_from]; apply IH;
    [|destruct (CsvParser.reserved h); [exact H|]]; now apply set_NoDup.
Qed.

Lemma insertIndex_perm (n : N) (kv : string * string) :
  forall l, Permutation (insertIndex n kv l) ((n, kv) :: l).
Proof.
  induction l as [|[m kv'] l IH]; [reflexivity|].
  simpl. destruct (n <? m)%N; [reflexivity|].
  rewrite IH. apply perm_swap.
Qed.

(** Enumeration reorders the properties and neither drops nor repeats
    one. *)
Lemma entries_perm (o : object) : Permutation (entries o) o.
Proof.
  unfold entries. induction o as [|[k v] o IH]; [reflexivity|].
  cbn [indexProps namedProps filter fst].
  fold (namedProps o).
  destruct (arrayIndex k) as [n|].
  - rewrite (Permutation_map snd (insertIndex_perm n (k, v) (indexProps o))).
    simpl. now constructor.
  - rewrite <- Permutation_middle. now constructor.
Qed.

Lemma keys_perm (o : object) : Permutation (keys o) (map fst o).
Proof. unfold keys. apply Permutation_map, entries_perm. Qed.

(** X14: every record of a response has pairwise distinct keys, and
    none of them is [__proto__]: a column of that name is dropped from
    every record, and a header name that occurs twice makes one key. *)
Theorem records_have_distinct_keys (e : env) (req : option file)
  (disk : Fs.store) (r : response) :
  res (convert e req disk) = Some r ->
  status r = 200%Z ->
  exists rs,
    body r = successBody e rs
    /\ Forall (fun o => NoDup (keys o) /\ ~ In "__proto__" (keys o)) rs.
Proof.
  intros Hr Hs.
  destruct (success_rows e req disk r Hr Hs) as (f & rs & _ & Hp & Hb).
  exists rs. split; [assumption|].
  destruct (PipeFacts.pipe_uniform (content f)) as [hs Hhs].
  rewrite Hp in Hhs. apply Forall_app in Hhs as [Hhs _].
  rewrite Forall_forall in Hhs. apply Forall_forall. intros o Ho.
  destruct (Hhs (CsvParser.Data o) (in_map _ _ _ Ho)) as (c & _ & ->).
  destruct (writeRow_from_NoDup c hs 0 []) as [Hnd Hp'].
  { split; [constructor|intros []]. }
  split.
  - apply (Permutation_NoDup (Permutation_sym (keys_perm _))). exact Hnd.
  - intros Hin. apply Hp'.
    apply (Permutation_in _ (keys_perm _)). exact Hin.
Qed.

Lemma records_have_distinct_keys_witness :
  exists rs,
    successBody Sample.env0
      [[("a", "1"); ("b", "2")]; [("a", "3"); ("b", "4")]]
    = successBody Sample.env0 rs
    /\ Forall (fun o => NoDup (keys o) /\ ~ In "__proto__" (keys o)) rs.
Proof.
  apply (records_have_distinct_keys Sample.env0
           (Some (Sample.upload "t.csv" "text/csv" Sample.table)) []
           {| status := 200;
              body := successBody Sample.env0
                        [[("a", "1"); ("b", "2")];
                         [("a", "3"); ("b", "4")]] |}).
  - reflexivity.
  - reflexivity.
Defined.

(** **** Values of an object *)

Lemma get_assign (o : object) (k v k' : string) :
  get (assign o k v) k' = if String.eqb k k' then Some v else get o k'.
Proof.
  induction o as [|[k0 v0] o IH]; [reflexivity|].
  simpl. destruct (String.eqb_spec k0 k) as [->|Hne]; simpl.
  - now destruct (String.eqb k k').
  - rewrite IH. destruct (String.eqb_spec k0 k') as [->|_]; [|reflexivity].
    destruct (String.eqb_spec k k') as [->|_]; [contradiction|reflexivity].
Qed.

Lemma get_set_other (o : object) (k v k' : string) :
  k <> k' -> get (set o k v) k' = get o k'.
Proof.
  intros H. unfold set. destruct (String.eqb k "__proto__"); [reflexivity|].
  rewrite get_assign.
  destruct (String.eqb_spec k k') as [->|_]; [contradiction|reflexivity].
Qed.

Lemma get_writeRow_from_other (hs : list string) (k : string) :
  forall cells index o,
    List.length cells = List.length hs ->
    ~ In k hs ->
    get (CsvParser.writeRow_from index hs cells o) k = get o k.
Proof.
  induction hs as [|h hs IH]; intros [|cell cells] index o Hlen Hk;
    try discriminate Hlen; [reflexivity|].
  cbn [CsvParser.writeRow_from]. rewrite IH.
  - destruct (CsvParser.reserved h); [reflexivity|].
    apply get_set_other. intros ->. apply Hk. now left.
  - now injection Hlen.
  - intros H. apply Hk. now right.
Qed.

Lemma writeRow_from_app (hs1 : list string) :
  forall c1 hs2 c2 index o,
    List.length c1 = List.length hs1 ->
    CsvParser.writeRow_from index (hs1 ++ hs2) (c1 ++ c2) o
    = CsvParser.writeRow_from (index + List.length hs1) hs2 c2
        (CsvParser.writeRow_from index hs1 c1 o).
Proof.
  induction hs1 as [|h hs1 IH]; intros [|x c1] hs2 c2 index o Hlen;
    try discriminate Hlen.
  - simpl. now rewrite Nat.add_0_r.
  - cbn [app CsvParser.writeRow_from List.length].
    rewrite IH by now injection Hlen.
    now rewrite Nat.add_succ_r.
Qed.

Lemma get_In (o : object) (k v : string) :
  NoDup (map fst o) -> (In (k, v) o <-> get o k = Some v).
Proof.
  induction o as [|[k0 v0] o IH]; intros Hnd; simpl.
  - split; [intros []|discriminate].
  - inversion Hnd as [|? ? Hout Hnd']; subst.
    destruct (String.eqb_spec k0 k) as [->|Hne].
    + split.
      * intros [H|H]; [now injection H as ->|].
        exfalso. apply Hout. now apply (in_map fst) in H.
      * intros H. injection H as ->. now left.
    + rewrite <- (IH Hnd'). split.
      * intros [H|H]; [injection H as -> _; contradiction|assumption].
      * now right.
Qed.

(** A name that heads several columns names one property, which holds
    the cell of the last of these columns. *)
Lemma writeRow_last_wins (hs1 hs2 c1 c2 : list string) (k v v' : string) :
  List.length c1 = List.length hs1 ->
  List.length c2 = List.length hs2 ->
  ~ In k hs2 ->
  CsvParser.reserved k = false ->
  In (k, v') (entries (CsvParser.writeRow (hs1 ++ k :: hs2) (c1 ++ v :: c2)))
  <-> v' = v.
Proof.
  intros L1 L2 Hk Hp.
  set (o := CsvParser.writeRow (hs1 ++ k :: hs2) (c1 ++ v :: c2)).
  assert (Hnd : NoDup (map fst o)).
  { apply writeRow_from_NoDup. split; [constructor|intros []]. }
  assert (Hget : get o k = Some v).
  { unfold o, CsvParser.writeRow. rewrite writeRow_from_app by assumption.
    cbn [CsvParser.writeRow_from].
    rewrite get_writeRow_from_other by assumption.
    rewrite Hp. unfold set.
    rewrite (JsFacts.reserved_proto k Hp), get_assign.
    now rewrite String.eqb_refl. }
  split.
  - intros Hin. apply (Permutation_in _ (entries_perm o)) in Hin.
    apply (get_In o k v' Hnd) in Hin. congruence.
  - intros ->.
    apply (Permutation_in _ (Permutation_sym (entries_perm o))).
    now apply (get_In o k v Hnd).
Qed.

(** The cells of a row around the column [n]. *)
Lemma row_around (r : list string) (n : nat) :
  n < List.length r ->
  r = firstn n r ++ nth n r "" :: skipn (S n) r.
Proof.
  revert n. induction r as [|x r IH]; intros n H; simpl in H; [lia|].
  destruct n as [|n]; [reflexivity|].
  cbn [firstn nth skipn app]. f_equal. apply IH. lia.
Qed.

(** X15: when a header name occurs in several columns, every record of
    the response has one property of that name and it holds the cell of
    the last of these columns: the cells of the earlier ones are not in
    the response.  (The names [__proto__], [constructor] and
    [prototype] are left aside, and the header line lies within the
    first read of the file.) *)
Theorem duplicate_header_last_wins (e : env) (f : file) (disk : Fs.store)
  (h1 h2 : list Csv.cell) (x : Csv.cell) (rows : list (list Csv.cell)) :
  decoded e f disk ->
  Csv.encodes (content f) (Csv.spellings (h1 ++ x :: h2))
    (map Csv.spellings rows) ->
  Forall Csv.rowOk ((h1 ++ x :: h2) :: rows) ->
  Forall (fun r => List.length r = List.length (h1 ++ x :: h2)) rows ->
  Csv.firstRead (content f) (Csv.spellings (h1 ++ x :: h2)) ->
  ~ In (toString (Csv.value x)) (Csv.values h2) ->
  CsvParser.reserved (toString (Csv.value x)) = false ->
  exists rs,
    res (convert e (Some f) disk) = Some (ok e rs)
    /\ Forall2
         (fun r o =>
            forall v',
              In (toString (Csv.value x), v') (entries o)
              <-> v' = nth (List.length h1) (Csv.values r) "")
         rows rs.
Proof.
  intros Hdec Hc Hok Hlen Hfirst Hk Hres.
  exists (map (fun r => CsvParser.writeRow (Csv.values (h1 ++ x :: h2))
                          (Csv.values r)) rows).
  split; [now apply ServerFacts.convert_rows|].
  clear Hdec Hc Hok Hfirst.
  induction rows as [|r rows IH]; [constructor|].
  cbn [map]. constructor; [|apply IH, (Forall_inv_tail Hlen)].
  pose proof (Forall_inv Hlen) as Hr. intros v'.
  assert (Hn : List.length h1 < List.length (Csv.values r)).
  { unfold Csv.values. rewrite length_map, Hr, length_app. simpl. lia. }
  assert (Hall : List.length (Csv.values r)
                 = List.length h1 + S (List.length h2)).
  { unfold Csv.values. rewrite length_map, Hr, length_app. reflexivity. }
  rewrite (row_around (Csv.values r) (List.length h1) Hn) at 1.
  unfold Csv.values at 1. rewrite map_app. cbn [map].
  apply writeRow_last_wins; try assumption.
  - rewrite length_firstn, length_map. lia.
  - rewrite length_skipn, length_map. unfold Csv.values in Hall.
    rewrite length_map in Hall. unfold Csv.values. rewrite length_map. lia.
Qed.

Lemma duplicate_header_last_wins_witness :
  exists rs,
    res (convert Sample.env0
           (Some (Sample.upload "ids.csv" "text/csv"
                    (Buffer_from ("id,name,id" ++ Sample.LF
                                  ++ "1,Ann,7" ++ Sample.LF)))) [])
    = Some (ok Sample.env0 rs)
    /\ Forall2
         (fun r o =>
            forall v',
              In ("id", v') (entries o)
              <-> v' = nth 2 (Csv.values r) "")
         [[Csv.Bare (Buffer_from "1"); Csv.Bare (Buffer_from "Ann");
           Csv.Bare (Buffer_from "7")]]
         rs.
Proof.
  apply (duplicate_header_last_wins Sample.env0
           (Sample.upload "ids.csv" "text/csv"
              (Buffer_from ("id,name,id" ++ Sample.LF
                            ++ "1,Ann,7" ++ Sample.LF))) []
           [Csv.Bare (Buffer_from "id"); Csv.Bare (Buffer_from "name")] []
           (Csv.Bare (Buffer_from "id"))
           [[Csv.Bare (Buffer_from "1"); Csv.Bare (Buffer_from "Ann");
             Csv.Bare (Buffer_from "7")]]).
  - repeat split; simpl; (lia || discriminate).
  - exists false. left. reflexivity.
  - repeat constructor; discriminate.
  - repeat constructor.
  - left. apply ChunkFacts.fits. reflexivity.
  - intros [].
  - reflexivity.
Defined.

(** **** Order of the keys *)

Lemma arrayIndex_spelled (k : string) (n : N) :
  arrayIndex k = Some n -> k = spelled n.
Proof.
  unfold arrayIndex, spelled.
  destruct (NilEmpty.uint_of_string k) as [u|]; [|discriminate].
  destruct (String.eqb_spec (string_of_Z (Z.of_N (N.of_uint u))) k)
    as [E|_]; [|discriminate].
  destruct (N.of_uint u <? 4294967295)%N; [|discriminate].
  cbn [andb]. intros H. injection H as <-. now symmetry.
Qed.

Lemma In_insertIndex (n : N) (kv : string * string)
  (l : list (N * (string * string))) (x : N * (string * string)) :
  In x (insertIndex n kv l) <-> x = (n, kv) \/ In x l.
Proof.
  split.
  - intros H. apply (Permutation_in _ (insertIndex_perm n kv l)) in H.
    destruct H as [H|H]; [now left|now right].
  - intros H.
    apply (Permutation_in _ (Permutation_sym (insertIndex_perm n kv l))).
    destruct H as [H|H]; [now left|now right].
Qed.

Lemma In_indexProps (o : object) (x : N * (string * string)) :
  In x (indexProps o)
  <-> In (snd x) o /\ arrayIndex (fst (snd x)) = Some (fst x).
Proof.
  destruct x as [m [k' v']]. cbn [fst snd].
  induction o as [|[k v] o IH]; simpl; [tauto|].
  destruct (arrayIndex k) as [n|] eqn:E.
  - rewrite In_insertIndex, IH. split.
    + intros [H|[H1 H2]].
      * injection H as -> -> ->. split; [now left|assumption].
      * split; [now right|assumption].
    + intros [[H|H] H2].
      * left. injection H as -> ->. congruence.
      * right. now split.
  - rewrite IH. split.
    + intros [H1 H2]. split; [now right|assumption].
    + intros [[H|H] H2]; [|now split].
      injection H as -> ->. congruence.
Qed.

Lemma insertIndex_sorted (n : N) (kv : string * string) :
  forall l,
    StronglySorted N.lt (map fst l) ->
    ~ In n (map fst l) ->
    StronglySorted N.lt (map fst (insertIndex n kv l)).
Proof.
  induction l as [|[m kv'] l IH]; intros Hs Hn; simpl.
  - repeat constructor.
  - simpl in Hs, Hn. apply StronglySorted_inv in Hs as [Hs Hm].
    destruct (N.ltb_spec n m) as [Hlt|Hge].
    + simpl. constructor.
      * now constructor.
      * constructor; [assumption|].
        apply Forall_impl with (2 := Hm). intros y Hy. lia.
    + simpl. constructor.
      * apply IH; [assumption|tauto].
      * apply Forall_forall. intros y Hy.
        apply in_map_iff in Hy as (z & <- & Hz).
        apply In_insertIndex in Hz as [->|Hz].
        -- simpl. assert (n <> m) by (intros ->; apply Hn; now left). lia.
        -- rewrite Forall_forall in Hm. apply Hm. now apply in_map.
Qed.

Lemma indexProps_sorted (o : object) :
  NoDup (map fst o) -> StronglySorted N.lt (map fst (indexProps o)).
Proof.
  induction o as [|[k v] o IH]; intros Hnd; simpl; [constructor|].
  inversion Hnd as [|? ? Hout Hnd']; subst.
  destruct (arrayIndex k) as [n|] eqn:E; [|now apply IH].
  apply insertIndex_sorted; [now apply IH|].
  intros Hin. apply in_map_iff in Hin as ([m [k' v']] & Hm & Hin).
  simpl in Hm. subst m. apply In_indexProps in Hin as [Hin Hk'].
  simpl in Hin, Hk'. apply Hout.
  rewrite (arrayIndex_spelled _ _ E), <- (arrayIndex_spelled _ _ Hk').
  now apply (in_map fst) in Hin.
Qed.

Lemma indexProps_spelled (o : object) :
  map fst (map snd (indexProps o)) = map spelled (map fst (indexProps o)).
Proof.
  rewrite !map_map. apply map_ext_in. intros [n [k v]] Hin.
  apply In_indexProps in Hin as [_ Hk]. simpl in *.
  now apply arrayIndex_spelled.
Qed.

Lemma writeRow_from_distinct (hs : list string) :
  forall (cells : list string) (index : nat) (o : object),
    List.length cells = List.length hs ->
    NoDup hs ->
    Forall (fun k => CsvParser.reserved k = false) hs ->
    (forall k, In k hs -> ~ In k (map fst o)) ->
    CsvParser.writeRow_from index hs cells o = o ++ combine hs cells.
Proof.
  induction hs as [|h hs IH]; intros cells index o Hlen Hnd Hp Hfresh.
  - destruct cells; [|discriminate]. simpl. now rewrite app_nil_r.
  - destruct cells as [|cell cells]; [discriminate|].
    simpl in Hlen. injection Hlen as Hlen.
    inversion Hnd as [|? ? Hout Hnd']; subst.
    cbn [CsvParser.writeRow_from combine].
    rewrite (Forall_inv Hp). unfold set.
    rewrite (JsFacts.reserved_proto h (Forall_inv Hp)).
    rewrite JsFacts.assign_fresh by (apply Hfresh; now left).
    rewrite IH; try assumption.
    + now rewrite <- app_assoc.
    + apply (Forall_inv_tail Hp).
    + intros k Hk. rewrite map_app, in_app_iff. simpl.
      intros [Hin|[Heq|[]]].
      * apply (Hfresh k); [now right|assumption].
      * now subst k.
Qed.

(** The keys of a row object under distinct header names. *)
Lemma writeRow_key_order (hs cells : list string) :
  NoDup hs ->
  Forall (fun k => CsvParser.reserved k = false) hs ->
  List.length cells = List.length hs ->
  exists ns,
    StronglySorted N.lt ns
    /\ (forall n, In n ns <-> exists k, In k hs /\ arrayIndex k = Some n)
    /\ keys (CsvParser.writeRow hs cells)
       = map spelled ns ++ filter (fun k => negb (isIndex k)) hs.
Proof.
  intros Hnd Hp Hlen.
  assert (Ho : CsvParser.writeRow hs cells = combine hs cells).
  { unfold CsvParser.writeRow.
    now rewrite writeRow_from_distinct by (auto; intros k _ []). }
  assert (Hk : map fst (combine hs cells) = hs)
    by now apply map_fst_combine_same.
  exists (map fst (indexProps (combine hs cells))). split; [|split].
  - apply indexProps_sorted. now rewrite Hk.
  - intros n. rewrite in_map_iff. split.
    + intros ([m [k v]] & Hm & Hin). simpl in Hm. subst m.
      apply In_indexProps in Hin as [Hin Hidx]. simpl in *.
      exists k. split; [|assumption].
      rewrite <- Hk. now apply (in_map fst) in Hin.
    + intros (k & Hin & Hidx). rewrite <- Hk in Hin.
      apply in_map_iff in Hin as ([k' v] & Hk' & Hin). simpl in Hk'.
      subst k'. exists (n, (k, v)). split; [reflexivity|].
      apply In_indexProps. now split.
  - rewrite Ho. unfold keys, entries.
    now rewrite map_app, namedProps_names, indexProps_spelled, Hk.
Qed.

(** X16: the order of the keys of the records of a response, for a
    header of distinct names: first the names that are array indices
    (canonical decimal integers below 2^32 - 1) in ascending numeric
    order, then the other names in header order.  (The names
    [__proto__], [constructor] and [prototype] are left aside, and the
    header line lies within the first read of the file.) *)
Theorem record_key_order (e : env) (f : file) (disk : Fs.store)
  (header : list Csv.cell) (rows : list (list Csv.cell)) :
  decoded e f disk ->
  Csv.encodes (content f) (Csv.spellings header) (map Csv.spellings rows) ->
  Forall Csv.rowOk (header :: rows) ->
  Forall (fun r => List.length r = List.length header) rows ->
  Csv.firstRead (content f) (Csv.spellings header) ->
  NoDup (Csv.values header) ->
  Forall (fun k => CsvParser.reserved k = false) (Csv.values header) ->
  exists rs,
    res (convert e (Some f) disk) = Some (ok e rs)
    /\ List.length rs = List.length rows
    /\ Forall
         (fun o =>
            exists ns,
              StronglySorted N.lt ns
              /\ (forall n,
                     In n ns
                     <-> exists k,
                           In k (Csv.values header)
                           /\ arrayIndex k = Some n)
              /\ keys o
                 = map spelled ns
                   ++ filter (fun k => negb (isIndex k))
                        (Csv.values header))
         rs.
Proof.
  intros Hdec Hc Hok Hlen Hfirst Hnd Hres.
  exists (map (fun r => CsvParser.writeRow (Csv.values header)
                          (Csv.values r)) rows).
  split; [now apply ServerFacts.convert_rows|].
  split; [apply length_map|].
  apply Forall_forall. intros o Ho.
  apply in_map_iff in Ho as (r & <- & Hr).
  apply writeRow_key_order; [assumption|assumption|].
  unfold Csv.values. rewrite !length_map.
  rewrite Forall_forall in Hlen. apply Hlen, Hr.
Qed.

Lemma record_key_order_witness :
  exists rs,
    res (convert Sample.env0
           (Some (Sample.upload "k.csv" "text/csv"
                    (Buffer_from ("b,10,9" ++ Sample.LF
                                  ++ "x,y,z" ++ Sample.LF)))) [])
    = Some (ok Sample.env0 rs)
    /\ List.length rs = 1
    /\ Forall
         (fun o =>
            exists ns,
              StronglySorted N.lt ns
              /\ (forall n,
                     In n ns
                     <-> exists k,
                           In k ["b"; "10"; "9"] /\ arrayIndex k = Some n)
              /\ keys o
                 = map spelled ns
                   ++ filter (fun k => negb (isIndex k)) ["b"; "10"; "9"])
         rs.
Proof.
  apply (record_key_order Sample.env0
           (Sample.upload "k.csv" "text/csv"
              (Buffer_from ("b,10,9" ++ Sample.LF ++ "x,y,z" ++ Sample.LF)))
           []
           [Csv.Bare (Buffer_from "b"); Csv.Bare (Buffer_from "10");
            Csv.Bare (Buffer_from "9")]
           [[Csv.Bare (Buffer_from "x"); Csv.Bare (Buffer_from "y");
             Csv.Bare (Buffer_from "z")]]).
  - repeat split; simpl; (lia || discriminate).
  - exists false. left. reflexivity.
  - repeat constructor; discriminate.
  - repeat constructor.
  - left. apply ChunkFacts.fits. reflexivity.
  - repeat constructor; simpl; intuition discriminate.
  - repeat constructor.
Defined.

(** The file [b,10,9 / x,y,z]: the keys come as [9], [10], [b]. *)
Example index_keys_first :
  res (convert Sample.env0
         (Some (Sample.upload "k.csv" "text/csv"
                  (Buffer_from ("b,10,9" ++ Sample.LF
                                ++ "x,y,z" ++ Sample.LF)))) [])
  = Some
      {| status := 200;
         body :=
           JObj [("data",
                  JArr [JObj [("9", JStr "z"); ("10", JStr "y");
                              ("b", JStr "x")]]);
                 ("rowCount", JNum 1);
                 ("processingTime", JStr "12ms")] |}.
Proof. reflexivity. Qed.

(** **** Cells between quotes *)

(** X19: a cell written between quotes, with every quote of its
    content doubled, is decoded to its content: separators, line feeds,
    carriage returns and quotes between the quotes are part of the
    cell.  A file of a header line and N data lines whose cells are
    bare or quoted (line feeds, or carriage return and line feed; the
    last terminator optional), every data row as long as the header and
    the header line within the first read of the file, is answered with
    the N records of the cells' contents, decoded as UTF-8. *)
Theorem quoted_cells_decoded (e : env) (f : file) (disk : Fs.store)
  (header : list Csv.cell) (rows : list (list Csv.cell)) :
  decoded e f disk ->
  Csv.encodes (content f) (Csv.spellings header) (map Csv.spellings rows) ->
  Forall Csv.rowOk (header :: rows) ->
  Forall (fun r => List.length r = List.length header) rows ->
  Csv.firstRead (content f) (Csv.spellings header) ->
  res (convert e (Some f) disk)
  = Some (ok e (map (fun r => CsvParser.writeRow (Csv.values header)
                                (Csv.values r)) rows)).
Proof.
  intros Hdec Hc Hok Hlen Hfirst.
  apply ServerFacts.convert_rows_end; [assumption|].
  rewrite (ChunkFacts.pipe_encoded _ header rows Hc Hok Hlen Hfirst).
  now rewrite map_map.
Qed.

Lemma quoted_cells_decoded_witness :
  res (convert Sample.env0
         (Some (Sample.upload "q.csv" "text/csv" Sample.quotedTable)) [])
  = Some
      {| status := 200;
         body :=
           JObj [("data",
                  JArr [JObj [("name", JStr "Doe, Jane");
                              ("note",
                               JStr ("say " ++ Sample.DQ ++ "hi"
                                     ++ Sample.DQ ++ Sample.LF
                                     ++ "line 2"))]]);
                 ("rowCount", JNum 1);
                 ("processingTime", JStr "12ms")] |}.
Proof.
  apply (quoted_cells_decoded Sample.env0
           (Sample.upload "q.csv" "text/csv" Sample.quotedTable) []
           [Csv.Bare (Buffer_from "name"); Csv.Bare (Buffer_from "note")]
           [[Csv.Quoted (Buffer_from "Doe, Jane");
             Csv.Quoted (Buffer_from ("say " ++ Sample.DQ ++ "hi"
                                      ++ Sample.DQ ++ Sample.LF
                                      ++ "line 2"))]]).
  - repeat split; simpl; (lia || discriminate).
  - exists false. left. reflexivity.
  - repeat constructor; discriminate.
  - repeat constructor.
  - left. apply ChunkFacts.fits. reflexivity.
Defined.
